(** * Health worker: retry / repair escalation, active-check registry, tick loop

    A shallow embedding of [internal/health/worker.go].

    The worker is a Go object with mutable fields that talks to a health
    repository, a health checker (the probe), a metadata service and the ARR
    service (the rescanner).  Here the worker's fields, the repository's table
    and a trace of the calls made to the collaborators form one [World] that
    every method threads through; the results the collaborators give are read
    from an environment [Env].  Go [int]/[int64] values are [Z] with the
    64-bit wrap-around written out, [time.Time] and [time.Duration] are [Z]
    nanoseconds, Go [error] values are [option string] ([None] is [nil]). *)

From Stdlib Require Import ZArith String List Lia Bool.
From stdpp Require Import base option gmap strings list.

Open Scope Z_scope.

(** ** Integers and time *)

(** Two's complement wrap-around of Go's [int64] (and of [int] on 64-bit
    targets). *)
Definition wrap64 (z : Z) : Z := (z + 2 ^ 63) mod 2 ^ 64 - 2 ^ 63.

Definition int64_range (z : Z) : Prop := - 2 ^ 63 <= z < 2 ^ 63.

Definition Time := Z.
Definition Duration := Z.

Definition Millisecond : Duration := 1000000.
Definition Second : Duration := 1000000000.
Definition Minute : Duration := 60 * Second.
Definition Hour : Duration := 60 * Minute.
Definition Day : Duration := 24 * Hour.

(** Go's [error]: [None] is [nil], [Some msg] carries [err.Error()]. *)
Definition error := option string.

(** [fmt.Errorf(prefix + ": %w", err)]. *)
Definition wrapErr (prefix : string) (e : string) : string :=
  prefix +:+ ": " +:+ e.

(** ** The health record *)

(** Modelled from the spec: the status type of package [database], which is
    not among the sources; §3 lists the six statuses.  The worker names
    [HealthStatusPending] and [HealthStatusRepairTriggered]. *)
Inductive HealthStatus : Type :=
| HealthStatusPending
| HealthStatusChecking
| HealthStatusHealthy
| HealthStatusCorrupted
| HealthStatusRepairTriggered
| HealthStatusPermanentlyCorrupted.

#[global] Instance HealthStatus_eq_dec : EqDecision HealthStatus.
Proof. solve_decision. Defined.

(** Modelled from the spec: [database.FileHealth], the record of §3, with the
    field names the worker uses ([FilePath], [Status], [SourceNzbPath],
    [LibraryPath], [ReleaseDate], [CreatedAt], [RetryCount], [MaxRetries],
    [RepairRetryCount], [MaxRepairRetries]). *)
Record FileHealth : Type := mkFileHealth {
  FilePath : string;
  Status : HealthStatus;
  SourceNzbPath : option string;
  LibraryPath : option string;
  ReleaseDate : option Time;
  RetryCount : Z;
  MaxRetries : Z;
  RepairRetryCount : Z;
  MaxRepairRetries : Z;
  LastError : option string;
  LastChecked : option Time;
  ScheduledCheckAt : option Time;
  CreatedAt : Time
}.

(** ** Configuration *)

(** Modelled from the spec: [config.Config], whose Go source is not among the
    sources.  [CheckIntervalSeconds] (an [int]) and [MaxConcurrentJobs] (a
    [*int]) are the two fields [worker.go] reads; the other fields are the
    policy options of §6 that the store applies. *)
Record Config : Type := mkConfig {
  CheckIntervalSeconds : Z;
  MaxConcurrentJobs : option Z;
  RepairRecheckDelaySeconds : Z;
  RetryBackoffBaseSeconds : Z;
  RetryBackoffCapSeconds : Z;
  DefaultMaxRetries : Z;
  DefaultMaxRepairRetries : Z
}.

Definition defaultConfig : Config :=
  {| CheckIntervalSeconds := 5;
     MaxConcurrentJobs := Some 4;
     RepairRecheckDelaySeconds := 3600;
     RetryBackoffBaseSeconds := 60;
     RetryBackoffCapSeconds := 3600;
     DefaultMaxRetries := 3;
     DefaultMaxRepairRetries := 2 |}.

(** ** Scheduler *)

(** Modelled from the spec: [calculateNextCheck], which [worker.go] calls but
    does not define; §4.2 gives the curve. *)
Definition calculateNextCheck (releaseDate now : Time) : Time :=
  let age := Z.max 0 (now - releaseDate) in
  if age <? Day then now + Hour
  else if age <? 7 * Day then now + 6 * Hour
  else if age <? 30 * Day then now + Day
  else now + 7 * Day.

(** Modelled from the spec: the retry backoff of §4.2,
    [min (base * 2 ^ retry_count) cap], which the store applies in
    [increment_retry]. *)
Definition backoff (cfg : Config) (retryCount : Z) : Duration :=
  Z.min (RetryBackoffBaseSeconds cfg * Second * 2 ^ retryCount)
        (RetryBackoffCapSeconds cfg * Second).

(** Modelled from the spec: the flat repair recheck delay of §4.2. *)
Definition repairRecheckDelay (cfg : Config) : Duration :=
  RepairRecheckDelaySeconds cfg * Second.

(** ** The health store, as a table *)

Abbreviation Table := (gmap string FileHealth).

Module Store.

(** The Go source of the health repository is not among the sources.  This
    module gives, for each operation of §4.1, the change it makes to the row
    it addresses, and the two batch queries. *)

(** Modelled from the spec: [update(status, last_error, source_ref,
    scheduled_check_at, reset_counters)] of §4.1 on an existing row. *)
Definition update (status : HealthStatus) (lastError sourceNzb : option string)
    (scheduled : option Time) (resetCounters : bool) (fh : FileHealth) : FileHealth :=
  {| FilePath := FilePath fh;
     Status := status;
     SourceNzbPath := sourceNzb;
     LibraryPath := LibraryPath fh;
     ReleaseDate := ReleaseDate fh;
     RetryCount := if resetCounters then 0 else RetryCount fh;
     MaxRetries := MaxRetries fh;
     RepairRetryCount := if resetCounters then 0 else RepairRetryCount fh;
     MaxRepairRetries := MaxRepairRetries fh;
     LastError := lastError;
     LastChecked := LastChecked fh;
     ScheduledCheckAt := match scheduled with
                         | Some t => Some t
                         | None => ScheduledCheckAt fh
                         end;
     CreatedAt := CreatedAt fh |}.

(** Modelled from the spec: the row [update] inserts when the path is not
    yet tracked: status as given, counters zero, due at once (§3,
    lifecycle). *)
Definition fresh (cfg : Config) (now : Time) (path : string)
    (status : HealthStatus) (lastError sourceNzb : option string)
    (scheduled : option Time) : FileHealth :=
  {| FilePath := path;
     Status := status;
     SourceNzbPath := sourceNzb;
     LibraryPath := None;
     ReleaseDate := None;
     RetryCount := 0;
     MaxRetries := DefaultMaxRetries cfg;
     RepairRetryCount := 0;
     MaxRepairRetries := DefaultMaxRepairRetries cfg;
     LastError := lastError;
     LastChecked := None;
     ScheduledCheckAt := match scheduled with
                         | Some t => Some t
                         | None => Some now
                         end;
     CreatedAt := now |}.

(** Modelled from the spec: a change of status alone, as [set_checking] and
    [reset_all_checking] make it (§4.1). *)
Definition set_status (status : HealthStatus) (fh : FileHealth) : FileHealth :=
  {| FilePath := FilePath fh;
     Status := status;
     SourceNzbPath := SourceNzbPath fh;
     LibraryPath := LibraryPath fh;
     ReleaseDate := ReleaseDate fh;
     RetryCount := RetryCount fh;
     MaxRetries := MaxRetries fh;
     RepairRetryCount := RepairRetryCount fh;
     MaxRepairRetries := MaxRepairRetries fh;
     LastError := LastError fh;
     LastChecked := LastChecked fh;
     ScheduledCheckAt := ScheduledCheckAt fh;
     CreatedAt := CreatedAt fh |}.

(** Modelled from the spec: [mark_healthy] of §4.1: status Healthy, both
    counters zero, [last_checked] and [scheduled_check_at] updated. *)
Definition mark_healthy (now next : Time) (fh : FileHealth) : FileHealth :=
  {| FilePath := FilePath fh;
     Status := HealthStatusHealthy;
     SourceNzbPath := SourceNzbPath fh;
     LibraryPath := LibraryPath fh;
     ReleaseDate := ReleaseDate fh;
     RetryCount := 0;
     MaxRetries := MaxRetries fh;
     RepairRetryCount := 0;
     MaxRepairRetries := MaxRepairRetries fh;
     LastError := LastError fh;
     LastChecked := Some now;
     ScheduledCheckAt := Some next;
     CreatedAt := CreatedAt fh |}.

(** Modelled from the spec: [increment_retry] of §4.1: [retry_count += 1],
    [last_checked = now], [scheduled_check_at = now + backoff(retry_count)],
    status Corrupted. *)
Definition increment_retry (cfg : Config) (now : Time)
    (lastError : option string) (fh : FileHealth) : FileHealth :=
  {| FilePath := FilePath fh;
     Status := HealthStatusCorrupted;
     SourceNzbPath := SourceNzbPath fh;
     LibraryPath := LibraryPath fh;
     ReleaseDate := ReleaseDate fh;
     RetryCount := RetryCount fh + 1;
     MaxRetries := MaxRetries fh;
     RepairRetryCount := RepairRetryCount fh;
     MaxRepairRetries := MaxRepairRetries fh;
     LastError := lastError;
     LastChecked := Some now;
     ScheduledCheckAt := Some (now + backoff cfg (RetryCount fh + 1));
     CreatedAt := CreatedAt fh |}.

(** Modelled from the spec: [increment_repair_retry] of §4.1: the same on
    [repair_retry_count], in the repair phase. *)
Definition increment_repair_retry (cfg : Config) (now : Time)
    (lastError : option string) (fh : FileHealth) : FileHealth :=
  {| FilePath := FilePath fh;
     Status := HealthStatusRepairTriggered;
     SourceNzbPath := SourceNzbPath fh;
     LibraryPath := LibraryPath fh;
     ReleaseDate := ReleaseDate fh;
     RetryCount := RetryCount fh;
     MaxRetries := MaxRetries fh;
     RepairRetryCount := RepairRetryCount fh + 1;
     MaxRepairRetries := MaxRepairRetries fh;
     LastError := lastError;
     LastChecked := Some now;
     ScheduledCheckAt := Some (now + backoff cfg (RepairRetryCount fh + 1));
     CreatedAt := CreatedAt fh |}.

(** Modelled from the spec: [mark_permanently_corrupted] of §4.1: the
    terminal transition, with the error. *)
Definition mark_permanently_corrupted (lastError : option string)
    (fh : FileHealth) : FileHealth :=
  {| FilePath := FilePath fh;
     Status := HealthStatusPermanentlyCorrupted;
     SourceNzbPath := SourceNzbPath fh;
     LibraryPath := LibraryPath fh;
     ReleaseDate := ReleaseDate fh;
     RetryCount := RetryCount fh;
     MaxRetries := MaxRetries fh;
     RepairRetryCount := RepairRetryCount fh;
     MaxRepairRetries := MaxRepairRetries fh;
     LastError := lastError;
     LastChecked := LastChecked fh;
     ScheduledCheckAt := ScheduledCheckAt fh;
     CreatedAt := CreatedAt fh |}.

(** Modelled from the spec: [set_repair_triggered] of §4.1: status
    RepairTriggered, [scheduled_check_at = now + repair_recheck_delay].
    [worker.go] never calls the repository method behind it. *)
Definition set_repair_triggered (cfg : Config) (now : Time)
    (lastError : option string) (fh : FileHealth) : FileHealth :=
  {| FilePath := FilePath fh;
     Status := HealthStatusRepairTriggered;
     SourceNzbPath := SourceNzbPath fh;
     LibraryPath := LibraryPath fh;
     ReleaseDate := ReleaseDate fh;
     RetryCount := RetryCount fh;
     MaxRetries := MaxRetries fh;
     RepairRetryCount := RepairRetryCount fh;
     MaxRepairRetries := MaxRepairRetries fh;
     LastError := lastError;
     LastChecked := LastChecked fh;
     ScheduledCheckAt := Some (now + repairRecheckDelay cfg);
     CreatedAt := CreatedAt fh |}.

(** Modelled from the spec: [scheduled_check_at <= now] (§3, invariant 6);
    a record without a schedule is not due. *)
Definition scheduled_by (now : Time) (fh : FileHealth) : bool :=
  match ScheduledCheckAt fh with
  | Some t => t <=? now
  | None => false
  end.

(** Modelled from the spec: a row is due for a check (§4.1,
    [fetch_due_for_check]): Pending or Corrupted, scheduled no later than
    now. *)
Definition due_for_check (now : Time) (fh : FileHealth) : bool :=
  match Status fh with
  | HealthStatusPending | HealthStatusCorrupted => scheduled_by now fh
  | _ => false
  end.

(** Modelled from the spec: a row is due for repair (§4.1,
    [fetch_due_for_repair]): RepairTriggered, repair retries left, scheduled
    no later than now. *)
Definition due_for_repair (now : Time) (fh : FileHealth) : bool :=
  match Status fh with
  | HealthStatusRepairTriggered =>
      (RepairRetryCount fh <? MaxRepairRetries fh) && scheduled_by now fh
  | _ => false
  end.

Definition sched_key (fh : FileHealth) : Z := default 0 (ScheduledCheckAt fh).

(** Modelled from the spec: the order of [fetch_due_for_check],
    [scheduled_check_at] ascending, by insertion. *)
Fixpoint insert_by_schedule (fh : FileHealth) (l : list FileHealth) : list FileHealth :=
  match l with
  | [] => [fh]
  | x :: l' =>
      if sched_key fh <=? sched_key x then fh :: l
      else x :: insert_by_schedule fh l'
  end.

Definition sort_by_schedule (l : list FileHealth) : list FileHealth :=
  foldr insert_by_schedule [] l.

Definition rows (t : Table) : list FileHealth := (map_to_list t).*2.

(** Modelled from the spec: [fetch_due_for_check(limit)] of §4.1. *)
Definition fetch_due_for_check (now : Time) (limit : Z) (t : Table) : list FileHealth :=
  take (Z.to_nat limit) (sort_by_schedule (filter (λ fh, due_for_check now fh = true) (rows t))).

(** Modelled from the spec: [fetch_due_for_repair(limit)] of §4.1. *)
Definition fetch_due_for_repair (now : Time) (limit : Z) (t : Table) : list FileHealth :=
  take (Z.to_nat limit) (filter (λ fh, due_for_repair now fh = true) (rows t)).

End Store.

(** ** Events of a health check *)

(** Modelled from the spec: the type of the event the health checker
    returns (§6, [ProbeOutcome]); [worker.go] names the three event types. *)
Inductive EventType : Type :=
| EventTypeFileHealthy
| EventTypeFileCorrupted
| EventTypeCheckFailed.

#[global] Instance EventType_eq_dec : EqDecision EventType.
Proof. solve_decision. Defined.

(** Modelled from the spec: [HealthEvent], of which [worker.go] reads
    [Type], [FilePath] and [Error]. *)
Record HealthEvent : Type := mkHealthEvent {
  Type_ : EventType;
  EventFilePath : string;
  Error : error
}.

(** ** Worker statistics *)

Inductive WorkerStatus : Type :=
| WorkerStatusStopped
| WorkerStatusStarting
| WorkerStatusRunning
| WorkerStatusStopping.

Record WorkerStats : Type := mkWorkerStats {
  StatsStatus : WorkerStatus;
  LastRunTime : option Time;
  NextRunTime : option Time;
  TotalRunsCompleted : Z;
  TotalFilesChecked : Z;
  TotalFilesHealthy : Z;
  TotalFilesCorrupted : Z;
  CurrentRunStartTime : option Time;
  CurrentRunFilesChecked : Z;
  PendingManualChecks : Z;
  StatsLastError : option string;
  ErrorCount : Z
}.

(** ** Calls to the collaborators *)

(** What the worker asks of its collaborators, in the order it asks.  The
    two batch queries of the store are recorded as well; [CallTriggerRepair]
    marks an entry into [triggerFileRepair] (its first log line). *)
Inductive Call : Type :=
| CallGetUnhealthyFiles (limit : Z)
| CallGetFilesForRepairNotification (limit : Z)
| CallCheckFile (filePath : string)
| CallUpdateFileStatusHealthy (filePath : string)
| CallTriggerFileRescan (libraryPath : string)
| CallNotifyRcloneVFS (filePath : string) (t : EventType)
| CallTriggerRepair (filePath : string).

#[global] Instance Call_eq_dec : EqDecision Call.
Proof. solve_decision. Defined.

(** ** The world *)

(** A [context.Context] is the chain of cancel functions that end it, the
    innermost first; [context.Background()] is the empty chain.  A cancel
    function is named by the number [context.WithCancel] gave it. *)
Definition Context := list nat.

Record World : Type := mkWorld {
  (** [hw.healthRepo]: the table of health records *)
  store : Table;
  (** [hw.activeChecks]: file path to cancel function *)
  activeChecks : gmap string nat;
  (** the cancel functions that have been called *)
  cancelled : gset nat;
  (** the next cancel function [context.WithCancel] hands out *)
  nextCancel : nat;
  (** [hw.cycleRunning] *)
  cycleRunning : bool;
  (** [hw.stopChan] is closed *)
  stopChanClosed : bool;
  (** [hw.stats] *)
  stats : WorkerStats;
  (** the calls made so far, oldest first *)
  trace : list Call;
  (** the wall clock, what [time.Now()] reads *)
  clock : Time
}.

Definition with_store (f : Table → Table) (w : World) : World :=
  mkWorld (f (store w)) (activeChecks w) (cancelled w) (nextCancel w)
          (cycleRunning w) (stopChanClosed w) (stats w) (trace w) (clock w).

Definition with_activeChecks (f : gmap string nat → gmap string nat) (w : World) : World :=
  mkWorld (store w) (f (activeChecks w)) (cancelled w) (nextCancel w)
          (cycleRunning w) (stopChanClosed w) (stats w) (trace w) (clock w).

Definition with_cancelled (f : gset nat → gset nat) (w : World) : World :=
  mkWorld (store w) (activeChecks w) (f (cancelled w)) (nextCancel w)
          (cycleRunning w) (stopChanClosed w) (stats w) (trace w) (clock w).

Definition with_nextCancel (n : nat) (w : World) : World :=
  mkWorld (store w) (activeChecks w) (cancelled w) n
          (cycleRunning w) (stopChanClosed w) (stats w) (trace w) (clock w).

Definition with_cycleRunning (b : bool) (w : World) : World :=
  mkWorld (store w) (activeChecks w) (cancelled w) (nextCancel w)
          b (stopChanClosed w) (stats w) (trace w) (clock w).

Definition with_stats (f : WorkerStats → WorkerStats) (w : World) : World :=
  mkWorld (store w) (activeChecks w) (cancelled w) (nextCancel w)
          (cycleRunning w) (stopChanClosed w) (f (stats w)) (trace w) (clock w).

Definition with_clock (t : Time) (w : World) : World :=
  mkWorld (store w) (activeChecks w) (cancelled w) (nextCancel w)
          (cycleRunning w) (stopChanClosed w) (stats w) (trace w) t.

(** Record one call. *)
Definition record (c : Call) (w : World) : World :=
  mkWorld (store w) (activeChecks w) (cancelled w) (nextCancel w)
          (cycleRunning w) (stopChanClosed w) (stats w) (trace w ++ [c]) (clock w).

(** [ctx.Done()] is closed: one of the cancel functions of the chain has
    been called. *)
Definition ctxDone (ctx : Context) (w : World) : bool :=
  existsb (λ c, bool_decide (c ∈ cancelled w)) ctx.

(** [ctx.Err()] of a context that was cancelled.  No context of the model
    has a deadline, which would give another error. *)
Definition ctxErr : string := "context canceled".

(** ** The environment *)

(** The calls to the health repository that can fail. *)
Inductive StoreCall : Type :=
| StoreGetFileHealth (filePath : string)
| StoreUpdateFileHealth (filePath : string)
| StoreSetFileChecking (filePath : string)
| StoreMarkAsHealthy (filePath : string)
| StoreIncrementRetryCount (filePath : string)
| StoreIncrementRepairRetryCount (filePath : string)
| StoreSetCorrupted (filePath : string)
| StoreMarkAsCorrupted (filePath : string)
| StoreGetUnhealthyFiles
| StoreGetFilesForRepairNotification.

(** What an operator does while a probe is in flight. *)
Inductive OperatorAction : Type :=
| OpCancelHealthCheck (filePath : string)
| OpCancelContext (c : nat).

(** One run of the probe: how long it takes, what happens meanwhile, and
    the event it returns. *)
Record ProbeRun : Type := mkProbeRun {
  took : Duration;
  during : list OperatorAction;
  outcome : EventType;
  detail : error
}.

Record Env : Type := mkEnv {
  (** [hw.configGetter()] *)
  cfg : Config;
  (** [hw.healthChecker.CheckFile] *)
  probe : string → ProbeRun;
  (** the result of [hw.metadataService.UpdateFileStatus] *)
  metadataErr : string → error;
  (** the result of [hw.arrsService.TriggerFileRescan] *)
  rescanErr : string → error;
  (** a failure of the persistence layer under a repository call *)
  storeFault : StoreCall → error
}.

(** ** Computations of the worker *)

(** A method either returns or panics, and leaves a world behind. *)
Inductive Outcome (A : Type) : Type :=
| Done (a : A)
| Panicked.
Arguments Done {A} a.
Arguments Panicked {A}.

Definition M (A : Type) : Type := World → Outcome A * World.

Definition ret {A} (a : A) : M A := λ w, (Done a, w).

Definition bind {A B} (m : M A) (k : A → M B) : M B :=
  λ w, match m w with
       | (Done a, w') => k a w'
       | (Panicked, w') => (Panicked, w')
       end.

Definition modify (f : World → World) : M unit := λ w, (Done tt, f w).

Definition gets {A} (f : World → A) : M A := λ w, (Done (f w), w).

Definition panic {A} : M A := λ w, (Panicked, w).

(** [defer d]: [d] runs when the body returns and when it panics. *)
Definition deferring {A} (d : World → World) (body : M A) : M A :=
  λ w, let '(r, w') := body w in (r, d w').

Notation "'let*' x ':=' m 'in' k" := (bind m (λ x, k))
  (at level 10, x name, m at level 100, k at level 200).
Notation "m ;; k" := (bind m (λ _, k))
  (at level 100, k at level 200, right associativity).

(** The world a computation leaves, and the calls it made. *)
Definition after {A} (m : M A) (w : World) : World := (m w).2.
Definition result {A} (m : M A) (w : World) : Outcome A := (m w).1.
Definition emitted {A} (m : M A) (w : World) : list Call :=
  drop (length (trace w)) (trace (after m w)).

(** ** The health repository *)

Module HealthRepository.

(** The methods of [database.HealthRepository] that [worker.go] calls (§4.1).
    Their Go source is not among the sources.  Each method is atomic; when
    the persistence layer fails under it ([storeFault]) it returns that
    error and changes nothing. *)

(** Modelled from the spec: an atomic write to the table (§4.1). *)
Definition write (env : Env) (c : StoreCall) (f : World → Table → Table) : M error :=
  λ w, match storeFault env c with
       | Some e => (Done (Some e), w)
       | None => (Done None, with_store (f w) w)
       end.

(** Modelled from the spec: [get(file_path) -> record | none] of §4.1. *)
Definition GetFileHealth (env : Env) (filePath : string) : M (option FileHealth * error) :=
  λ w, match storeFault env (StoreGetFileHealth filePath) with
       | Some e => (Done (None, Some e), w)
       | None => (Done (store w !! filePath, None), w)
       end.

(** Modelled from the spec: [update(...)] of §4.1, the general write path:
    changes the row, or inserts it when the path is not yet tracked. *)
Definition UpdateFileHealth (env : Env) (filePath : string) (status : HealthStatus)
    (errorMessage sourceNzbPath : option string) (scheduledCheckAt : option Time)
    (resetCounters : bool) : M error :=
  write env (StoreUpdateFileHealth filePath)
    (λ w t, match t !! filePath with
            | Some fh =>
                <[filePath := Store.update status errorMessage sourceNzbPath
                                scheduledCheckAt resetCounters fh]> t
            | None =>
                <[filePath := Store.fresh (cfg env) (clock w) filePath status
                                errorMessage sourceNzbPath scheduledCheckAt]> t
            end).

(** Modelled from the spec: [set_checking] of §4.1: to Checking; fails for a
    Healthy or PermanentlyCorrupted record, and for a path that is not
    tracked. *)
Definition SetFileChecking (env : Env) (filePath : string) : M error :=
  λ w, match storeFault env (StoreSetFileChecking filePath) with
       | Some e => (Done (Some e), w)
       | None =>
           match store w !! filePath with
           | None => (Done (Some "file health record not found"), w)
           | Some fh =>
               match Status fh with
               | HealthStatusHealthy | HealthStatusPermanentlyCorrupted =>
                   (Done (Some "file is not eligible for a health check"), w)
               | _ =>
                   (Done None,
                    with_store <[filePath := Store.set_status HealthStatusChecking fh]> w)
               end
           end
       end.

(** Modelled from the spec: [mark_healthy(file_path, next_scheduled_at)] of
    §4.1. *)
Definition MarkAsHealthy (env : Env) (filePath : string) (nextCheck : Time) : M error :=
  write env (StoreMarkAsHealthy filePath)
    (λ w, alter (Store.mark_healthy (clock w) nextCheck) filePath).

(** Modelled from the spec: [increment_retry(file_path, last_error)] of
    §4.1. *)
Definition IncrementRetryCount (env : Env) (filePath : string)
    (errorMessage : option string) : M error :=
  write env (StoreIncrementRetryCount filePath)
    (λ w, alter (Store.increment_retry (cfg env) (clock w) errorMessage) filePath).

(** Modelled from the spec: [increment_repair_retry(file_path, last_error)]
    of §4.1. *)
Definition IncrementRepairRetryCount (env : Env) (filePath : string)
    (errorMessage : option string) : M error :=
  write env (StoreIncrementRepairRetryCount filePath)
    (λ w, alter (Store.increment_repair_retry (cfg env) (clock w) errorMessage) filePath).

(** Modelled from the spec: [mark_permanently_corrupted] of §4.1, under the
    name the worker calls when a rescan is refused (§4.4, step 5). *)
Definition SetCorrupted (env : Env) (filePath : string)
    (errorMessage : option string) : M error :=
  write env (StoreSetCorrupted filePath)
    (λ _, alter (Store.mark_permanently_corrupted errorMessage) filePath).

(** Modelled from the spec: [mark_permanently_corrupted] of §4.1, under the
    name the worker calls when the repair retries are exhausted (§4.4). *)
Definition MarkAsCorrupted (env : Env) (filePath : string)
    (errorMessage : option string) : M error :=
  write env (StoreMarkAsCorrupted filePath)
    (λ _, alter (Store.mark_permanently_corrupted errorMessage) filePath).

(** Modelled from the spec: [fetch_due_for_check(limit)] of §4.1. *)
Definition GetUnhealthyFiles (env : Env) (limit : Z) : M (list FileHealth * error) :=
  λ w, let w' := record (CallGetUnhealthyFiles limit) w in
       match storeFault env StoreGetUnhealthyFiles with
       | Some e => (Done ([], Some e), w')
       | None => (Done (Store.fetch_due_for_check (clock w) limit (store w), None), w')
       end.

(** Modelled from the spec: [fetch_due_for_repair(limit)] of §4.1. *)
Definition GetFilesForRepairNotification (env : Env) (limit : Z)
    : M (list FileHealth * error) :=
  λ w, let w' := record (CallGetFilesForRepairNotification limit) w in
       match storeFault env StoreGetFilesForRepairNotification with
       | Some e => (Done ([], Some e), w')
       | None => (Done (Store.fetch_due_for_repair (clock w) limit (store w), None), w')
       end.

End HealthRepository.

Import HealthRepository.

(** ** The worker *)

(** [hw.updateStats(updateFunc)]. *)
Definition updateStats (updateFunc : WorkerStats → WorkerStats) : M unit :=
  modify (with_stats updateFunc).

(** [hw.getMaxConcurrentJobs()]. *)
Definition getMaxConcurrentJobs (env : Env) : Z :=
  match MaxConcurrentJobs (cfg env) with
  | Some n => if 0 <? n then n else 4
  | None => 4
  end.

(** [hw.getCheckInterval()]. *)
Definition getCheckInterval (env : Env) : Duration :=
  let intervalSeconds := CheckIntervalSeconds (cfg env) in
  if intervalSeconds <=? 0 then 5 * Second
  else wrap64 (intervalSeconds * Second).

(** [hw.IsCheckActive(filePath)]. *)
Definition IsCheckActive (filePath : string) (w : World) : bool :=
  bool_decide (is_Some (activeChecks w !! filePath)).

(** [hw.IsCycleRunning()]. *)
Definition IsCycleRunning (w : World) : bool := cycleRunning w.

(** Calling a cancel function. *)
Definition callCancel (c : nat) : World → World :=
  with_cancelled (λ s, {[c]} ∪ s).

(** [hw.CancelHealthCheck(ctx, filePath)]. *)
Definition CancelHealthCheck (env : Env) (filePath : string) : M error :=
  let* cancelFunc := gets (λ w, activeChecks w !! filePath) in
  match cancelFunc with
  | None => ret (Some ("no active health check found for file: " +:+ filePath))
  | Some c =>
      modify (callCancel c) ;;
      modify (with_activeChecks (delete filePath)) ;;
      let* err := UpdateFileHealth env filePath HealthStatusPending None None None false in
      match err with
      | Some e => ret (Some (wrapErr "failed to update file status after cancellation" e))
      | None => ret None
      end
  end.

(** What goes on beside a probe in flight. *)
Definition operate (env : Env) (a : OperatorAction) : M unit :=
  match a with
  | OpCancelHealthCheck filePath =>
      let* _ := CancelHealthCheck env filePath in ret tt
  | OpCancelContext c => modify (callCancel c)
  end.

Fixpoint operateAll (env : Env) (l : list OperatorAction) : M unit :=
  match l with
  | [] => ret tt
  | a :: l' => operate env a ;; operateAll env l'
  end.

(** Modelled from the spec: [hw.healthChecker.CheckFile], the probe (§6),
    whose Go source is not among the sources.  It returns an event for the
    file it was given; while it runs the operator's actions take place and
    the clock advances. *)
Definition CheckFile (env : Env) (filePath : string) : M HealthEvent :=
  let run := probe env filePath in
  modify (record (CallCheckFile filePath)) ;;
  operateAll env (during run) ;;
  modify (λ w, with_clock (clock w + took run) w) ;;
  ret {| Type_ := outcome run; EventFilePath := filePath; Error := detail run |}.

Definition errNoLibraryPath (filePath : string) : string :=
  "no library path found for file: " +:+ filePath
    +:+ ", trigger a manual library sync to fix this".

(** [hw.triggerFileRepair(ctx, filePath, errorMsg)].  The Go code reads
    [healthRecord.LibraryPath] without a nil check, which panics when the
    record is gone. *)
Definition triggerFileRepair (env : Env) (filePath : string)
    (errorMsg : option string) : M error :=
  modify (record (CallTriggerRepair filePath)) ;;
  let* r := GetFileHealth env filePath in
  match r with
  | (_, Some e) =>
      ret (Some (wrapErr "failed to get health record for library path lookup" e))
  | (None, None) => panic
  | (Some healthRecord, None) =>
      match LibraryPath healthRecord with
      | None => ret (Some (errNoLibraryPath filePath))
      | Some libraryPath =>
          if decide (libraryPath = "") then ret (Some (errNoLibraryPath filePath))
          else
            modify (record (CallTriggerFileRescan libraryPath)) ;;
            match rescanErr env libraryPath with
            | Some e => SetCorrupted env filePath (Some e)
            | None => ret None
            end
      end
  end.

(** [hw.handleHealthCheckResult(ctx, event)]. *)
Definition handleHealthCheckResult (env : Env) (event : HealthEvent) : M error :=
  let filePath := EventFilePath event in
  match Type_ event with
  | EventTypeFileHealthy =>
      modify (record (CallUpdateFileStatusHealthy filePath)) ;;
      match metadataErr env filePath with
      | Some e => ret (Some (wrapErr "failed to update metadata status" e))
      | None =>
          let* r := GetFileHealth env filePath in
          match r with
          | (_, Some e) => ret (Some (wrapErr "failed to get file health record" e))
          | (None, None) => ret None
          | (Some fileHealth, None) =>
              let releaseDate :=
                match ReleaseDate fileHealth with
                | Some d => d
                | None => CreatedAt fileHealth
                end in
              let* now := gets clock in
              let nextCheck := calculateNextCheck releaseDate now in
              let* err := MarkAsHealthy env filePath nextCheck in
              match err with
              | Some e => ret (Some (wrapErr "failed to mark file as healthy" e))
              | None => ret None
              end
          end
      end
  | EventTypeFileCorrupted | EventTypeCheckFailed =>
      let* r := GetFileHealth env filePath in
      match r with
      | (_, Some e) => ret (Some (wrapErr "failed to get file health record" e))
      | (None, None) =>
          ret (Some ("file health record not found for file: " +:+ filePath))
      | (Some fileHealth, None) =>
          let errorMsg := Error event in
          match Status fileHealth with
          | HealthStatusRepairTriggered =>
              let* err := IncrementRepairRetryCount env filePath errorMsg in
              match err with
              | Some e => ret (Some (wrapErr "failed to increment repair retry count" e))
              | None =>
                  if wrap64 (MaxRepairRetries fileHealth - 1) <=? RepairRetryCount fileHealth
                  then
                    let* err := MarkAsCorrupted env filePath errorMsg in
                    match err with
                    | Some e => ret (Some (wrapErr "failed to mark file as corrupted" e))
                    | None => ret None
                    end
                  else ret None
              end
          | _ =>
              let* err := IncrementRetryCount env filePath errorMsg in
              match err with
              | Some e => ret (Some (wrapErr "failed to increment retry count" e))
              | None =>
                  if wrap64 (MaxRetries fileHealth - 1) <=? RetryCount fileHealth
                  then
                    let* err := triggerFileRepair env filePath errorMsg in
                    match err with
                    | Some e => ret (Some (wrapErr "failed to trigger repair" e))
                    | None => ret None
                    end
                  else ret None
              end
          end
      end
  end.

(** The statistics updates the worker makes under [updateStats]. *)
Module Stats.

(** [s.CurrentRunStartTime = &now; s.CurrentRunFilesChecked = 0]. *)
Definition cycleStarted (now : Time) (s : WorkerStats) : WorkerStats :=
  {| StatsStatus := StatsStatus s;
     LastRunTime := LastRunTime s;
     NextRunTime := NextRunTime s;
     TotalRunsCompleted := TotalRunsCompleted s;
     TotalFilesChecked := TotalFilesChecked s;
     TotalFilesHealthy := TotalFilesHealthy s;
     TotalFilesCorrupted := TotalFilesCorrupted s;
     CurrentRunStartTime := Some now;
     CurrentRunFilesChecked := 0;
     PendingManualChecks := PendingManualChecks s;
     StatsLastError := StatsLastError s;
     ErrorCount := ErrorCount s |}.

(** [s.CurrentRunStartTime = nil; s.CurrentRunFilesChecked = 0;
    s.TotalRunsCompleted++; s.LastRunTime = &now; s.NextRunTime = &nextRun]. *)
Definition cycleCompleted (now : Time) (interval : Duration) (s : WorkerStats)
    : WorkerStats :=
  {| StatsStatus := StatsStatus s;
     LastRunTime := Some now;
     NextRunTime := Some (now + interval);
     TotalRunsCompleted := wrap64 (TotalRunsCompleted s + 1);
     TotalFilesChecked := TotalFilesChecked s;
     TotalFilesHealthy := TotalFilesHealthy s;
     TotalFilesCorrupted := TotalFilesCorrupted s;
     CurrentRunStartTime := None;
     CurrentRunFilesChecked := 0;
     PendingManualChecks := PendingManualChecks s;
     StatsLastError := StatsLastError s;
     ErrorCount := ErrorCount s |}.

(** [s.CurrentRunFilesChecked++]. *)
Definition fileProcessed (s : WorkerStats) : WorkerStats :=
  {| StatsStatus := StatsStatus s;
     LastRunTime := LastRunTime s;
     NextRunTime := NextRunTime s;
     TotalRunsCompleted := TotalRunsCompleted s;
     TotalFilesChecked := TotalFilesChecked s;
     TotalFilesHealthy := TotalFilesHealthy s;
     TotalFilesCorrupted := TotalFilesCorrupted s;
     CurrentRunStartTime := CurrentRunStartTime s;
     CurrentRunFilesChecked := wrap64 (CurrentRunFilesChecked s + 1);
     PendingManualChecks := PendingManualChecks s;
     StatsLastError := StatsLastError s;
     ErrorCount := ErrorCount s |}.

(** [s.TotalFilesChecked++] and the counter of the event's type. *)
Definition fileChecked (t : EventType) (s : WorkerStats) : WorkerStats :=
  {| StatsStatus := StatsStatus s;
     LastRunTime := LastRunTime s;
     NextRunTime := NextRunTime s;
     TotalRunsCompleted := TotalRunsCompleted s;
     TotalFilesChecked := wrap64 (TotalFilesChecked s + 1);
     TotalFilesHealthy :=
       match t with
       | EventTypeFileHealthy => wrap64 (TotalFilesHealthy s + 1)
       | _ => TotalFilesHealthy s
       end;
     TotalFilesCorrupted :=
       match t with
       | EventTypeFileCorrupted => wrap64 (TotalFilesCorrupted s + 1)
       | _ => TotalFilesCorrupted s
       end;
     CurrentRunStartTime := CurrentRunStartTime s;
     CurrentRunFilesChecked := CurrentRunFilesChecked s;
     PendingManualChecks := PendingManualChecks s;
     StatsLastError := StatsLastError s;
     ErrorCount := ErrorCount s |}.

(** [s.ErrorCount++; s.LastError = &errMsg]. *)
Definition cycleFailed (errMsg : string) (s : WorkerStats) : WorkerStats :=
  {| StatsStatus := StatsStatus s;
     LastRunTime := LastRunTime s;
     NextRunTime := NextRunTime s;
     TotalRunsCompleted := TotalRunsCompleted s;
     TotalFilesChecked := TotalFilesChecked s;
     TotalFilesHealthy := TotalFilesHealthy s;
     TotalFilesCorrupted := TotalFilesCorrupted s;
     CurrentRunStartTime := CurrentRunStartTime s;
     CurrentRunFilesChecked := CurrentRunFilesChecked s;
     PendingManualChecks := PendingManualChecks s;
     StatsLastError := Some errMsg;
     ErrorCount := wrap64 (ErrorCount s + 1) |}.

End Stats.

(** [hw.performDirectCheck(ctx, filePath)]. *)
Definition performDirectCheck (env : Env) (ctx : Context) (filePath : string) : M error :=
  let* cancel := gets nextCancel in
  modify (with_nextCancel (S cancel)) ;;
  let checkCtx := cancel :: ctx in
  deferring (callCancel cancel)
    (modify (with_activeChecks <[filePath := cancel]>) ;;
     deferring (with_activeChecks (delete filePath))
       (let* cancelledBefore := gets (ctxDone checkCtx) in
        if cancelledBefore then ret (Some ctxErr)
        else
          let* event := CheckFile env filePath in
          let* cancelledDuring := gets (ctxDone checkCtx) in
          if cancelledDuring then ret (Some ctxErr)
          else
            let* err := handleHealthCheckResult env event in
            match err with
            | Some e => ret (Some (wrapErr "failed to handle health check result" e))
            | None =>
                modify (record (CallNotifyRcloneVFS filePath (Type_ event))) ;;
                updateStats (Stats.fileChecked (Type_ event)) ;;
                ret None
            end)).

(** [hw.processRepairNotification(ctx, fileHealth)]. *)
Definition processRepairNotification (env : Env) (ctx : Context)
    (fileHealth : FileHealth) : M error :=
  let* cancelledBefore := gets (ctxDone ctx) in
  if cancelledBefore then ret (Some ctxErr)
  else
    let* err := triggerFileRepair env (FilePath fileHealth) None in
    match err with
    | Some e =>
        let* retryErr :=
          IncrementRepairRetryCount env (FilePath fileHealth) (Some e) in
        match retryErr with
        | Some e' =>
            ret (Some (wrapErr
                   "failed to increment repair retry count after trigger failure" e'))
        | None => ret None
        end
    | None => ret None
    end.

(** [conc.WaitGroup]: [Go] for every task, then [Wait].  The tasks are run
    one after the other in the order they were submitted, which is one of the
    schedules the Go runtime may choose.  A panic in a task does not stop the
    others; [Wait] raises it again when all are done. *)
Fixpoint waitGroup (tasks : list (M unit)) : M unit :=
  match tasks with
  | [] => ret tt
  | task :: rest =>
      λ w, match task w with
           | (Done _, w') => waitGroup rest w'
           | (Panicked, w') => (Panicked, (waitGroup rest w').2)
           end
  end.

(** The task of a cycle for a file due for a check. *)
Definition checkTask (env : Env) (ctx : Context) (fh : FileHealth) : M unit :=
  let* err := SetFileChecking env (FilePath fh) in
  match err with
  | Some _ => ret tt
  | None =>
      let* _ := performDirectCheck env ctx (FilePath fh) in
      updateStats Stats.fileProcessed
  end.

(** The task of a cycle for a file due for a repair notification. *)
Definition repairTask (env : Env) (ctx : Context) (fh : FileHealth) : M unit :=
  let* _ := processRepairNotification env ctx fh in
  updateStats Stats.fileProcessed.

(** [hw.runHealthCheckCycle(ctx)]. *)
Definition runHealthCheckCycle (env : Env) (ctx : Context) : M error :=
  modify (with_cycleRunning true) ;;
  deferring (with_cycleRunning false)
    (let* now := gets clock in
     let maxConcurrent := getMaxConcurrentJobs env in
     updateStats (Stats.cycleStarted now) ;;
     let* r := GetUnhealthyFiles env maxConcurrent in
     match r with
     | (_, Some e) => ret (Some (wrapErr "failed to get unhealthy files" e))
     | (unhealthyFiles, None) =>
         let* r := GetFilesForRepairNotification env maxConcurrent in
         match r with
         | (_, Some e) =>
             ret (Some (wrapErr "failed to get files for repair notification" e))
         | (repairFiles, None) =>
             let totalFiles := (length unhealthyFiles + length repairFiles)%nat in
             if (totalFiles =? 0)%nat then
               updateStats (Stats.cycleCompleted now (getCheckInterval env)) ;;
               ret None
             else
               waitGroup (map (checkTask env ctx) unhealthyFiles
                            ++ map (repairTask env ctx) repairFiles) ;;
               updateStats (Stats.cycleCompleted now (getCheckInterval env)) ;;
               ret None
         end
     end).

(** The ticker case of the loop of [hw.run]: one tick. *)
Definition tick (env : Env) (ctx : Context) : M unit :=
  let* isCycleRunning := gets cycleRunning in
  if isCycleRunning then ret tt
  else
    let* err := runHealthCheckCycle env ctx in
    match err with
    | Some errMsg => updateStats (Stats.cycleFailed errMsg)
    | None => ret tt
    end.

(** The loop of [hw.run] under a ticker of the given period, watched up to
    the time [horizon].  The ticker fires at [nextTick], [nextTick + period],
    ...; its channel holds one tick, so the ticks that fire while the loop is
    busy in a cycle are dropped but for the first.  A tick is received when
    it has fired and the loop is free: at [max nextTick clock].  A context
    that is done or a closed stop channel ends the loop before the next tick
    is taken.  The result is [true] when the loop has returned or the
    horizon is reached, [false] when [fuel] iterations did not suffice. *)
Fixpoint runLoop (fuel : nat) (env : Env) (ctx : Context) (period : Duration)
    (horizon : Time) (nextTick : Time) : M bool :=
  match fuel with
  | O => ret false
  | S fuel' =>
      let* cancelledNow := gets (ctxDone ctx) in
      let* stopped := gets stopChanClosed in
      if cancelledNow || stopped then ret true
      else
        let* now := gets clock in
        let received := Z.max nextTick now in
        if horizon <? received then ret true
        else
          modify (with_clock received) ;;
          tick env ctx ;;
          runLoop fuel' env ctx period horizon
            (nextTick + period * ((received - nextTick) / period + 1))
  end.

(** [hw.run(ctx)], watched up to [horizon]: [time.NewTicker] panics for a
    period that is not positive. *)
Definition run (fuel : nat) (env : Env) (ctx : Context) (horizon : Time) : M bool :=
  let period := getCheckInterval env in
  if period <=? 0 then panic
  else
    let* now := gets clock in
    runLoop fuel env ctx period horizon (now + period).

(** ** Reading the trace *)

Definition isCheckFile (c : Call) : bool :=
  match c with CallCheckFile _ => true | _ => false end.

Definition isRescan (c : Call) : bool :=
  match c with CallTriggerFileRescan _ => true | _ => false end.

Definition isTriggerRepair (c : Call) : bool :=
  match c with CallTriggerRepair _ => true | _ => false end.

(** How many calls of a kind a trace holds. *)
Definition count (kind : Call → bool) (l : list Call) : nat :=
  length (List.filter kind l).

(** ** Scenarios and invariants *)

Definition idleStats : WorkerStats :=
  mkWorkerStats WorkerStatusRunning None None 0 0 0 0 None 0 0 None 0.

(** A worker that has just started, at time 0, over the given table. *)
Definition startWorld (t : Table) : World :=
  mkWorld t ∅ ∅ 0%nat false false idleStats [] 0.

(** Collaborators that never fail, with a probe that always takes [lasts]
    and returns the same outcome. *)
Definition steadyEnv (o : EventType) (d : error) (lasts : Duration) : Env :=
  {| cfg := defaultConfig;
     probe := λ _, mkProbeRun lasts [] o d;
     metadataErr := λ _, None;
     rescanErr := λ _, None;
     storeFault := λ _, None |}.

(** The record of scenarios S2 and S3: Pending, due, [max_retries = 3],
    [max_repair_retries = 2]. *)
Definition pendingRecord (maxRetries : Z) (libraryPath : option string) : FileHealth :=
  mkFileHealth "/m/x.mkv" HealthStatusPending None libraryPath None
    0 maxRetries 0 2 None None (Some 0) 0.

(** The event of a probe of that file. *)
Definition eventOf (o : EventType) : HealthEvent :=
  mkHealthEvent o "/m/x.mkv" (Some "segments missing").

(** A started worker that tracks one record. *)
Definition tracking (fh : FileHealth) : World :=
  startWorld {[ FilePath fh := fh ]}.

(** The world once [performDirectCheck] has registered its cancel function
    for [filePath]: the check is in flight. *)
Definition checkInFlight (filePath : string) (w : World) : World :=
  with_activeChecks <[filePath := nextCancel w]>
    (with_nextCancel (S (nextCancel w)) w).

(** The world when the probe of that check returns. *)
Definition probeReturned (env : Env) (filePath : string) (w : World) : World :=
  after (CheckFile env filePath) (checkInFlight filePath w).

(** The same collaborators under a configured check interval. *)
Definition withCheckInterval (seconds : Z) (env : Env) : Env :=
  mkEnv (mkConfig seconds (MaxConcurrentJobs (cfg env))
           (RepairRecheckDelaySeconds (cfg env)) (RetryBackoffBaseSeconds (cfg env))
           (RetryBackoffCapSeconds (cfg env)) (DefaultMaxRetries (cfg env))
           (DefaultMaxRepairRetries (cfg env)))
        (probe env) (metadataErr env) (rescanErr env) (storeFault env).

(** The same collaborators, but the metadata service fails. *)
Definition withMetadataErr (e : string) (env : Env) : Env :=
  mkEnv (cfg env) (probe env) (λ _, Some e) (rescanErr env) (storeFault env).


(** The same collaborators, but the operator cancels every check while its
    probe is in flight (scenario S4). *)
Definition withOperatorCancelling (env : Env) : Env :=
  mkEnv (cfg env)
        (λ p, mkProbeRun (took (probe env p)) [OpCancelHealthCheck p]
                (outcome (probe env p)) (detail (probe env p)))
        (metadataErr env) (rescanErr env) (storeFault env).

(** A cycle run when the clock shows [t]. *)
Definition cycleAt (t : Time) (env : Env) (ctx : Context) : M error :=
  modify (with_clock t) ;; runHealthCheckCycle env ctx.

(** Three cycles an hour apart, so that the record is due in each. *)
Definition threeCycles (env : Env) : M error :=
  cycleAt 0 env [] ;; cycleAt Hour env [] ;; cycleAt (2 * Hour) env [].

(** The same outcome handled [n] times in a row. *)
Fixpoint failures (n : nat) (env : Env) (event : HealthEvent) : M unit :=
  match n with
  | O => ret tt
  | S n' => handleHealthCheckResult env event ;; failures n' env event
  end.

(** The outcome is a failure of the check. *)
Definition failing (event : HealthEvent) : Prop :=
  Type_ event = EventTypeFileCorrupted ∨ Type_ event = EventTypeCheckFailed.

(** [library_ref] is missing or empty. *)
Definition noLibraryPath (fh : FileHealth) : Prop :=
  LibraryPath fh = None ∨ LibraryPath fh = Some "".

(** The two counters of a record with their bounds. *)
Definition counters (fh : FileHealth) : Z * Z * Z * Z :=
  (RetryCount fh, MaxRetries fh, RepairRetryCount fh, MaxRepairRetries fh).

(** Invariant 2 of the store (§3) on one record. *)
Definition withinBounds (fh : FileHealth) : Prop :=
  RetryCount fh ≤ MaxRetries fh ∧ RepairRetryCount fh ≤ MaxRepairRetries fh.

(** Every row is stored under its own file path. *)
Definition keyed (t : Table) : Prop :=
  ∀ k fh, t !! k = Some fh → FilePath fh = k.

(** Cancel functions are handed out in order: those called so far are below
    the next one. *)
Definition cancelsInOrder (w : World) : Prop :=
  ∀ c, c ∈ cancelled w → (c < nextCancel w)%nat.

(** What every step of the worker leaves alone: the trace only grows, no
    record disappears, and [TotalRunsCompleted] keeps its value. *)
Record frame (w w' : World) : Prop := mkFrame {
  frame_trace : ∃ l, trace w' = trace w ++ l;
  frame_store : ∀ p, is_Some (store w !! p) → is_Some (store w' !! p);
  frame_runs : TotalRunsCompleted (stats w') = TotalRunsCompleted (stats w)
}.

Definition framed {A} (m : M A) : Prop := ∀ w, frame w (after m w).

(** ** The rest of the worker: lifecycle and manual operations *)

(** The lifecycle fields of the worker beside its world: [hw.running] and
    [hw.status]. *)
Record Worker : Type := mkWorker {
  world : World;
  running : bool;
  status : WorkerStatus
}.

(** A method of the worker that reads or writes the lifecycle fields. *)
Definition L (A : Type) : Type := Worker → Outcome A * Worker.

Definition with_stopChanClosed (b : bool) (w : World) : World :=
  mkWorld (store w) (activeChecks w) (cancelled w) (nextCancel w)
          (cycleRunning w) b (stats w) (trace w) (clock w).

(** [s.Status = status]. *)
Definition statsWithStatus (st : WorkerStatus) (s : WorkerStats) : WorkerStats :=
  {| StatsStatus := st;
     LastRunTime := LastRunTime s;
     NextRunTime := NextRunTime s;
     TotalRunsCompleted := TotalRunsCompleted s;
     TotalFilesChecked := TotalFilesChecked s;
     TotalFilesHealthy := TotalFilesHealthy s;
     TotalFilesCorrupted := TotalFilesCorrupted s;
     CurrentRunStartTime := CurrentRunStartTime s;
     CurrentRunFilesChecked := CurrentRunFilesChecked s;
     PendingManualChecks := PendingManualChecks s;
     StatsLastError := StatsLastError s;
     ErrorCount := ErrorCount s |}.

(** [s.Status = WorkerStatusStarting; s.LastError = nil]. *)
Definition statsStarting (s : WorkerStats) : WorkerStats :=
  {| StatsStatus := WorkerStatusStarting;
     LastRunTime := LastRunTime s;
     NextRunTime := NextRunTime s;
     TotalRunsCompleted := TotalRunsCompleted s;
     TotalFilesChecked := TotalFilesChecked s;
     TotalFilesHealthy := TotalFilesHealthy s;
     TotalFilesCorrupted := TotalFilesCorrupted s;
     CurrentRunStartTime := CurrentRunStartTime s;
     CurrentRunFilesChecked := CurrentRunFilesChecked s;
     PendingManualChecks := PendingManualChecks s;
     StatsLastError := None;
     ErrorCount := ErrorCount s |}.

(** [s.Status = WorkerStatusStopped; s.CurrentRunStartTime = nil;
    s.CurrentRunFilesChecked = 0]. *)
Definition statsStopped (s : WorkerStats) : WorkerStats :=
  {| StatsStatus := WorkerStatusStopped;
     LastRunTime := LastRunTime s;
     NextRunTime := NextRunTime s;
     TotalRunsCompleted := TotalRunsCompleted s;
     TotalFilesChecked := TotalFilesChecked s;
     TotalFilesHealthy := TotalFilesHealthy s;
     TotalFilesCorrupted := TotalFilesCorrupted s;
     CurrentRunStartTime := None;
     CurrentRunFilesChecked := 0;
     PendingManualChecks := PendingManualChecks s;
     StatsLastError := StatsLastError s;
     ErrorCount := ErrorCount s |}.

(** [NewHealthWorker]: stopped, an open stop channel, an empty registry,
    zeroed statistics; the table and the clock are those of the process. *)
Definition NewHealthWorker (t : Table) (now : Time) : Worker :=
  {| world := mkWorld t ∅ ∅ 0%nat false false
                (mkWorkerStats WorkerStatusStopped None None 0 0 0 0 None 0 0 None 0)
                [] now;
     running := false;
     status := WorkerStatusStopped |}.

(** Modelled from the spec: [reset_all_checking] of §4.1 on one row,
    Checking to Pending; the Go source of the repository is not among the
    sources. *)
Definition resetChecking (fh : FileHealth) : FileHealth :=
  match Status fh with
  | HealthStatusChecking => Store.set_status HealthStatusPending fh
  | _ => fh
  end.

(** Modelled from the spec: [hw.healthRepo.ResetFileAllChecking] (§4.1,
    [reset_all_checking]); [fault] is the failure of the persistence layer
    under this call, if any. *)
Definition ResetFileAllChecking (fault : error) : M error :=
  λ w, match fault with
       | Some e => (Done (Some e), w)
       | None => (Done None, with_store (fmap resetChecking) w)
       end.

(** [hw.Start(ctx)].  The goroutine it starts is [run]; a failure of the
    reset is logged and does not fail the start. *)
Definition Start (resetFault : error) : L error :=
  λ hw,
    if running hw then (Done (Some "health worker already running"), hw)
    else
      let w1 := with_stats statsStarting (world hw) in
      let w2 := after (ResetFileAllChecking resetFault) w1 in
      let w3 := with_stats (statsWithStatus WorkerStatusRunning) w2 in
      (Done None, mkWorker w3 true WorkerStatusRunning).

(** How a call ends that waits for another goroutine: it completes, by a
    return or a panic, or it waits for ever. *)
Inductive Completion (A : Type) : Type :=
| Completed (o : Outcome A)
| Blocked.

Arguments Completed {A} o.
Arguments Blocked {A}.

(** [hw.Stop(ctx)], which holds [hw.mu] from its first line to its return.
    Closing a channel that is closed already panics, with [hw.status]
    already Stopping and [hw.running] still set.  After the close and
    [hw.running = false] comes [hw.wg.Wait()], the wait for the loop of
    [hw.run].  The loop returns when it sees the closed channel at its
    select.  A loop inside its ticker case needs [hw.mu] to go on, to read
    the cycle flag and to set and clear it, and never gets it: that is so
    when a cycle is in flight ([cycleRunning]) and when the loop takes a
    tick before it sees the closed channel ([loopBusy]).  Then the call
    waits for ever, with the fields as they are at the wait, and so does
    every later call that takes [hw.mu]. *)
Definition Stop (loopBusy : bool) (hw : Worker) : Completion error * Worker :=
  if negb (running hw)
  then (Completed (Done (Some "health worker not running")), hw)
  else
    let w1 := with_stats (statsWithStatus WorkerStatusStopping) (world hw) in
    if stopChanClosed w1
    then (Completed Panicked, mkWorker w1 true WorkerStatusStopping)
    else
      let w2 := with_stopChanClosed true w1 in
      if loopBusy || cycleRunning w2
      then (Blocked, mkWorker w2 false WorkerStatusStopping)
      else
        let w3 := with_stats statsStopped w2 in
        (Completed (Done None), mkWorker w3 false WorkerStatusStopped).

(** [hw.IsRunning()]. *)
Definition IsRunning (hw : Worker) : bool := running hw.

(** [hw.GetStatus()]. *)
Definition GetStatus (hw : Worker) : WorkerStatus := status hw.

(** [hw.GetStats()]: a copy of the statistics with the manual queue at 0. *)
Definition GetStats (w : World) : WorkerStats :=
  let s := stats w in
  {| StatsStatus := StatsStatus s;
     LastRunTime := LastRunTime s;
     NextRunTime := NextRunTime s;
     TotalRunsCompleted := TotalRunsCompleted s;
     TotalFilesChecked := TotalFilesChecked s;
     TotalFilesHealthy := TotalFilesHealthy s;
     TotalFilesCorrupted := TotalFilesCorrupted s;
     CurrentRunStartTime := CurrentRunStartTime s;
     CurrentRunFilesChecked := CurrentRunFilesChecked s;
     PendingManualChecks := 0;
     StatsLastError := StatsLastError s;
     ErrorCount := ErrorCount s |}.

(** [hw.AddToHealthCheck(ctx, filePath, sourceNzb)]. *)
Definition AddToHealthCheck (env : Env) (filePath : string)
    (sourceNzb : option string) : M error :=
  let* r := GetFileHealth env filePath in
  match r with
  | (_, Some e) => ret (Some (wrapErr "failed to check existing health record" e))
  | (None, None) =>
      let* err :=
        UpdateFileHealth env filePath HealthStatusPending None sourceNzb None false in
      match err with
      | Some e => ret (Some (wrapErr "failed to add file to health database" e))
      | None => ret None
      end
  | (Some existingHealth, None) =>
      if decide (Status existingHealth = HealthStatusPending) then ret None
      else
        let* err :=
          UpdateFileHealth env filePath HealthStatusPending None sourceNzb None false in
        match err with
        | Some e => ret (Some (wrapErr "failed to update file status to pending" e))
        | None => ret None
        end
  end.

(** The goroutine of [hw.PerformBackgroundCheck]: the check under a context
    of its own, and the reset to Pending when the check fails.  The
    deadline of [context.WithTimeout] is not part of the model: these are
    the runs in which the check ends within its ten minutes, and a context
    ends by a call of a cancel function only. *)
Definition backgroundCheck (env : Env) (filePath : string) : M unit :=
  let* cancel := gets nextCancel in
  modify (with_nextCancel (S cancel)) ;;
  deferring (callCancel cancel)
    (let* checkErr := performDirectCheck env [cancel] filePath in
     match checkErr with
     | None => ret tt
     | Some errorMsg =>
         let* r := GetFileHealth env filePath in
         let sourceNzb :=
           match r with
           | (Some fileHealth, None) => SourceNzbPath fileHealth
           | _ => None
           end in
         let* _ :=
           UpdateFileHealth env filePath HealthStatusPending (Some errorMsg)
             sourceNzb None false in
         ret tt
     end).

(** [hw.PerformBackgroundCheck(ctx, filePath)]: refused when the worker is
    not running; otherwise the goroutine is started and [nil] returned.  The
    goroutine is run at once, which is one of the schedules the Go runtime
    may choose. *)
Definition PerformBackgroundCheck (env : Env) (filePath : string) : L error :=
  λ hw,
    if negb (IsRunning hw) then (Done (Some "health worker is not running"), hw)
    else
      match backgroundCheck env filePath (world hw) with
      | (Done _, w') => (Done None, mkWorker w' (running hw) (status hw))
      | (Panicked, w') => (Panicked, mkWorker w' (running hw) (status hw))
      end.

Definition isNotify (c : Call) : bool :=
  match c with CallNotifyRcloneVFS _ _ => true | _ => false end.

(** A computation adds at most [n] calls of a kind to the trace. *)
Definition emitsAtMost {A} (kind : Call → bool) (n : nat) (m : M A) : Prop :=
  ∀ w, ∃ l, trace (after m w) = trace w ++ l ∧ (count kind l ≤ n)%nat.

(** A worker that is running over a world. *)
Definition runningOver (w : World) : Worker := mkWorker w true WorkerStatusRunning.

(** A computation leaves a part of the world as it was. *)
Definition keeps {A B} (part : World → B) (m : M A) : Prop :=
  ∀ w, part (after m w) = part w.

(** [n] cycles in a row, the clock standing still between them. *)
Fixpoint cycles (n : nat) (env : Env) (ctx : Context) : M unit :=
  match n with
  | O => ret tt
  | S n' => runHealthCheckCycle env ctx ;; cycles n' env ctx
  end.



(** The rescanner is asked for the record's library path and accepts. *)
Definition rescanAccepts (env : Env) (fh : FileHealth) : Prop :=
  ∃ lib, LibraryPath fh = Some lib ∧ lib ≠ "" ∧ rescanErr env lib = None.

(** A record waiting for its repair: RepairTriggered, due since time 0,
    with a library path and repair retries left. *)
Definition awaitingRepair : FileHealth :=
  mkFileHealth "/m/x.mkv" HealthStatusRepairTriggered None (Some "/lib/x.mkv") None
    3 3 0 2 (Some "segments missing") None (Some 0) 0.

(** A computation leaves no check registered that was not registered
    before. *)
Definition registersNothing {A} (m : M A) : Prop :=
  ∀ w q c, activeChecks (after m w) !! q = Some c → activeChecks w !! q = Some c.

(** ** Basic facts *)

Lemma wrap64_id z : int64_range z → wrap64 z = z.
Proof.
  unfold int64_range, wrap64. intros H.
  rewrite Z.mod_small by lia. lia.
Qed.

Lemma frame_refl w : frame w w.
Proof. split; [exists []; by rewrite app_nil_r | done | done]. Qed.

Lemma frame_trans w1 w2 w3 : frame w1 w2 → frame w2 w3 → frame w1 w3.
Proof.
  intros [[l1 H1] S1 R1] [[l2 H2] S2 R2]. split.
  - exists (l1 ++ l2). by rewrite H2, H1, app_assoc.
  - auto.
  - congruence.
Qed.

Section Framed.
Context {A B : Type}.

Lemma framed_ret (a : A) : framed (ret a).
Proof. intros w. apply frame_refl. Qed.

Lemma framed_panic : framed (@panic A).
Proof. intros w. apply frame_refl. Qed.

Lemma framed_gets (f : World → A) : framed (gets f).
Proof. intros w. apply frame_refl. Qed.

Lemma framed_bind (m : M A) (k : A → M B) :
  framed m → (∀ a, framed (k a)) → framed (bind m k).
Proof.
  intros Hm Hk w. specialize (Hm w). unfold after, bind in *.
  destruct (m w) as [[a|] w1]; simpl in *; [|done].
  eapply frame_trans; [exact Hm | apply Hk].
Qed.

Lemma framed_deferring (d : World → World) (body : M A) :
  (∀ w, frame w (d w)) → framed body → framed (deferring d body).
Proof.
  intros Hd Hb w. specialize (Hb w). unfold after, deferring in *.
  destruct (body w) as [r w1]; simpl in *.
  eapply frame_trans; [exact Hb | apply Hd].
Qed.
End Framed.

Lemma framed_modify (f : World → World) :
  (∀ w, frame w (f w)) → framed (modify f).
Proof. intros H w. apply H. Qed.

Lemma frame_record c w : frame w (record c w).
Proof. split; [by exists [c] | done | done]. Qed.

Lemma frame_with_activeChecks f w : frame w (with_activeChecks f w).
Proof. split; [exists []; by rewrite app_nil_r | done | done]. Qed.

Lemma frame_with_cancelled f w : frame w (with_cancelled f w).
Proof. split; [exists []; by rewrite app_nil_r | done | done]. Qed.

Lemma frame_with_nextCancel n w : frame w (with_nextCancel n w).
Proof. split; [exists []; by rewrite app_nil_r | done | done]. Qed.

Lemma frame_with_cycleRunning b w : frame w (with_cycleRunning b w).
Proof. split; [exists []; by rewrite app_nil_r | done | done]. Qed.

Lemma frame_with_clock t w : frame w (with_clock t w).
Proof. split; [exists []; by rewrite app_nil_r | done | done]. Qed.

Lemma frame_with_store f w :
  (∀ p, is_Some (store w !! p) → is_Some (f (store w) !! p)) →
  frame w (with_store f w).
Proof. intros H. split; [exists []; by rewrite app_nil_r | exact H | done]. Qed.

Lemma frame_with_stats f w :
  TotalRunsCompleted (f (stats w)) = TotalRunsCompleted (stats w) →
  frame w (with_stats f w).
Proof. intros H. split; [exists []; by rewrite app_nil_r | done | exact H]. Qed.

Lemma is_Some_alter (f : FileHealth → FileHealth) (k p : string) (t : Table) :
  is_Some (t !! p) → is_Some (alter f k t !! p).
Proof.
  intros [x Hx]. destruct (decide (k = p)) as [->|Hne].
  - rewrite lookup_alter_eq, Hx. by eexists.
  - rewrite lookup_alter_ne by done. by eexists.
Qed.

Lemma is_Some_insert (x : FileHealth) (k p : string) (t : Table) :
  is_Some (t !! p) → is_Some (<[k := x]> t !! p).
Proof.
  intros [y Hy]. destruct (decide (k = p)) as [->|Hne].
  - rewrite lookup_insert_eq. by eexists.
  - rewrite lookup_insert_ne by done. by eexists.
Qed.

Lemma framed_write env c (f : World → Table → Table) :
  (∀ w t p, is_Some (t !! p) → is_Some (f w t !! p)) →
  framed (write env c f).
Proof.
  intros H w. unfold after, write.
  destruct (storeFault env c); simpl; [apply frame_refl|].
  apply frame_with_store. apply H.
Qed.

(** ** Every method keeps the frame *)

Create HintDb framed discriminated.

#[local] Hint Resolve frame_refl frame_record frame_with_activeChecks
  frame_with_cancelled frame_with_nextCancel frame_with_cycleRunning
  frame_with_clock is_Some_alter is_Some_insert : framed.

(** Walks down a computation built from [bind], [ret], [gets], [modify],
    [deferring] and case distinctions. *)
Ltac framed_step :=
  lazymatch goal with
  | |- framed (bind _ _) => apply framed_bind; [| intros ?]
  | |- framed (ret _) => apply framed_ret
  | |- framed panic => apply framed_panic
  | |- framed (gets _) => apply framed_gets
  | |- framed (deferring _ _) => apply framed_deferring; [intros ? |]
  | |- framed (modify _) => apply framed_modify; intros ?
  | |- framed (write _ _ _) => apply framed_write; intros ? ? ?
  | |- framed (match ?x with _ => _ end) => destruct x
  | |- framed (let _ := _ in _) => cbv zeta
  | |- frame _ (callCancel _ _) => apply frame_with_cancelled
  | |- frame _ _ => solve [eauto with framed]
  | |- is_Some _ → is_Some _ => solve [eauto with framed]
  end.

Ltac framed := repeat framed_step.

Lemma framed_GetFileHealth env p : framed (GetFileHealth env p).
Proof.
  intros w. unfold after, GetFileHealth.
  destruct (storeFault env _); apply frame_refl.
Qed.

Lemma framed_UpdateFileHealth env p s e n t r :
  framed (UpdateFileHealth env p s e n t r).
Proof.
  unfold UpdateFileHealth. framed. destruct (_ !! p); eauto with framed.
Qed.

Lemma framed_SetFileChecking env p : framed (SetFileChecking env p).
Proof.
  intros w. unfold after, SetFileChecking.
  destruct (storeFault env _); simpl; [apply frame_refl|].
  destruct (store w !! p) as [fh|]; simpl; [|apply frame_refl].
  destruct (Status fh); simpl; try apply frame_refl;
    apply frame_with_store; eauto with framed.
Qed.

Lemma framed_MarkAsHealthy env p t : framed (MarkAsHealthy env p t).
Proof. unfold MarkAsHealthy. framed. Qed.

Lemma framed_IncrementRetryCount env p e : framed (IncrementRetryCount env p e).
Proof. unfold IncrementRetryCount. framed. Qed.

Lemma framed_IncrementRepairRetryCount env p e :
  framed (IncrementRepairRetryCount env p e).
Proof. unfold IncrementRepairRetryCount. framed. Qed.

Lemma framed_SetCorrupted env p e : framed (SetCorrupted env p e).
Proof. unfold SetCorrupted. framed. Qed.

Lemma framed_MarkAsCorrupted env p e : framed (MarkAsCorrupted env p e).
Proof. unfold MarkAsCorrupted. framed. Qed.

#[local] Hint Resolve framed_GetFileHealth framed_UpdateFileHealth
  framed_SetFileChecking framed_MarkAsHealthy framed_IncrementRetryCount
  framed_IncrementRepairRetryCount framed_SetCorrupted framed_MarkAsCorrupted
  : framed.

Ltac framed_calls := repeat (first [framed_step | solve [eauto with framed]]).

Lemma framed_CancelHealthCheck env p : framed (CancelHealthCheck env p).
Proof. unfold CancelHealthCheck. framed_calls. Qed.

Lemma framed_operate env a : framed (operate env a).
Proof.
  destruct a; unfold operate; framed_calls.
  apply framed_CancelHealthCheck.
Qed.

Lemma framed_operateAll env l : framed (operateAll env l).
Proof.
  induction l as [|a l IH]; simpl; framed_calls. apply framed_operate.
Qed.

Lemma framed_CheckFile env p : framed (CheckFile env p).
Proof. unfold CheckFile. framed_calls. apply framed_operateAll. Qed.

Lemma framed_triggerFileRepair env p e : framed (triggerFileRepair env p e).
Proof. unfold triggerFileRepair. framed_calls. Qed.

#[local] Hint Resolve framed_CancelHealthCheck framed_operateAll
  framed_CheckFile framed_triggerFileRepair : framed.

Lemma framed_handleHealthCheckResult env event :
  framed (handleHealthCheckResult env event).
Proof. unfold handleHealthCheckResult. framed_calls. Qed.

#[local] Hint Resolve framed_handleHealthCheckResult : framed.

Lemma frame_fileChecked t w : frame w (with_stats (Stats.fileChecked t) w).
Proof. by apply frame_with_stats. Qed.

Lemma frame_fileProcessed w : frame w (with_stats Stats.fileProcessed w).
Proof. by apply frame_with_stats. Qed.

Lemma frame_cycleStarted t w : frame w (with_stats (Stats.cycleStarted t) w).
Proof. by apply frame_with_stats. Qed.

#[local] Hint Resolve frame_fileChecked frame_fileProcessed frame_cycleStarted
  : framed.

Lemma framed_performDirectCheck env ctx p : framed (performDirectCheck env ctx p).
Proof. unfold performDirectCheck, updateStats. framed_calls. Qed.

Lemma framed_processRepairNotification env ctx fh :
  framed (processRepairNotification env ctx fh).
Proof. unfold processRepairNotification. framed_calls. Qed.

#[local] Hint Resolve framed_performDirectCheck framed_processRepairNotification
  : framed.




(** ** What the result handler does with a failed check *)

(** The handler on a failed check of a record in the health-check phase:
    the retry counter is incremented first, then the threshold decides. *)
Lemma handle_failure_check_phase env event w fh :
  failing event →
  store w !! EventFilePath event = Some fh →
  Status fh ≠ HealthStatusRepairTriggered →
  storeFault env (StoreGetFileHealth (EventFilePath event)) = None →
  storeFault env (StoreIncrementRetryCount (EventFilePath event)) = None →
  handleHealthCheckResult env event w =
    let w1 := with_store
                (alter (Store.increment_retry (cfg env) (clock w) (Error event))
                       (EventFilePath event)) w in
    if wrap64 (MaxRetries fh - 1) <=? RetryCount fh then
      (let* err := triggerFileRepair env (EventFilePath event) (Error event) in
       match err with
       | Some e => ret (Some (wrapErr "failed to trigger repair" e))
       | None => ret None
       end) w1
    else (Done None, w1).
Proof.
  intros Hf Hrec Hst Hget Hinc.
  unfold handleHealthCheckResult. cbv zeta.
  destruct Hf as [Ht | Ht]; rewrite Ht;
    unfold bind at 1; unfold GetFileHealth; rewrite Hget, Hrec;
    (destruct (Status fh) eqn:Hs; try congruence);
    unfold bind at 1; unfold IncrementRetryCount, write; rewrite Hinc;
    destruct (wrap64 (MaxRetries fh - 1) <=? RetryCount fh); reflexivity.
Qed.

(** The handler on a failed check of a record in the repair phase. *)
Lemma handle_failure_repair_phase env event w fh :
  failing event →
  store w !! EventFilePath event = Some fh →
  Status fh = HealthStatusRepairTriggered →
  storeFault env (StoreGetFileHealth (EventFilePath event)) = None →
  storeFault env (StoreIncrementRepairRetryCount (EventFilePath event)) = None →
  handleHealthCheckResult env event w =
    let w1 := with_store
                (alter (Store.increment_repair_retry (cfg env) (clock w) (Error event))
                       (EventFilePath event)) w in
    if wrap64 (MaxRepairRetries fh - 1) <=? RepairRetryCount fh then
      (let* err := MarkAsCorrupted env (EventFilePath event) (Error event) in
       match err with
       | Some e => ret (Some (wrapErr "failed to mark file as corrupted" e))
       | None => ret None
       end) w1
    else (Done None, w1).
Proof.
  intros Hf Hrec Hst Hget Hinc.
  unfold handleHealthCheckResult. cbv zeta.
  destruct Hf as [Ht | Ht]; rewrite Ht;
    unfold bind at 1; unfold GetFileHealth; rewrite Hget, Hrec, Hst;
    unfold bind at 1; unfold IncrementRepairRetryCount, write; rewrite Hinc;
    destruct (wrap64 (MaxRepairRetries fh - 1) <=? RepairRetryCount fh); reflexivity.
Qed.

(** [triggerFileRepair] for a tracked file. *)
Lemma triggerFileRepair_tracked env p e w fh :
  store w !! p = Some fh →
  storeFault env (StoreGetFileHealth p) = None →
  triggerFileRepair env p e w =
    let w1 := record (CallTriggerRepair p) w in
    match LibraryPath fh with
    | None => (Done (Some (errNoLibraryPath p)), w1)
    | Some lib =>
        if decide (lib = "") then (Done (Some (errNoLibraryPath p)), w1)
        else
          match rescanErr env lib with
          | Some err =>
              SetCorrupted env p (Some err) (record (CallTriggerFileRescan lib) w1)
          | None => (Done None, record (CallTriggerFileRescan lib) w1)
          end
    end.
Proof.
  intros Hrec Hget. unfold triggerFileRepair, bind, modify, GetFileHealth.
  simpl. rewrite Hget, Hrec.
  destruct (LibraryPath fh) as [lib|]; [|reflexivity].
  destruct (decide (lib = "")); [reflexivity|].
  destruct (rescanErr env lib); reflexivity.
Qed.

(** Whatever happens, [triggerFileRepair] announces itself once. *)
Lemma triggerFileRepair_trace env p e w :
  ∃ l, trace (after (triggerFileRepair env p e) w)
       = trace w ++ CallTriggerRepair p :: l
       ∧ count isTriggerRepair l = 0%nat.
Proof.
  unfold after, triggerFileRepair, bind, modify, GetFileHealth. simpl.
  destruct (storeFault env (StoreGetFileHealth p)); simpl; [by exists []|].
  destruct (store w !! p) as [fh|]; simpl; [|by exists []].
  destruct (LibraryPath fh) as [lib|]; simpl; [|by exists []].
  destruct (decide (lib = "")); simpl; [by exists []|].
  exists [CallTriggerFileRescan lib].
  destruct (rescanErr env lib); simpl.
  - unfold SetCorrupted, write. destruct (storeFault env _); simpl;
      by rewrite <- app_assoc.
  - by rewrite <- app_assoc.
Qed.

Lemma emitted_spec {A} (m : M A) w l :
  trace (after m w) = trace w ++ l → emitted m w = l.
Proof. intros H. unfold emitted. rewrite H. by rewrite drop_app_length. Qed.

(** [triggerFileRepair] returns when the file is tracked. *)
Lemma triggerFileRepair_returns env p e w :
  is_Some (store w !! p) → ∃ r, result (triggerFileRepair env p e) w = Done r.
Proof.
  intros [fh Hrec].
  unfold result, triggerFileRepair, bind, modify, GetFileHealth. simpl.
  destruct (storeFault env (StoreGetFileHealth p)); simpl; [by eexists|].
  rewrite Hrec.
  destruct (LibraryPath fh) as [lib|]; simpl; [|by eexists].
  destruct (decide (lib = "")); simpl; [by eexists|].
  destruct (rescanErr env lib); simpl; [|by eexists].
  unfold SetCorrupted, write. destruct (storeFault env _); by eexists.
Qed.

(** One failed check in the health-check phase: the counter goes up by one,
    the status is Corrupted, and repair is triggered exactly at the
    threshold. *)
Lemma failure_step env event w fh :
  failing event →
  store w !! EventFilePath event = Some fh →
  Status fh ≠ HealthStatusRepairTriggered →
  storeFault env (StoreGetFileHealth (EventFilePath event)) = None →
  storeFault env (StoreIncrementRetryCount (EventFilePath event)) = None →
  ∃ r l,
    result (handleHealthCheckResult env event) w = Done r
    ∧ trace (after (handleHealthCheckResult env event) w) = trace w ++ l
    ∧ count isTriggerRepair l
      = (if wrap64 (MaxRetries fh - 1) <=? RetryCount fh then 1%nat else 0%nat)
    ∧ ((wrap64 (MaxRetries fh - 1) <=? RetryCount fh) = false →
       l = [] ∧
       store (after (handleHealthCheckResult env event) w) !! EventFilePath event
       = Some (Store.increment_retry (cfg env) (clock w) (Error event) fh)).
Proof.
  intros Hf Hrec Hst Hget Hinc.
  unfold after, result.
  rewrite (handle_failure_check_phase env event w fh) by done.
  cbv zeta.
  destruct (wrap64 (MaxRetries fh - 1) <=? RetryCount fh) eqn:Hth.
  - set (w1 := with_store _ w).
    assert (Hrec1 : is_Some (store w1 !! EventFilePath event)).
    { subst w1. simpl. rewrite lookup_alter_eq, Hrec. by eexists. }
    destruct (triggerFileRepair_trace env (EventFilePath event) (Error event) w1)
      as (l & Hl & Hc).
    destruct (triggerFileRepair_returns env (EventFilePath event) (Error event) w1 Hrec1)
      as [r Hr].
    unfold after, result, bind in *.
    destruct (triggerFileRepair env (EventFilePath event) (Error event) w1)
      as [o w2]; simpl in *; subst o.
    exists (match r with
            | Some e => Some (wrapErr "failed to trigger repair" e)
            | None => None
            end), (CallTriggerRepair (EventFilePath event) :: l).
    destruct r; simpl; (split; [done|]; split; [exact Hl|]; split; [|done]);
      change (count isTriggerRepair (CallTriggerRepair (EventFilePath event) :: l))
        with (S (count isTriggerRepair l)); by rewrite Hc.
  - exists None, []. simpl. rewrite app_nil_r.
    repeat split; try done. by rewrite lookup_alter_eq, Hrec.
Qed.

Lemma threshold_plain (maxRetries retryCount : Z) :
  - 2 ^ 63 < maxRetries < 2 ^ 63 →
  (wrap64 (maxRetries - 1) <=? retryCount) = bool_decide (maxRetries - 1 ≤ retryCount).
Proof.
  intros H. rewrite wrap64_id by (unfold int64_range; lia).
  destruct (Z.leb_spec (maxRetries - 1) retryCount).
  - by rewrite bool_decide_eq_true_2.
  - rewrite bool_decide_eq_false_2; [done | lia].
Qed.

(** Failures below the threshold only count. *)
Lemma failures_below env event n : ∀ w fh,
  failing event →
  store w !! EventFilePath event = Some fh →
  Status fh ≠ HealthStatusRepairTriggered →
  - 2 ^ 63 < MaxRetries fh < 2 ^ 63 →
  storeFault env (StoreGetFileHealth (EventFilePath event)) = None →
  storeFault env (StoreIncrementRetryCount (EventFilePath event)) = None →
  RetryCount fh + Z.of_nat n < MaxRetries fh →
  result (failures n env event) w = Done tt
  ∧ trace (after (failures n env event) w) = trace w
  ∧ ∃ fh', store (after (failures n env event) w) !! EventFilePath event = Some fh'
           ∧ RetryCount fh' = RetryCount fh + Z.of_nat n
           ∧ MaxRetries fh' = MaxRetries fh
           ∧ Status fh' ≠ HealthStatusRepairTriggered.
Proof.
  induction n as [|n IH]; intros w fh Hf Hrec Hst Hmax Hget Hinc Hlt.
  - simpl. repeat split; try done. exists fh. repeat split; try done. lia.
  - destruct (failure_step env event w fh Hf Hrec Hst Hget Hinc)
      as (r & l & Hr & Htr & _ & Hbelow).
    rewrite threshold_plain in Hbelow by done.
    rewrite bool_decide_eq_false_2 in Hbelow by lia.
    destruct (Hbelow eq_refl) as [-> Hrec1]. rewrite app_nil_r in Htr.
    unfold result, after in *. simpl. unfold bind.
    destruct (handleHealthCheckResult env event w) as [o w1]; simpl in *; subst o.
    destruct (IH w1 _ Hf Hrec1) as (Hres & Htr1 & fh' & Hrec' & Hc & Hm & Hs);
      try done; simpl; try lia.
    split; [done|]. split; [congruence|].
    exists fh'. simpl in *. repeat split; try done. lia.
Qed.

(** The failure that finds the counter at the threshold triggers repair. *)
Lemma failures_one_escalates env event w fh :
  failing event →
  store w !! EventFilePath event = Some fh →
  Status fh ≠ HealthStatusRepairTriggered →
  - 2 ^ 63 < MaxRetries fh < 2 ^ 63 →
  storeFault env (StoreGetFileHealth (EventFilePath event)) = None →
  storeFault env (StoreIncrementRetryCount (EventFilePath event)) = None →
  MaxRetries fh - 1 ≤ RetryCount fh →
  ∃ l, trace (after (failures 1 env event) w) = trace w ++ l
       ∧ count isTriggerRepair l = 1%nat.
Proof.
  intros Hf Hrec Hst Hmax Hget Hinc Hge.
  destruct (failure_step env event w fh Hf Hrec Hst Hget Hinc)
    as (r & l & Hr & Htr & Hc & _).
  rewrite threshold_plain in Hc by done.
  rewrite bool_decide_eq_true_2 in Hc by lia.
  exists l. split; [|done].
  unfold result, after in *. simpl. unfold bind.
  by destruct (handleHealthCheckResult env event w) as [o w1]; simpl in *; subst o.
Qed.

Lemma failures_reach_threshold env event n : ∀ w fh,
  failing event →
  store w !! EventFilePath event = Some fh →
  Status fh ≠ HealthStatusRepairTriggered →
  - 2 ^ 63 < MaxRetries fh < 2 ^ 63 →
  storeFault env (StoreGetFileHealth (EventFilePath event)) = None →
  storeFault env (StoreIncrementRetryCount (EventFilePath event)) = None →
  RetryCount fh + Z.of_nat n = MaxRetries fh - 1 →
  ∃ l, trace (after (failures (S n) env event) w) = trace w ++ l
       ∧ count isTriggerRepair l = 1%nat.
Proof.
  induction n as [|n IH]; intros w fh Hf Hrec Hst Hmax Hget Hinc Heq.
  - eapply failures_one_escalates; try done. lia.
  - destruct (failure_step env event w fh Hf Hrec Hst Hget Hinc)
      as (r & l & Hr & Htr & _ & Hbelow).
    rewrite threshold_plain in Hbelow by done.
    rewrite bool_decide_eq_false_2 in Hbelow by lia.
    destruct (Hbelow eq_refl) as [-> Hrec1]. rewrite app_nil_r in Htr.
    change (failures (S (S n)) env event)
      with (handleHealthCheckResult env event ;; failures (S n) env event).
    unfold result, after, bind in *.
    destruct (handleHealthCheckResult env event w) as [o w1]; simpl in Hr, Htr, Hrec1;
      subst o.
    destruct (IH w1 _ Hf Hrec1) as (l & Hl & Hc); try done; simpl; try lia.
    exists l. unfold after in Hl. by rewrite <- Htr.
Qed.

(** The failure that finds the counter at the threshold: the counter is
    incremented, then the repair procedure runs on the record as counted. *)
Lemma handle_at_threshold env event w fh :
  failing event →
  store w !! EventFilePath event = Some fh →
  Status fh ≠ HealthStatusRepairTriggered →
  - 2 ^ 63 < MaxRetries fh < 2 ^ 63 →
  storeFault env (StoreGetFileHealth (EventFilePath event)) = None →
  storeFault env (StoreIncrementRetryCount (EventFilePath event)) = None →
  MaxRetries fh - 1 ≤ RetryCount fh →
  handleHealthCheckResult env event w =
    let p := EventFilePath event in
    let w1 := record (CallTriggerRepair p)
                (with_store
                   (alter (Store.increment_retry (cfg env) (clock w) (Error event)) p)
                   w) in
    let refused := Done (Some (wrapErr "failed to trigger repair" (errNoLibraryPath p))) in
    match LibraryPath fh with
    | None => (refused, w1)
    | Some lib =>
        if decide (lib = "") then (refused, w1)
        else
          let w2 := record (CallTriggerFileRescan lib) w1 in
          match rescanErr env lib with
          | None => (Done None, w2)
          | Some err =>
              match storeFault env (StoreSetCorrupted p) with
              | Some e => (Done (Some (wrapErr "failed to trigger repair" e)), w2)
              | None =>
                  (Done None,
                   with_store
                     (alter (Store.mark_permanently_corrupted (Some err)) p) w2)
              end
          end
    end.
Proof.
  intros Hf Hrec Hst Hmax Hget Hinc Hge. cbv zeta.
  rewrite (handle_failure_check_phase env event w fh) by done. cbv zeta.
  rewrite threshold_plain, bool_decide_eq_true_2 by done.
  set (w1 := with_store _ w).
  assert (Hrec1 : store w1 !! EventFilePath event
                  = Some (Store.increment_retry (cfg env) (clock w) (Error event) fh)).
  { subst w1. simpl. by rewrite lookup_alter_eq, Hrec. }
  unfold bind.
  rewrite (triggerFileRepair_tracked env _ (Error event) w1 _ Hrec1 Hget). cbv zeta.
  simpl. destruct (LibraryPath fh) as [lib|]; [|done].
  destruct (decide (lib = "")); [done|].
  destruct (rescanErr env lib); [|done].
  unfold SetCorrupted, write. by destruct (storeFault env (StoreSetCorrupted _)).
Qed.

(** Failures below the threshold leave the library path as it was. *)
Lemma failures_below_library env event n : ∀ w fh,
  failing event →
  store w !! EventFilePath event = Some fh →
  Status fh ≠ HealthStatusRepairTriggered →
  - 2 ^ 63 < MaxRetries fh < 2 ^ 63 →
  storeFault env (StoreGetFileHealth (EventFilePath event)) = None →
  storeFault env (StoreIncrementRetryCount (EventFilePath event)) = None →
  RetryCount fh + Z.of_nat n < MaxRetries fh →
  ∃ w', failures n env event w = (Done tt, w')
        ∧ trace w' = trace w
        ∧ ∃ fh', store w' !! EventFilePath event = Some fh'
                 ∧ RetryCount fh' = RetryCount fh + Z.of_nat n
                 ∧ MaxRetries fh' = MaxRetries fh
                 ∧ Status fh' ≠ HealthStatusRepairTriggered
                 ∧ LibraryPath fh' = LibraryPath fh.
Proof.
  induction n as [|n IH]; intros w fh Hf Hrec Hst Hmax Hget Hinc Hlt.
  - exists w. split_and!; try done. exists fh. split_and!; try done. lia.
  - assert (E : handleHealthCheckResult env event w
                = (Done None,
                   with_store
                     (alter (Store.increment_retry (cfg env) (clock w) (Error event))
                            (EventFilePath event)) w)).
    { rewrite (handle_failure_check_phase env event w fh) by done. cbv zeta.
      by rewrite threshold_plain, bool_decide_eq_false_2 by (done || lia). }
    set (w1 := with_store _ w) in E.
    destruct (IH w1 (Store.increment_retry (cfg env) (clock w) (Error event) fh))
      as (w' & E' & Htr & fh' & Hrec' & Hc & Hm & Hs & Hl); try done.
    { subst w1. simpl. by rewrite lookup_alter_eq, Hrec. }
    { simpl. lia. }
    exists w'. simpl. unfold bind. rewrite E, E'. split_and!; try done.
    exists fh'. simpl in *. split_and!; try done. lia.
Qed.

(** One more failure after [n] that returned. *)
Lemma failures_last env event n : ∀ w w1,
  failures n env event w = (Done tt, w1) →
  after (failures (S n) env event) w = after (handleHealthCheckResult env event) w1.
Proof.
  induction n as [|n IH]; intros w w1 E.
  - simpl in E. injection E as <-. unfold after. simpl. unfold bind.
    by destruct (handleHealthCheckResult env event w) as [[r|] w2].
  - change (failures (S (S n)) env event)
      with (handleHealthCheckResult env event ;; failures (S n) env event).
    change (failures (S n) env event)
      with (handleHealthCheckResult env event ;; failures n env event) in E.
    unfold after at 1. unfold bind in E |- *.
    destruct (handleHealthCheckResult env event w) as [[r|] w2]; [|done].
    by apply IH.
Qed.

(** From a counter below the threshold, the failure that reaches it asks
    the rescanner, once, and the failures before it ask nobody. *)
Lemma failures_reach_rescan env event lib n w fh :
  failing event →
  store w !! EventFilePath event = Some fh →
  Status fh ≠ HealthStatusRepairTriggered →
  - 2 ^ 63 < MaxRetries fh < 2 ^ 63 →
  storeFault env (StoreGetFileHealth (EventFilePath event)) = None →
  storeFault env (StoreIncrementRetryCount (EventFilePath event)) = None →
  LibraryPath fh = Some lib →
  lib ≠ "" →
  rescanErr env lib = None →
  MaxRetries fh - 1 ≤ RetryCount fh + Z.of_nat n →
  ((0 < n)%nat → RetryCount fh + Z.of_nat n = MaxRetries fh - 1) →
  emitted (failures (S n) env event) w
  = [CallTriggerRepair (EventFilePath event); CallTriggerFileRescan lib].
Proof.
  intros Hf Hrec Hst Hmax Hget Hinc Hlib Hne Hok Hge Heq.
  assert (Hlt : RetryCount fh + Z.of_nat n < MaxRetries fh ∨ n = 0%nat).
  { destruct n; [by right|left]. specialize (Heq ltac:(lia)). lia. }
  assert (Hpre : ∃ w1 fh1, failures n env event w = (Done tt, w1)
                   ∧ trace w1 = trace w
                   ∧ store w1 !! EventFilePath event = Some fh1
                   ∧ MaxRetries fh1 - 1 ≤ RetryCount fh1
                   ∧ MaxRetries fh1 = MaxRetries fh
                   ∧ Status fh1 ≠ HealthStatusRepairTriggered
                   ∧ LibraryPath fh1 = Some lib).
  { destruct Hlt as [Hlt | ->].
    - destruct (failures_below_library env event n w fh)
        as (w1 & E & Htr & fh1 & Hrec1 & Hc & Hm & Hs & Hl); try done.
      exists w1, fh1. split_and!; try done; [lia | congruence].
    - exists w, fh. split_and!; try done. simpl in Hge. lia. }
  destruct Hpre as (w1 & fh1 & E1 & Htr & Hrec1 & Hge1 & Hm1 & Hs1 & Hl1).
  unfold emitted. rewrite (failures_last env event n w w1 E1). unfold after.
  rewrite (handle_at_threshold env event w1 fh1) by (try done; lia). cbv zeta.
  rewrite Hl1. destruct (decide (lib = "")); [done|]. rewrite Hok. simpl.
  by rewrite Htr, <- app_assoc, drop_app_length.
Qed.

(** C4. A failed check (Corrupted or CheckFailed) of a record in the
    health-check phase escalates to repair exactly when
    [retry_count >= max_retries - 1], compared as signed integers on the
    counter as it was before this failure is recorded.  Below the threshold
    the failure is counted and nothing else happens: no call is made.  At
    the threshold the failure is counted and the repair procedure runs on
    the record: without a library path it refuses and the handler returns
    that refusal; with one the rescanner is asked to rescan that path, once,
    and when it refuses the record becomes PermanentlyCorrupted with its
    error.  Starting from a counter of zero, the failures before the
    [max_retries]-th make no call and the [max_retries]-th is the one that
    asks the rescanner; with [max_retries <= 1] the first failure does.
    When the rescanner accepts, the record is left as counted. *)
Theorem escalation_at_threshold env event w fh :
  failing event →
  store w !! EventFilePath event = Some fh →
  Status fh ≠ HealthStatusRepairTriggered →
  - 2 ^ 63 < MaxRetries fh < 2 ^ 63 →
  storeFault env (StoreGetFileHealth (EventFilePath event)) = None →
  storeFault env (StoreIncrementRetryCount (EventFilePath event)) = None →
  let p := EventFilePath event in
  let m := handleHealthCheckResult env event in
  let counted := Store.increment_retry (cfg env) (clock w) (Error event) fh in
  (RetryCount fh < MaxRetries fh - 1 →
   result m w = Done None
   ∧ emitted m w = []
   ∧ store (after m w) !! p = Some counted)
  ∧ (RetryCount fh >= MaxRetries fh - 1 →
     (noLibraryPath fh →
      result m w = Done (Some (wrapErr "failed to trigger repair" (errNoLibraryPath p)))
      ∧ emitted m w = [CallTriggerRepair p]
      ∧ store (after m w) !! p = Some counted)
     ∧ (∀ lib, LibraryPath fh = Some lib → lib ≠ "" →
        emitted m w = [CallTriggerRepair p; CallTriggerFileRescan lib]
        ∧ (rescanErr env lib = None →
           result m w = Done None
           ∧ store (after m w) !! p = Some counted)
        ∧ (∀ err, rescanErr env lib = Some err →
             storeFault env (StoreSetCorrupted p) = None →
             result m w = Done None
             ∧ store (after m w) !! p
               = Some (Store.mark_permanently_corrupted (Some err) counted))))
  ∧ count isTriggerRepair (emitted m w)
    = (if bool_decide (RetryCount fh >= MaxRetries fh - 1) then 1%nat else 0%nat)
  ∧ (RetryCount fh = 0 →
     (∀ n, Z.of_nat n < MaxRetries fh → emitted (failures n env event) w = [])
     ∧ (1 ≤ MaxRetries fh →
        count isTriggerRepair
          (emitted (failures (Z.to_nat (MaxRetries fh)) env event) w) = 1%nat)
     ∧ (MaxRetries fh ≤ 1 →
        count isTriggerRepair (emitted (failures 1 env event) w) = 1%nat)
     ∧ (∀ lib, LibraryPath fh = Some lib → lib ≠ "" → rescanErr env lib = None →
        (1 ≤ MaxRetries fh →
         emitted (failures (Z.to_nat (MaxRetries fh)) env event) w
         = [CallTriggerRepair p; CallTriggerFileRescan lib])
        ∧ (MaxRetries fh ≤ 1 →
           emitted (failures 1 env event) w
           = [CallTriggerRepair p; CallTriggerFileRescan lib]))).
Proof.
  intros Hf Hrec Hst Hmax Hget Hinc. cbv zeta. split_and!.
  - intros Hlt. unfold emitted, result, after.
    rewrite (handle_failure_check_phase env event w fh) by done. cbv zeta.
    rewrite threshold_plain, bool_decide_eq_false_2 by (done || lia). simpl.
    rewrite drop_all, lookup_alter_eq, Hrec. done.
  - intros Hge. split.
    + intros Hlib. unfold emitted, result, after.
      rewrite (handle_at_threshold env event w fh) by (try done; lia). cbv zeta.
      destruct Hlib as [-> | ->]; [|destruct (decide ("" = "")); [|done]];
        simpl; by rewrite drop_app_length, lookup_alter_eq, Hrec.
    + intros lib Hlib Hne. unfold emitted, result, after.
      rewrite (handle_at_threshold env event w fh) by (try done; lia). cbv zeta.
      rewrite Hlib. destruct (decide (lib = "")); [done|].
      split_and!.
      * destruct (rescanErr env lib);
          [destruct (storeFault env (StoreSetCorrupted _))|]; simpl;
          by rewrite <- app_assoc, drop_app_length.
      * intros ->. simpl. by rewrite lookup_alter_eq, Hrec.
      * intros err -> ->. simpl. by rewrite !lookup_alter_eq, Hrec.
  - destruct (failure_step env event w fh Hf Hrec Hst Hget Hinc)
      as (r & l & _ & Htr & Hc & _).
    rewrite (emitted_spec _ _ _ Htr), Hc, threshold_plain by done.
    destruct (decide (MaxRetries fh - 1 ≤ RetryCount fh)).
    + rewrite !bool_decide_eq_true_2; [done | lia | done].
    + rewrite !bool_decide_eq_false_2; [done | lia | done].
  - intros Hzero. split_and!.
    + intros n Hn.
      destruct (failures_below env event n w fh) as (_ & Htr & _); try done; [lia|].
      rewrite (emitted_spec _ _ [] ); [done | by rewrite app_nil_r].
    + intros Hpos.
      destruct (failures_reach_threshold env event (Z.to_nat (MaxRetries fh) - 1) w fh)
        as (l & Hl & Hc); try done; [lia|].
      replace (S (Z.to_nat (MaxRetries fh) - 1)) with (Z.to_nat (MaxRetries fh))
        in Hl by lia.
      by rewrite (emitted_spec _ _ _ Hl).
    + intros Hle.
      destruct (failures_one_escalates env event w fh) as (l & Hl & Hc);
        try done; [lia|].
      by rewrite (emitted_spec _ _ _ Hl).
    + intros lib Hlib Hne Hok. split.
      * intros Hpos.
        replace (Z.to_nat (MaxRetries fh)) with (S (Z.to_nat (MaxRetries fh) - 1)) by lia.
        apply (failures_reach_rescan env event lib _ w fh); try done; lia.
      * intros Hle.
        apply (failures_reach_rescan env event lib 0 w fh); try done; lia.
Qed.

(** With [max_retries = 3] the first two failures make no call and the
    third is the one that asks the rescanner for the library path. *)
Lemma escalation_at_threshold_witness :
  emitted (failures 2 (steadyEnv EventTypeFileCorrupted None 0)
             (eventOf EventTypeFileCorrupted))
    (tracking (pendingRecord 3 (Some "/lib/x"))) = []
  ∧ emitted (failures 3 (steadyEnv EventTypeFileCorrupted None 0)
               (eventOf EventTypeFileCorrupted))
      (tracking (pendingRecord 3 (Some "/lib/x")))
    = [CallTriggerRepair "/m/x.mkv"; CallTriggerFileRescan "/lib/x"].
Proof.
  destruct (escalation_at_threshold
              (steadyEnv EventTypeFileCorrupted None 0) (eventOf EventTypeFileCorrupted)
              (tracking (pendingRecord 3 (Some "/lib/x")))
              (pendingRecord 3 (Some "/lib/x")))
    as (_ & _ & _ & H);
    [left; reflexivity | reflexivity | discriminate | simpl; lia
    | reflexivity | reflexivity |].
  destruct (H eq_refl) as (Hbelow & _ & _ & Hlib).
  split.
  - apply (Hbelow 2%nat). simpl. lia.
  - apply (Hlib "/lib/x"); [reflexivity | discriminate | reflexivity | simpl; lia].
Defined.

(** C10. A failed check (Corrupted or CheckFailed) of a file path that has no
    record in the store changes nothing (no counter, no status, no call to a
    collaborator) and returns an error; when the lookup itself succeeded the
    error says that the health record was not found. *)
Theorem failure_of_untracked_file_writes_nothing env event w :
  failing event →
  store w !! EventFilePath event = None →
  after (handleHealthCheckResult env event) w = w
  ∧ (∃ e, result (handleHealthCheckResult env event) w = Done (Some e))
  ∧ (storeFault env (StoreGetFileHealth (EventFilePath event)) = None →
     result (handleHealthCheckResult env event) w
     = Done (Some ("file health record not found for file: " +:+ EventFilePath event))).
Proof.
  intros Hf Hrec.
  unfold after, result, handleHealthCheckResult. cbv zeta.
  destruct Hf as [Ht | Ht]; rewrite Ht;
    unfold bind, GetFileHealth;
    destruct (storeFault env (StoreGetFileHealth (EventFilePath event))); simpl;
    rewrite ?Hrec; simpl; (split; [done|]; split; [by eexists | done]).
Qed.

(** A failed check of a path the empty store does not know. *)
Lemma failure_of_untracked_file_witness :
  after (handleHealthCheckResult
           (steadyEnv EventTypeFileCorrupted None 0) (eventOf EventTypeCheckFailed))
        (startWorld ∅)
  = startWorld ∅.
Proof.
  apply (failure_of_untracked_file_writes_nothing
           (steadyEnv EventTypeFileCorrupted None 0) (eventOf EventTypeCheckFailed)
           (startWorld ∅)); [right; reflexivity | reflexivity].
Defined.

(** ** The counters *)

(** [triggerFileRepair] leaves the counters of the record alone. *)
Lemma triggerFileRepair_counters env p e w fh :
  store w !! p = Some fh →
  ∃ fh', store (after (triggerFileRepair env p e) w) !! p = Some fh'
         ∧ counters fh' = counters fh.
Proof.
  intros Hrec.
  unfold after, triggerFileRepair, bind, modify, GetFileHealth. simpl.
  destruct (storeFault env (StoreGetFileHealth p)); simpl; [by exists fh|].
  rewrite Hrec.
  destruct (LibraryPath fh) as [lib|]; simpl; [|by exists fh].
  destruct (decide (lib = "")); simpl; [by exists fh|].
  destruct (rescanErr env lib); simpl; [|by exists fh].
  unfold SetCorrupted, write. destruct (storeFault env _); simpl; [by exists fh|].
  rewrite lookup_alter_eq, Hrec. by eexists.
Qed.

Lemma MarkAsCorrupted_counters env p e w fh :
  store w !! p = Some fh →
  ∃ fh', store (after (MarkAsCorrupted env p e) w) !! p = Some fh'
         ∧ counters fh' = counters fh.
Proof.
  intros Hrec. unfold after, MarkAsCorrupted, write.
  destruct (storeFault env _); simpl; [by exists fh|].
  rewrite lookup_alter_eq, Hrec. by eexists.
Qed.

(** A call followed by wrapping its error leaves the world of the call. *)
Lemma after_bind_wrap (m : M error) (f : string → error) w :
  ((let* err := m in
    match err with Some e => ret (f e) | None => ret None end) w).2
  = (m w).2.
Proof.
  unfold bind. by destruct (m w) as [[[e|]|] w1].
Qed.

(** With [max_retries = 0] a record within its bounds leaves them on the
    first failure: [retry_count] becomes 1. *)
Lemma retry_count_exceeds_bound :
  ∃ fh fh',
    store (tracking (pendingRecord 0 (Some "/lib/x"))) !! "/m/x.mkv" = Some fh
    ∧ withinBounds fh
    ∧ store (after (handleHealthCheckResult
                      (steadyEnv EventTypeFileCorrupted None 0)
                      (eventOf EventTypeFileCorrupted))
                   (tracking (pendingRecord 0 (Some "/lib/x")))) !! "/m/x.mkv"
      = Some fh'
    ∧ ¬ withinBounds fh'.
Proof.
  eexists _, _. split; [reflexivity|]. split; [by compute|].
  split; [vm_compute; reflexivity|].
  intros [H _]. by compute in H.
Qed.

(** C5, amended. A failed check (Corrupted or CheckFailed) of a tracked record
    raises the counter of the record's phase by exactly one ([retry_count] in
    the health-check phase, [repair_retry_count] in the repair phase) and
    leaves the other counter and both bounds as they were.  So the bounds
    [retry_count <= max_retries] and [repair_retry_count <= max_repair_retries]
    are kept whenever the phase's counter was strictly below its bound, the
    escalating failure raising it exactly to the bound; the handler does not
    cap the counters, and a failure that finds the counter at its bound
    leaves it one above. *)
Theorem failure_counts_once env event w fh :
  failing event →
  store w !! EventFilePath event = Some fh →
  storeFault env (StoreGetFileHealth (EventFilePath event)) = None →
  storeFault env (StoreIncrementRetryCount (EventFilePath event)) = None →
  storeFault env (StoreIncrementRepairRetryCount (EventFilePath event)) = None →
  ∃ fh',
    store (after (handleHealthCheckResult env event) w) !! EventFilePath event = Some fh'
    ∧ counters fh'
      = (if decide (Status fh = HealthStatusRepairTriggered)
         then (RetryCount fh, MaxRetries fh, RepairRetryCount fh + 1, MaxRepairRetries fh)
         else (RetryCount fh + 1, MaxRetries fh, RepairRetryCount fh, MaxRepairRetries fh))
    ∧ (withinBounds fh →
       (if decide (Status fh = HealthStatusRepairTriggered)
        then RepairRetryCount fh < MaxRepairRetries fh
        else RetryCount fh < MaxRetries fh) →
       withinBounds fh')
    ∧ (Status fh ≠ HealthStatusRepairTriggered →
       RetryCount fh = MaxRetries fh - 1 → RetryCount fh' = MaxRetries fh')
    ∧ (Status fh ≠ HealthStatusRepairTriggered →
       RetryCount fh = MaxRetries fh → RetryCount fh' = MaxRetries fh' + 1).
Proof.
  intros Hf Hrec Hget Hinc Hrep.
  assert (Hcount : ∃ fh',
    store (after (handleHealthCheckResult env event) w) !! EventFilePath event = Some fh'
    ∧ counters fh'
      = (if decide (Status fh = HealthStatusRepairTriggered)
         then (RetryCount fh, MaxRetries fh, RepairRetryCount fh + 1, MaxRepairRetries fh)
         else (RetryCount fh + 1, MaxRetries fh, RepairRetryCount fh, MaxRepairRetries fh))).
  { unfold after. destruct (decide (Status fh = HealthStatusRepairTriggered)) as [Hs|Hs].
    - rewrite (handle_failure_repair_phase env event w fh) by done. cbv zeta.
      set (w1 := with_store _ w).
      assert (Hrec1 : store w1 !! EventFilePath event
                = Some (Store.increment_repair_retry (cfg env) (clock w) (Error event) fh)).
      { subst w1. simpl. by rewrite lookup_alter_eq, Hrec. }
      destruct (wrap64 (MaxRepairRetries fh - 1) <=? RepairRetryCount fh).
      + rewrite after_bind_wrap.
        destruct (MarkAsCorrupted_counters env _ (Error event) w1 _ Hrec1)
          as (fh' & Hrec' & Hc).
        exists fh'. split; [done|]. by rewrite Hc.
      + simpl. eexists. split; [exact Hrec1 | done].
    - rewrite (handle_failure_check_phase env event w fh) by done. cbv zeta.
      set (w1 := with_store _ w).
      assert (Hrec1 : store w1 !! EventFilePath event
                = Some (Store.increment_retry (cfg env) (clock w) (Error event) fh)).
      { subst w1. simpl. by rewrite lookup_alter_eq, Hrec. }
      destruct (wrap64 (MaxRetries fh - 1) <=? RetryCount fh).
      + rewrite after_bind_wrap.
        destruct (triggerFileRepair_counters env _ (Error event) w1 _ Hrec1)
          as (fh' & Hrec' & Hc).
        exists fh'. split; [done|]. by rewrite Hc.
      + simpl. eexists. split; [exact Hrec1 | done]. }
  destruct Hcount as (fh' & Hrec' & Hc). exists fh'.
  split; [done|]. split; [done|].
  unfold counters, withinBounds in *.
  destruct (decide (Status fh = HealthStatusRepairTriggered));
    injection Hc as -> -> -> ->; repeat split; intros; try done; lia.
Qed.

(** The first failure of the record of scenario S2. *)
Lemma failure_counts_once_witness :
  ∃ fh',
    store (after (handleHealthCheckResult
                    (steadyEnv EventTypeFileCorrupted None 0)
                    (eventOf EventTypeFileCorrupted))
                 (tracking (pendingRecord 3 (Some "/lib/x")))) !! "/m/x.mkv" = Some fh'
    ∧ counters fh' = (1, 3, 0, 2).
Proof.
  destruct (failure_counts_once
              (steadyEnv EventTypeFileCorrupted None 0) (eventOf EventTypeFileCorrupted)
              (tracking (pendingRecord 3 (Some "/lib/x")))
              (pendingRecord 3 (Some "/lib/x")))
    as (fh' & Hrec & Hc & _);
    [left; reflexivity | reflexivity | reflexivity | reflexivity | reflexivity |].
  exists fh'. split; [exact Hrec | exact Hc].
Defined.

(** ** A Healthy outcome *)

(** A tracked record receives a Healthy outcome while the metadata service
    fails: it is not marked Healthy. *)
Lemma healthy_outcome_not_marked :
  ∃ fh',
    store (after (handleHealthCheckResult
                    (withMetadataErr "metadata file not found"
                       (steadyEnv EventTypeFileHealthy None 0))
                    (eventOf EventTypeFileHealthy))
                 (tracking (pendingRecord 3 (Some "/lib/x")))) !! "/m/x.mkv"
    = Some fh'
    ∧ Status fh' ≠ HealthStatusHealthy.
Proof. eexists. split; [vm_compute; reflexivity | discriminate]. Qed.

(** C9, amended. When a tracked record receives a Healthy outcome and the
    metadata service accepts the status update, the record is marked Healthy
    with both retry counters zero, [last_checked] set to now and
    [scheduled_check_at] set to [calculateNextCheck release_date now], where
    [created_at] stands in for a missing [release_date].  When the metadata
    update fails the handler returns its error first and the store is left
    as it was. *)
Theorem healthy_outcome_marks_healthy env event w fh :
  Type_ event = EventTypeFileHealthy →
  store w !! EventFilePath event = Some fh →
  storeFault env (StoreGetFileHealth (EventFilePath event)) = None →
  storeFault env (StoreMarkAsHealthy (EventFilePath event)) = None →
  (metadataErr env (EventFilePath event) = None →
   result (handleHealthCheckResult env event) w = Done None
   ∧ ∃ fh',
       store (after (handleHealthCheckResult env event) w) !! EventFilePath event
       = Some fh'
       ∧ Status fh' = HealthStatusHealthy
       ∧ RetryCount fh' = 0
       ∧ RepairRetryCount fh' = 0
       ∧ LastChecked fh' = Some (clock w)
       ∧ ScheduledCheckAt fh'
         = Some (calculateNextCheck
                   (match ReleaseDate fh with
                    | Some releaseDate => releaseDate
                    | None => CreatedAt fh
                    end) (clock w)))
  ∧ (∀ e, metadataErr env (EventFilePath event) = Some e →
       result (handleHealthCheckResult env event) w
       = Done (Some (wrapErr "failed to update metadata status" e))
       ∧ store (after (handleHealthCheckResult env event) w) = store w).
Proof.
  intros Ht Hrec Hget Hmark. split.
  - intros Hmeta.
    unfold result, after, handleHealthCheckResult. cbv zeta. rewrite Ht.
    unfold bind at 1. unfold modify at 1. rewrite Hmeta.
    unfold bind at 1. unfold GetFileHealth. rewrite Hget. simpl. rewrite Hrec.
    unfold bind, gets, MarkAsHealthy, write. rewrite Hmark. simpl.
    rewrite Hrec. simpl. split; [done|]. rewrite lookup_alter_eq, Hrec. simpl.
    eexists. split; [reflexivity|]. done.
  - intros e Hmeta.
    unfold result, after, handleHealthCheckResult. cbv zeta. rewrite Ht.
    unfold bind at 1. unfold modify at 1. by rewrite Hmeta.
Qed.

(** Scenario S1: the metadata service accepts the update. *)
Lemma healthy_outcome_marks_healthy_witness :
  result (handleHealthCheckResult (steadyEnv EventTypeFileHealthy None 0)
            (eventOf EventTypeFileHealthy))
         (tracking (pendingRecord 3 (Some "/lib/x")))
  = Done None.
Proof.
  apply (healthy_outcome_marks_healthy
           (steadyEnv EventTypeFileHealthy None 0) (eventOf EventTypeFileHealthy)
           (tracking (pendingRecord 3 (Some "/lib/x")))
           (pendingRecord 3 (Some "/lib/x")));
    reflexivity.
Defined.

(** ** Triggering repair *)

(** A rescan that succeeds is followed by no write at all. *)
Lemma triggerFileRepair_success_keeps_store env p e w fh lib :
  store w !! p = Some fh →
  LibraryPath fh = Some lib →
  lib ≠ "" →
  rescanErr env lib = None →
  storeFault env (StoreGetFileHealth p) = None →
  result (triggerFileRepair env p e) w = Done None
  ∧ store (after (triggerFileRepair env p e) w) = store w
  ∧ emitted (triggerFileRepair env p e) w
    = [CallTriggerRepair p; CallTriggerFileRescan lib].
Proof.
  intros Hrec Hlib Hne Hok Hget.
  unfold emitted, result, after.
  rewrite (triggerFileRepair_tracked env p e w fh Hrec Hget). cbv zeta.
  rewrite Hlib. destruct (decide (lib = "")); [done|]. rewrite Hok.
  repeat split. simpl. by rewrite <- app_assoc, drop_app_length.
Qed.

(** A missing or empty library path ends the attempt before the rescanner
    is asked. *)
Lemma triggerFileRepair_no_library env p e w fh :
  store w !! p = Some fh →
  noLibraryPath fh →
  storeFault env (StoreGetFileHealth p) = None →
  triggerFileRepair env p e w
  = (Done (Some (errNoLibraryPath p)), record (CallTriggerRepair p) w).
Proof.
  intros Hrec Hlib Hget.
  rewrite (triggerFileRepair_tracked env p e w fh Hrec Hget). cbv zeta.
  destruct Hlib as [-> | ->]; [done|]. by destruct (decide ("" = "")).
Qed.

(** C1. Scenario S2 on the code: [max_retries = 3], a library path, a probe
    that always returns Corrupted and a rescanner that accepts.  After three
    cycles the probe has run three times and the rescanner once, and its
    success has been followed by no write: the record is as
    [IncrementRetryCount] left it (Corrupted, [retry_count = 3], the probe's
    error, due again after the retry backoff of eight minutes), not what
    [set_repair_triggered] would have made of it (RepairTriggered, due
    again after the repair recheck delay of one hour). *)
Theorem rescan_success_is_not_recorded :
  count isCheckFile
    (trace (after (threeCycles (steadyEnv EventTypeFileCorrupted (Some "segments missing") 0))
                  (tracking (pendingRecord 3 (Some "/lib/x"))))) = 3%nat
  ∧ count isRescan
      (trace (after (threeCycles (steadyEnv EventTypeFileCorrupted (Some "segments missing") 0))
                    (tracking (pendingRecord 3 (Some "/lib/x"))))) = 1%nat
  ∧ ∃ fh,
      store (after (threeCycles (steadyEnv EventTypeFileCorrupted (Some "segments missing") 0))
                   (tracking (pendingRecord 3 (Some "/lib/x")))) !! "/m/x.mkv" = Some fh
      ∧ Status fh = HealthStatusCorrupted
      ∧ Status fh ≠ HealthStatusRepairTriggered
      ∧ RetryCount fh = 3
      ∧ LastError fh = Some "segments missing"
      ∧ ScheduledCheckAt fh = Some (2 * Hour + 8 * Minute)
      ∧ Status (Store.set_repair_triggered defaultConfig (2 * Hour) None fh)
        = HealthStatusRepairTriggered
      ∧ ScheduledCheckAt (Store.set_repair_triggered defaultConfig (2 * Hour) None fh)
        = Some (3 * Hour).
Proof.
  split; [vm_compute; reflexivity|]. split; [vm_compute; reflexivity|].
  eexists. split; [vm_compute; reflexivity|].
  repeat split; try reflexivity. discriminate.
Qed.

(** Scenario S3 on the code: after the third cycle repair has been attempted
    once, but [repair_retry_count] is not 1 and [last_error] is not the
    missing-library-path error. *)
Lemma missing_library_path_after_three_cycles :
  ∃ fh,
    store (after (threeCycles (steadyEnv EventTypeFileCorrupted (Some "segments missing") 0))
                 (tracking (pendingRecord 3 None))) !! "/m/x.mkv" = Some fh
    ∧ count isTriggerRepair
        (trace (after (threeCycles
                         (steadyEnv EventTypeFileCorrupted (Some "segments missing") 0))
                      (tracking (pendingRecord 3 None)))) = 1%nat
    ∧ RepairRetryCount fh ≠ 1
    ∧ LastError fh ≠ Some (errNoLibraryPath "/m/x.mkv").
Proof.
  eexists. split; [vm_compute; reflexivity|].
  split; [vm_compute; reflexivity|]. split; discriminate.
Qed.

(** C3, amended. For a record whose [library_ref] is missing or empty the
    repair attempt fails with the missing-library-path error and never
    reaches the rescanner.  In the repair-notification task the error is
    stored as [last_error], [repair_retry_count] goes up by one and the
    record does not become PermanentlyCorrupted: it is RepairTriggered and
    never due for a check.  It is due for another repair attempt, from the
    end of its backoff, exactly when the new [repair_retry_count] is still
    below [max_repair_retries]; when it is not, the record is never due
    again.  On the escalation path of a health check the error is returned
    to the caller instead: the record keeps what [IncrementRetryCount]
    wrote (Corrupted, the probe's error, [retry_count] one higher),
    [repair_retry_count] is unchanged, and the record is due for a check
    again from the end of its backoff and never due for a repair attempt. *)
Theorem missing_library_path_defers_repair env ctx event w fh :
  store w !! FilePath fh = Some fh →
  noLibraryPath fh →
  storeFault env (StoreGetFileHealth (FilePath fh)) = None →
  storeFault env (StoreIncrementRepairRetryCount (FilePath fh)) = None →
  storeFault env (StoreIncrementRetryCount (FilePath fh)) = None →
  (ctxDone ctx w = false →
   result (processRepairNotification env ctx fh) w = Done None
   ∧ emitted (processRepairNotification env ctx fh) w = [CallTriggerRepair (FilePath fh)]
   ∧ ∃ fh',
       store (after (processRepairNotification env ctx fh) w) !! FilePath fh = Some fh'
       ∧ LastError fh' = Some (errNoLibraryPath (FilePath fh))
       ∧ RepairRetryCount fh' = RepairRetryCount fh + 1
       ∧ RetryCount fh' = RetryCount fh
       ∧ Status fh' ≠ HealthStatusPermanentlyCorrupted
       ∧ Status fh' = HealthStatusRepairTriggered
       ∧ MaxRepairRetries fh' = MaxRepairRetries fh
       ∧ (∀ t, Store.due_for_check t fh' = false)
       ∧ (∀ t, Store.due_for_repair t fh' = true
               ↔ RepairRetryCount fh + 1 < MaxRepairRetries fh
                 ∧ clock w + backoff (cfg env) (RepairRetryCount fh + 1) ≤ t)
       ∧ (MaxRepairRetries fh ≤ RepairRetryCount fh + 1 →
          ∀ t, Store.due_for_repair t fh' = false))
  ∧ (failing event →
     EventFilePath event = FilePath fh →
     Status fh ≠ HealthStatusRepairTriggered →
     - 2 ^ 63 < MaxRetries fh < 2 ^ 63 →
     MaxRetries fh - 1 ≤ RetryCount fh →
     result (handleHealthCheckResult env event) w
     = Done (Some (wrapErr "failed to trigger repair" (errNoLibraryPath (FilePath fh))))
     ∧ emitted (handleHealthCheckResult env event) w = [CallTriggerRepair (FilePath fh)]
     ∧ ∃ fh',
         store (after (handleHealthCheckResult env event) w) !! FilePath fh = Some fh'
         ∧ LastError fh' = Error event
         ∧ RepairRetryCount fh' = RepairRetryCount fh
         ∧ RetryCount fh' = RetryCount fh + 1
         ∧ Status fh' = HealthStatusCorrupted
         ∧ (∀ t, Store.due_for_repair t fh' = false)
         ∧ (∀ t, Store.due_for_check t fh' = true
                 ↔ clock w + backoff (cfg env) (RetryCount fh + 1) ≤ t)).
Proof.
  intros Hrec Hlib Hget Hrep Hinc. split.
  - intros Hctx.
    assert (E : processRepairNotification env ctx fh w
                = (Done None,
                   with_store
                     (alter (Store.increment_repair_retry (cfg env) (clock w)
                               (Some (errNoLibraryPath (FilePath fh))))
                            (FilePath fh))
                     (record (CallTriggerRepair (FilePath fh)) w))).
    { unfold processRepairNotification, bind, gets. rewrite Hctx.
      rewrite (triggerFileRepair_no_library env _ None w fh Hrec Hlib Hget).
      unfold IncrementRepairRetryCount, write. by rewrite Hrep. }
    unfold emitted, result, after. rewrite E. simpl.
    split; [done|]. split; [by rewrite drop_app_length|].
    rewrite lookup_alter_eq, Hrec. simpl. eexists. split; [reflexivity|].
    unfold Store.due_for_check, Store.due_for_repair, Store.scheduled_by. simpl.
    split_and!; try done.
    + intros t. rewrite andb_true_iff, Z.ltb_lt, Z.leb_le. done.
    + intros Hle t. apply andb_false_iff. left. apply Z.ltb_ge. lia.
  - intros Hf Hpath Hst Hmax Hthr.
    rewrite <- Hpath in *.
    set (fh1 := Store.increment_retry (cfg env) (clock w) (Error event) fh).
    assert (E : handleHealthCheckResult env event w
                = (Done (Some (wrapErr "failed to trigger repair"
                                 (errNoLibraryPath (EventFilePath event)))),
                   record (CallTriggerRepair (EventFilePath event))
                     (with_store
                        (alter (Store.increment_retry (cfg env) (clock w) (Error event))
                               (EventFilePath event)) w))).
    { rewrite (handle_failure_check_phase env event w fh) by done. cbv zeta.
      rewrite threshold_plain, bool_decide_eq_true_2 by done.
      set (w1 := with_store _ w).
      assert (Hrec1 : store w1 !! EventFilePath event = Some fh1).
      { subst w1. simpl. by rewrite lookup_alter_eq, Hrec. }
      unfold bind.
      by rewrite (triggerFileRepair_no_library env _ (Error event) w1 fh1 Hrec1 Hlib Hget). }
    unfold emitted, result, after. rewrite E. simpl.
    split; [done|]. split; [by rewrite drop_app_length|].
    rewrite lookup_alter_eq, Hrec. simpl. eexists. split; [reflexivity|].
    unfold Store.due_for_check, Store.due_for_repair, Store.scheduled_by. simpl.
    split_and!; try done.
    intros t. by rewrite Z.leb_le.
Qed.

(** The repair task for a record in the repair phase without a library
    path, and the escalating failure of a record without one. *)
Lemma missing_library_path_witness :
  result (processRepairNotification (steadyEnv EventTypeFileCorrupted None 0) []
            (Store.set_status HealthStatusRepairTriggered (pendingRecord 3 None)))
         (tracking (Store.set_status HealthStatusRepairTriggered (pendingRecord 3 None)))
  = Done None
  ∧ result (handleHealthCheckResult (steadyEnv EventTypeFileCorrupted None 0)
              (eventOf EventTypeFileCorrupted))
           (tracking (pendingRecord 1 None))
    = Done (Some (wrapErr "failed to trigger repair" (errNoLibraryPath "/m/x.mkv"))).
Proof.
  split.
  - apply (missing_library_path_defers_repair
             (steadyEnv EventTypeFileCorrupted None 0) []
             (eventOf EventTypeFileCorrupted)
             (tracking (Store.set_status HealthStatusRepairTriggered (pendingRecord 3 None)))
             (Store.set_status HealthStatusRepairTriggered (pendingRecord 3 None)));
      [reflexivity | left; reflexivity | reflexivity | reflexivity | reflexivity
      | reflexivity].
  - apply (missing_library_path_defers_repair
             (steadyEnv EventTypeFileCorrupted None 0) []
             (eventOf EventTypeFileCorrupted)
             (tracking (pendingRecord 1 None)) (pendingRecord 1 None));
      [reflexivity | left; reflexivity | reflexivity | reflexivity | reflexivity
      | left; reflexivity | reflexivity | discriminate | simpl; lia | simpl; lia].
Defined.

(** ** A single check and its cancellation *)

Lemma operate_done env a w : ∃ w', operate env a w = (Done tt, w').
Proof.
  destruct a as [p|c]; simpl; [|by eexists].
  unfold CancelHealthCheck, UpdateFileHealth, write, bind, modify, gets.
  destruct (activeChecks w !! p); simpl; [|by eexists].
  destruct (storeFault env _); by eexists.
Qed.

Lemma operateAll_done env l : ∀ w, ∃ w', operateAll env l w = (Done tt, w').
Proof.
  induction l as [|a l IH]; intros w; simpl; [by eexists|].
  unfold bind. destruct (operate_done env a w) as [w1 ->]. apply IH.
Qed.

Lemma operate_trace env a w : trace (after (operate env a) w) = trace w.
Proof.
  unfold after. destruct a as [p|c]; simpl; [|done].
  unfold CancelHealthCheck, UpdateFileHealth, write, bind, modify, gets.
  destruct (activeChecks w !! p); simpl; [|done].
  by destruct (storeFault env _).
Qed.

Lemma operateAll_trace env l : ∀ w, trace (after (operateAll env l) w) = trace w.
Proof.
  induction l as [|a l IH]; intros w; [done|].
  pose proof (operate_trace env a w) as Ha. unfold after in *. simpl. unfold bind.
  destruct (operate_done env a w) as [w1 E]. rewrite E in *. simpl in *.
  by rewrite IH.
Qed.

(** The probe: the call is recorded, the operator acts, time passes. *)
Lemma CheckFile_unfold env p w :
  CheckFile env p w
  = (Done {| Type_ := outcome (probe env p);
             EventFilePath := p;
             Error := detail (probe env p) |},
     with_clock
       (clock (after (operateAll env (during (probe env p))) (record (CallCheckFile p) w))
        + took (probe env p))
       (after (operateAll env (during (probe env p))) (record (CallCheckFile p) w))).
Proof.
  unfold CheckFile, after. cbv zeta. unfold bind at 1. unfold modify at 1.
  unfold bind at 1.
  destruct (operateAll_done env (during (probe env p)) (record (CallCheckFile p) w))
    as [w1 ->].
  reflexivity.
Qed.

Lemma CheckFile_trace env p w :
  trace (after (CheckFile env p) w) = trace w ++ [CallCheckFile p].
Proof.
  unfold after at 1. rewrite CheckFile_unfold. simpl.
  by rewrite operateAll_trace.
Qed.

(** [performDirectCheck], step by step: register, probe, look at the
    context, handle the result, notify; the two deferred calls close it. *)
Lemma performDirectCheck_unfold env ctx p w :
  performDirectCheck env ctx p w
  = let checkCtx := nextCancel w :: ctx in
    let finish := λ rw : Outcome error * World,
      (rw.1, callCancel (nextCancel w) (with_activeChecks (delete p) rw.2)) in
    finish
      (if ctxDone checkCtx (checkInFlight p w)
       then (Done (Some ctxErr), checkInFlight p w)
       else
         let event := {| Type_ := outcome (probe env p);
                         EventFilePath := p;
                         Error := detail (probe env p) |} in
         if ctxDone checkCtx (probeReturned env p w)
         then (Done (Some ctxErr), probeReturned env p w)
         else
           match handleHealthCheckResult env event (probeReturned env p w) with
           | (Done (Some e), w3) =>
               (Done (Some (wrapErr "failed to handle health check result" e)), w3)
           | (Done None, w3) =>
               (Done None,
                with_stats (Stats.fileChecked (Type_ event))
                  (record (CallNotifyRcloneVFS p (Type_ event)) w3))
           | (Panicked, w3) => (Panicked, w3)
           end).
Proof.
  cbv zeta. unfold probeReturned, after.
  unfold performDirectCheck. unfold bind at 1. unfold gets at 1.
  unfold bind at 1. unfold modify at 1.
  unfold deferring at 1. unfold bind at 1. unfold modify at 1.
  unfold deferring at 1. unfold bind at 1. unfold gets at 1.
  change (with_activeChecks <[p:=nextCancel w]> (with_nextCancel (S (nextCancel w)) w))
    with (checkInFlight p w).
  destruct (ctxDone (nextCancel w :: ctx) (checkInFlight p w)); [reflexivity|].
  unfold bind at 1. rewrite CheckFile_unfold. cbv beta iota. cbn [fst snd].
  set (w2 := with_clock _ _).
  unfold bind at 1. unfold gets at 1. cbv beta iota.
  destruct (ctxDone (nextCancel w :: ctx) w2); [reflexivity|].
  unfold bind at 1.
  destruct (handleHealthCheckResult env _ w2) as [[[e|]|] w3]; reflexivity.
Qed.

(** The result handler never panics: it asks for the repair of a record it
    has just found and updated. *)
Lemma handleHealthCheckResult_returns env event w :
  ∃ r, result (handleHealthCheckResult env event) w = Done r.
Proof.
  unfold result, handleHealthCheckResult. cbv zeta.
  unfold bind, GetFileHealth, IncrementRetryCount, IncrementRepairRetryCount,
    MarkAsCorrupted, MarkAsHealthy, write, modify, gets, ret.
  destruct (Type_ event);
    repeat first
      [ progress simpl
      | match goal with
        | |- context [storeFault ?e ?c] => destruct (storeFault e c)
        | |- context [metadataErr ?e ?p] => destruct (metadataErr e p)
        | |- context [store w !! ?p] => destruct (store w !! p) eqn:?
        | |- context [Status ?f] => destruct (Status f)
        | |- context [?a <=? ?b] => destruct (a <=? b)
        | Hrec : store ?w0 !! ?p = Some _
          |- context [triggerFileRepair ?env0 ?p ?e (with_store ?f ?w0)] =>
            let r := fresh "r" in
            let Hr := fresh "Hr" in
            destruct (triggerFileRepair_returns env0 p e (with_store f w0)) as [r Hr];
            [ simpl; rewrite lookup_alter_eq, Hrec; by eexists
            | unfold result in Hr;
              destruct (triggerFileRepair env0 p e (with_store f w0)) as [? ?];
              simpl in Hr; subst; destruct r ]
        end ];
    by eexists.
Qed.

Lemma not_cancelled_at_registration ctx p w :
  ctxDone ctx w = false →
  cancelsInOrder w →
  ctxDone (nextCancel w :: ctx) (checkInFlight p w) = false.
Proof.
  intros Hctx Hord. unfold ctxDone. simpl. fold (ctxDone ctx w). rewrite Hctx.
  rewrite bool_decide_eq_false_2; [done|].
  intros Hin. apply Hord in Hin. lia.
Qed.

(** While a first check of the path is registered, a second one is run to
    its end: it returns no error and has invoked the probe. *)
Lemma second_run_is_not_rejected :
  is_Some (activeChecks
             (checkInFlight "/m/x.mkv" (tracking (pendingRecord 3 (Some "/lib/x"))))
           !! "/m/x.mkv")
  ∧ result (performDirectCheck (steadyEnv EventTypeFileHealthy None 0) [] "/m/x.mkv")
           (checkInFlight "/m/x.mkv" (tracking (pendingRecord 3 (Some "/lib/x"))))
    = Done None
  ∧ count isCheckFile
      (emitted (performDirectCheck (steadyEnv EventTypeFileHealthy None 0) [] "/m/x.mkv")
         (checkInFlight "/m/x.mkv" (tracking (pendingRecord 3 (Some "/lib/x")))))
    = 1%nat.
Proof.
  split; [by eexists|]. split; vm_compute; reflexivity.
Qed.

(** C2, amended. A call of the single-file check for a path that already
    has an entry in the registry is not rejected.  It invokes the probe (its
    context not being cancelled already) and returns; the only errors it
    returns are the context's error and the wrapped error of the result
    handler.  It puts its own cancel function in the place of the entry:
    when the operator cancels the check of the path while the probe runs,
    it is this call that is cancelled and discarded, and the cancel
    function of the earlier entry is not called.  On return the entry of
    the path is deleted. *)
Theorem registered_path_is_checked_again env ctx p w old :
  activeChecks w !! p = Some old →
  (old < nextCancel w)%nat →
  old ∉ cancelled w →
  ctxDone ctx w = false →
  cancelsInOrder w →
  let m := performDirectCheck env ctx p in
  (∃ l, emitted m w = CallCheckFile p :: l)
  ∧ (∃ r, result m w = Done r
          ∧ ∀ e, r = Some e →
                 e = ctxErr
                 ∨ ∃ e', e = wrapErr "failed to handle health check result" e')
  ∧ (during (probe env p) = [OpCancelHealthCheck p] →
     result m w = Done (Some ctxErr)
     ∧ emitted m w = [CallCheckFile p]
     ∧ nextCancel w ∈ cancelled (after m w)
     ∧ old ∉ cancelled (after m w))
  ∧ activeChecks (checkInFlight p w) !! p = Some (nextCancel w)
  ∧ activeChecks (after m w) !! p = None.
Proof.
  intros Hold Hlt Hnot Hctx Hord. cbv zeta.
  pose proof (not_cancelled_at_registration ctx p w Hctx Hord) as Hreg.
  assert (Htr : trace (probeReturned env p w) = trace w ++ [CallCheckFile p]).
  { unfold probeReturned. by rewrite CheckFile_trace. }
  split_and!.
  - unfold emitted, after. rewrite performDirectCheck_unfold. cbv zeta.
    rewrite Hreg. cbn [fst snd].
    destruct (ctxDone _ (probeReturned env p w)).
    + exists []. simpl. by rewrite Htr, drop_app_length.
    + destruct (framed_handleHealthCheckResult env
                  {| Type_ := outcome (probe env p); EventFilePath := p;
                     Error := detail (probe env p) |} (probeReturned env p w))
        as [[l Hl] _ _].
      unfold after in Hl.
      destruct (handleHealthCheckResult env _ (probeReturned env p w))
        as [[[e|]|] w3]; simpl in *; rewrite Hl, Htr, <- ?app_assoc; simpl.
      * exists l. by rewrite drop_app_length.
      * exists (l ++ [CallNotifyRcloneVFS p (outcome (probe env p))]).
        by rewrite drop_app_length.
      * exists l. by rewrite drop_app_length.
  - unfold result. rewrite performDirectCheck_unfold. cbv zeta.
    rewrite Hreg. cbn [fst snd].
    destruct (ctxDone _ (probeReturned env p w)).
    { eexists. split; [done|]. intros e [= <-]. by left. }
    destruct (handleHealthCheckResult_returns env
                {| Type_ := outcome (probe env p); EventFilePath := p;
                   Error := detail (probe env p) |} (probeReturned env p w)) as [r Hr].
    unfold result in Hr.
    destruct (handleHealthCheckResult env _ (probeReturned env p w)) as [o w3];
      simpl in Hr; subst o.
    destruct r as [e|]; simpl; (eexists; split; [done|]).
    + intros e0 [= <-]. right. by eexists.
    + by intros e0.
  - intros Hduring.
    assert (Hcan : cancelled (probeReturned env p w) = {[nextCancel w]} ∪ cancelled w).
    { unfold probeReturned, after. rewrite CheckFile_unfold, Hduring.
      unfold after. simpl. unfold bind at 1.
      unfold CancelHealthCheck, UpdateFileHealth, write.
      unfold bind at 1 2. unfold gets at 1. simpl. rewrite lookup_insert_eq.
      unfold bind, modify, ret. simpl.
      by destruct (storeFault env (StoreUpdateFileHealth p)). }
    assert (Hdone : ctxDone (nextCancel w :: ctx) (probeReturned env p w) = true).
    { unfold ctxDone. simpl. rewrite bool_decide_eq_true_2; [done|].
      rewrite Hcan. by apply elem_of_union_l, elem_of_singleton. }
    unfold emitted, result, after. rewrite performDirectCheck_unfold. cbv zeta.
    rewrite Hreg, Hdone. cbn [fst snd]. simpl.
    rewrite Htr, drop_app_length, Hcan. split_and!; try done;
      [by apply elem_of_union_l, elem_of_singleton|].
    intros Hin. apply elem_of_union in Hin. destruct Hin as [Hin|Hin].
    + apply elem_of_singleton in Hin. lia.
    + apply elem_of_union in Hin. destruct Hin as [Hin|Hin]; [|done].
      apply elem_of_singleton in Hin. lia.
  - apply lookup_insert_eq.
  - unfold after. rewrite performDirectCheck_unfold. cbv zeta. cbn [fst snd].
    simpl. apply lookup_delete_eq.
Qed.

(** The second check of a path whose first check is still registered: it
    deletes the entry on return, and an operator who cancels the path while
    its probe runs cancels the second check and not the first. *)
Lemma registered_path_is_checked_again_witness :
  activeChecks
    (after (performDirectCheck (steadyEnv EventTypeFileHealthy None 0) [] "/m/x.mkv")
       (checkInFlight "/m/x.mkv" (tracking (pendingRecord 3 (Some "/lib/x")))))
  !! "/m/x.mkv" = None
  ∧ result (performDirectCheck
              (withOperatorCancelling (steadyEnv EventTypeFileHealthy None 0))
              [] "/m/x.mkv")
           (checkInFlight "/m/x.mkv" (tracking (pendingRecord 3 (Some "/lib/x"))))
    = Done (Some ctxErr)
  ∧ 0%nat ∉ cancelled
      (after (performDirectCheck
                (withOperatorCancelling (steadyEnv EventTypeFileHealthy None 0))
                [] "/m/x.mkv")
         (checkInFlight "/m/x.mkv" (tracking (pendingRecord 3 (Some "/lib/x"))))).
Proof.
  assert (Hord : cancelsInOrder
            (checkInFlight "/m/x.mkv" (tracking (pendingRecord 3 (Some "/lib/x"))))).
  { intros c Hc. vm_compute in Hc. discriminate Hc. }
  assert (Hnot : 0%nat ∉ cancelled
            (checkInFlight "/m/x.mkv" (tracking (pendingRecord 3 (Some "/lib/x"))))).
  { intros Hc. vm_compute in Hc. discriminate Hc. }
  split.
  - apply (registered_path_is_checked_again
             (steadyEnv EventTypeFileHealthy None 0) [] "/m/x.mkv"
             (checkInFlight "/m/x.mkv" (tracking (pendingRecord 3 (Some "/lib/x"))))
             0%nat); [reflexivity | simpl; lia | exact Hnot | reflexivity | exact Hord].
  - destruct (registered_path_is_checked_again
                (withOperatorCancelling (steadyEnv EventTypeFileHealthy None 0))
                [] "/m/x.mkv"
                (checkInFlight "/m/x.mkv" (tracking (pendingRecord 3 (Some "/lib/x"))))
                0%nat) as (_ & _ & H & _);
      [reflexivity | simpl; lia | exact Hnot | reflexivity | exact Hord |].
    destruct (H eq_refl) as (Hr & _ & _ & Ho). by split.
Defined.

(** The operator's cancellation of a registered check. *)
Lemma CancelHealthCheck_registered env p w c fh :
  activeChecks w !! p = Some c →
  store w !! p = Some fh →
  storeFault env (StoreUpdateFileHealth p) = None →
  CancelHealthCheck env p w
  = (Done None,
     with_store <[p := Store.update HealthStatusPending None None None false fh]>
       (with_activeChecks (delete p) (callCancel c w))).
Proof.
  intros Hreg Hrec Hupd.
  unfold CancelHealthCheck, UpdateFileHealth, write, bind, modify, gets.
  rewrite Hreg, Hupd. unfold ret, with_store. simpl. by rewrite Hrec.
Qed.

(** C6. When cancellation fires while the probe is in flight, the check
    returns the context's error and discards the probe's result: the store
    and the statistics are as they were when the probe returned, the only
    call made is the probe itself (no notification), and the registry entry
    is gone.  The cancel operator, for its part, calls the cancel function,
    removes the registry entry and sets the record to Pending with its
    counters as they were; so a check cancelled by the operator ends with
    the record Pending and its previous counters, and a check cancelled
    through an outer context ends with the store as it was. *)
Theorem cancelled_check_is_discarded env ctx p w :
  ctxDone (nextCancel w :: ctx) (checkInFlight p w) = false →
  ctxDone (nextCancel w :: ctx) (probeReturned env p w) = true →
  (result (performDirectCheck env ctx p) w = Done (Some ctxErr)
   ∧ store (after (performDirectCheck env ctx p) w) = store (probeReturned env p w)
   ∧ stats (after (performDirectCheck env ctx p) w) = stats (probeReturned env p w)
   ∧ emitted (performDirectCheck env ctx p) w = [CallCheckFile p]
   ∧ activeChecks (after (performDirectCheck env ctx p) w) !! p = None)
  ∧ (∀ w0 c fh,
       activeChecks w0 !! p = Some c →
       store w0 !! p = Some fh →
       storeFault env (StoreUpdateFileHealth p) = None →
       result (CancelHealthCheck env p) w0 = Done None
       ∧ activeChecks (after (CancelHealthCheck env p) w0) !! p = None
       ∧ c ∈ cancelled (after (CancelHealthCheck env p) w0)
       ∧ ∃ fh', store (after (CancelHealthCheck env p) w0) !! p = Some fh'
                ∧ Status fh' = HealthStatusPending
                ∧ counters fh' = counters fh)
  ∧ (∀ fh,
       during (probe env p) = [OpCancelHealthCheck p] →
       store w !! p = Some fh →
       storeFault env (StoreUpdateFileHealth p) = None →
       ∃ fh', store (after (performDirectCheck env ctx p) w) !! p = Some fh'
              ∧ Status fh' = HealthStatusPending
              ∧ counters fh' = counters fh)
  ∧ (∀ c,
       during (probe env p) = [OpCancelContext c] →
       store (after (performDirectCheck env ctx p) w) = store w).
Proof.
  intros Hbefore Hduring.
  assert (Hpdc : performDirectCheck env ctx p w
                 = (Done (Some ctxErr),
                    callCancel (nextCancel w)
                      (with_activeChecks (delete p) (probeReturned env p w)))).
  { rewrite performDirectCheck_unfold. cbv zeta. by rewrite Hbefore, Hduring. }
  assert (Hcancel : ∀ w0 c fh,
       activeChecks w0 !! p = Some c →
       store w0 !! p = Some fh →
       storeFault env (StoreUpdateFileHealth p) = None →
       result (CancelHealthCheck env p) w0 = Done None
       ∧ activeChecks (after (CancelHealthCheck env p) w0) !! p = None
       ∧ c ∈ cancelled (after (CancelHealthCheck env p) w0)
       ∧ ∃ fh', store (after (CancelHealthCheck env p) w0) !! p = Some fh'
                ∧ Status fh' = HealthStatusPending
                ∧ counters fh' = counters fh).
  { intros w0 c fh Hreg Hrec Hupd. unfold result, after.
    rewrite (CancelHealthCheck_registered env p w0 c fh) by done. simpl.
    split; [done|]. split; [apply lookup_delete_eq|]. split; [set_solver|].
    rewrite lookup_insert_eq. by eexists. }
  split; [|split; [exact Hcancel|split]].
  - unfold emitted, result, after. rewrite Hpdc. simpl.
    repeat split; [| apply lookup_delete_eq].
    unfold probeReturned. by rewrite CheckFile_trace, drop_app_length.
  - intros fh Hop Hrec Hupd.
    unfold after at 1. rewrite Hpdc. simpl.
    unfold probeReturned, after. rewrite CheckFile_unfold. simpl.
    rewrite Hop. simpl. unfold bind at 1. cbn [operate]. unfold bind at 1.
    destruct (Hcancel (record (CallCheckFile p) (checkInFlight p w)) (nextCancel w) fh)
      as (Hres & _ & _ & fh' & Hrec' & Hst & Hc); try done.
    { simpl. apply lookup_insert_eq. }
    unfold result, after in *.
    destruct (CancelHealthCheck env p (record (CallCheckFile p) (checkInFlight p w)))
      as [o w1]; simpl in *; subst o. simpl.
    by exists fh'.
  - intros c Hop.
    unfold after at 1. rewrite Hpdc. simpl.
    unfold probeReturned, after. rewrite CheckFile_unfold. simpl.
    by rewrite Hop.
Qed.

(** Scenario S4: the operator cancels the check while the probe, thirty
    seconds long, is in flight. *)
Lemma cancelled_check_is_discarded_witness :
  emitted (performDirectCheck
             (withOperatorCancelling (steadyEnv EventTypeFileCorrupted None (30 * Second)))
             [] "/m/x.mkv")
          (tracking (pendingRecord 3 (Some "/lib/x")))
  = [CallCheckFile "/m/x.mkv"].
Proof.
  apply (cancelled_check_is_discarded
           (withOperatorCancelling (steadyEnv EventTypeFileCorrupted None (30 * Second)))
           [] "/m/x.mkv" (tracking (pendingRecord 3 (Some "/lib/x"))));
    vm_compute; reflexivity.
Defined.

(** ** A cycle *)

Lemma performDirectCheck_returns env ctx p w :
  ∃ r, result (performDirectCheck env ctx p) w = Done r.
Proof.
  unfold result. rewrite performDirectCheck_unfold. cbv zeta. cbn [fst].
  destruct (ctxDone _ (checkInFlight p w)); [by eexists|].
  destruct (ctxDone _ (probeReturned env p w)); [by eexists|].
  destruct (handleHealthCheckResult_returns env
              {| Type_ := outcome (probe env p); EventFilePath := p;
                 Error := detail (probe env p) |} (probeReturned env p w)) as [r Hr].
  unfold result in Hr.
  destruct (handleHealthCheckResult env _ (probeReturned env p w)) as [o w3];
    simpl in *; subst o.
  destruct r; by eexists.
Qed.




(** A row the repair query returns is a row of the table. *)
Lemma fetch_due_for_repair_stored now limit (t : Table) fh :
  fh ∈ Store.fetch_due_for_repair now limit t → ∃ k, t !! k = Some fh.
Proof.
  unfold Store.fetch_due_for_repair, Store.rows. intros Hin.
  apply subseteq_take, list_elem_of_filter in Hin. destruct Hin as [_ Hin].
  apply list_elem_of_fmap in Hin. destruct Hin as ([k v] & -> & Hkv).
  exists k. by apply elem_of_map_to_list.
Qed.

(** [runHealthCheckCycle], step by step. *)
Lemma runHealthCheckCycle_unfold env ctx w :
  runHealthCheckCycle env ctx w
  = let now := clock w in
    let limit := getMaxConcurrentJobs env in
    let w1 := record (CallGetUnhealthyFiles limit)
                (with_stats (Stats.cycleStarted now) (with_cycleRunning true w)) in
    let w2 := record (CallGetFilesForRepairNotification limit) w1 in
    let unhealthyFiles := Store.fetch_due_for_check now limit (store w) in
    let repairFiles := Store.fetch_due_for_repair now limit (store w) in
    match storeFault env StoreGetUnhealthyFiles with
    | Some e =>
        (Done (Some (wrapErr "failed to get unhealthy files" e)),
         with_cycleRunning false w1)
    | None =>
        match storeFault env StoreGetFilesForRepairNotification with
        | Some e =>
            (Done (Some (wrapErr "failed to get files for repair notification" e)),
             with_cycleRunning false w2)
        | None =>
            if (length unhealthyFiles + length repairFiles =? 0)%nat
            then (Done None,
                  with_cycleRunning false
                    (with_stats (Stats.cycleCompleted now (getCheckInterval env)) w2))
            else
              match waitGroup (map (checkTask env ctx) unhealthyFiles
                                 ++ map (repairTask env ctx) repairFiles) w2 with
              | (Done _, w3) =>
                  (Done None,
                   with_cycleRunning false
                     (with_stats (Stats.cycleCompleted now (getCheckInterval env)) w3))
              | (Panicked, w3) => (Panicked, with_cycleRunning false w3)
              end
        end
    end.
Proof.
  cbv zeta.
  unfold runHealthCheckCycle, deferring, updateStats, GetUnhealthyFiles,
    GetFilesForRepairNotification, bind, modify, gets, ret.
  simpl.
  destruct (storeFault env StoreGetUnhealthyFiles); [reflexivity|].
  destruct (storeFault env StoreGetFilesForRepairNotification); [reflexivity|].
  destruct (_ =? _)%nat; [reflexivity|].
  by destruct (waitGroup _ _) as [[[]|] w3].
Qed.





(** ** The tick loop *)

(** C8. Cycles never overlap.  A tick that finds the in-flight flag of a
    cycle still set changes nothing: no store fetch, no task, no call at
    all; and every cycle clears the flag when it ends.  Scenario S6: under a
    ticker of 100 ms, with one due record and a probe that takes 500 ms
    (whatever it returns), the loop reaches the end of the first second with
    exactly one probe invoked.  The same holds of [run] at the shortest
    interval the configuration can express: ticks of one second, a probe of
    five seconds, the first ten seconds. *)
Theorem cycles_never_overlap :
  (∀ env ctx w,
     cycleRunning w = true →
     tick env ctx w = (Done tt, w) ∧ emitted (tick env ctx) w = [])
  ∧ (∀ env ctx w, IsCycleRunning (after (runHealthCheckCycle env ctx) w) = false)
  ∧ (∀ o d,
       result (runLoop 20 (steadyEnv o d (500 * Millisecond)) []
                 (100 * Millisecond) Second (100 * Millisecond))
              (tracking (pendingRecord 3 (Some "/lib/x")))
       = Done true
       ∧ count isCheckFile
           (trace (after (runLoop 20 (steadyEnv o d (500 * Millisecond)) []
                            (100 * Millisecond) Second (100 * Millisecond))
                         (tracking (pendingRecord 3 (Some "/lib/x")))))
         = 1%nat)
  ∧ (∀ o d,
       result (run 20 (withCheckInterval 1 (steadyEnv o d (5 * Second))) []
                 (10 * Second))
              (tracking (pendingRecord 3 (Some "/lib/x")))
       = Done true
       ∧ count isCheckFile
           (trace (after (run 20 (withCheckInterval 1 (steadyEnv o d (5 * Second))) []
                            (10 * Second))
                         (tracking (pendingRecord 3 (Some "/lib/x")))))
         = 1%nat).
Proof.
  split; [|split; [|split]].
  - intros env ctx w Hflag.
    assert (E : tick env ctx w = (Done tt, w)).
    { unfold tick, bind, gets. by rewrite Hflag. }
    split; [exact E|]. unfold emitted, after. rewrite E. simpl.
    apply drop_all.
  - intros env ctx w. unfold IsCycleRunning, after.
    rewrite runHealthCheckCycle_unfold. cbv zeta.
    destruct (storeFault env StoreGetUnhealthyFiles); [done|].
    destruct (storeFault env StoreGetFilesForRepairNotification); [done|].
    destruct (_ =? _)%nat; [done|].
    by destruct (waitGroup _ _) as [[[]|] w3].
  - intros o d. destruct o; split; vm_compute; reflexivity.
  - intros o d. destruct o; split; vm_compute; reflexivity.
Qed.

(** A tick that finds the flag set. *)
Lemma cycles_never_overlap_witness :
  tick (steadyEnv EventTypeFileHealthy None 0) []
       (with_cycleRunning true (tracking (pendingRecord 3 (Some "/lib/x"))))
  = (Done tt, with_cycleRunning true (tracking (pendingRecord 3 (Some "/lib/x")))).
Proof.
  apply (proj1 cycles_never_overlap
           (steadyEnv EventTypeFileHealthy None 0) []
           (with_cycleRunning true (tracking (pendingRecord 3 (Some "/lib/x"))))).
  reflexivity.
Defined.

(** ** Cancelling by hand: the edges *)

(** X1. [CancelHealthCheck] for a path without an active check returns the
    no-active-check error and changes nothing.  When the store write fails
    after the cancel function was called, the error is returned but the
    check stays cancelled and deregistered, and the record keeps the status
    it had.  A second cancellation of the same path finds no active check. *)
Theorem cancel_health_check_edges env p w :
  (activeChecks w !! p = None →
   CancelHealthCheck env p w
   = (Done (Some ("no active health check found for file: " +:+ p)), w))
  ∧ (∀ c e,
       activeChecks w !! p = Some c →
       storeFault env (StoreUpdateFileHealth p) = Some e →
       result (CancelHealthCheck env p) w
       = Done (Some (wrapErr "failed to update file status after cancellation" e))
       ∧ c ∈ cancelled (after (CancelHealthCheck env p) w)
       ∧ activeChecks (after (CancelHealthCheck env p) w) !! p = None
       ∧ store (after (CancelHealthCheck env p) w) = store w)
  ∧ (∀ c,
       activeChecks w !! p = Some c →
       CancelHealthCheck env p (after (CancelHealthCheck env p) w)
       = (Done (Some ("no active health check found for file: " +:+ p)),
          after (CancelHealthCheck env p) w)).
Proof.
  assert (Hnone : ∀ w0, activeChecks w0 !! p = None →
    CancelHealthCheck env p w0
    = (Done (Some ("no active health check found for file: " +:+ p)), w0)).
  { intros w0 H. unfold CancelHealthCheck, bind, gets. by rewrite H. }
  assert (Hgone : ∀ c, activeChecks w !! p = Some c →
    activeChecks (after (CancelHealthCheck env p) w) !! p = None).
  { intros c Hreg.
    unfold after, CancelHealthCheck, UpdateFileHealth, write, bind, modify, gets.
    rewrite Hreg.
    destruct (storeFault env (StoreUpdateFileHealth p)); simpl;
      apply lookup_delete_eq. }
  split; [apply Hnone|]. split.
  - intros c e Hreg Hfault. split; [|split; [|split; [by eapply Hgone|]]];
      unfold result, after, CancelHealthCheck, UpdateFileHealth, write, bind,
        modify, gets; rewrite Hreg, Hfault; simpl; [done | set_solver | done].
  - intros c Hreg. apply Hnone. by eapply Hgone.
Qed.

Lemma cancel_health_check_edges_witness :
  CancelHealthCheck (steadyEnv EventTypeFileHealthy None 0) "/m/x.mkv"
    (tracking (pendingRecord 3 None))
  = (Done (Some ("no active health check found for file: " +:+ "/m/x.mkv")),
     tracking (pendingRecord 3 None)).
Proof.
  apply (cancel_health_check_edges (steadyEnv EventTypeFileHealthy None 0)
           "/m/x.mkv" (tracking (pendingRecord 3 None))).
  reflexivity.
Defined.

(** ** Adding a file to the watch list *)

(** What [AddToHealthCheck] does to the world, case by case. *)
Lemma AddToHealthCheck_unfold env p src w :
  AddToHealthCheck env p src w
  = match storeFault env (StoreGetFileHealth p) with
    | Some e => (Done (Some (wrapErr "failed to check existing health record" e)), w)
    | None =>
        match store w !! p with
        | None =>
            match storeFault env (StoreUpdateFileHealth p) with
            | Some e =>
                (Done (Some (wrapErr "failed to add file to health database" e)), w)
            | None =>
                (Done None,
                 with_store <[p := Store.fresh (cfg env) (clock w) p HealthStatusPending
                                     None src None]> w)
            end
        | Some fh =>
            if decide (Status fh = HealthStatusPending) then (Done None, w)
            else
              match storeFault env (StoreUpdateFileHealth p) with
              | Some e =>
                  (Done (Some (wrapErr "failed to update file status to pending" e)), w)
              | None =>
                  (Done None,
                   with_store <[p := Store.update HealthStatusPending None src None
                                       false fh]> w)
              end
        end
    end.
Proof.
  unfold AddToHealthCheck, GetFileHealth, UpdateFileHealth, write, bind, ret.
  destruct (storeFault env (StoreGetFileHealth p)); [done|].
  destruct (store w !! p) as [fh|] eqn:Hrec.
  - destruct (decide (Status fh = HealthStatusPending)); [done|].
    destruct (storeFault env (StoreUpdateFileHealth p)); [done|].
    unfold with_store. simpl. by rewrite Hrec.
  - destruct (storeFault env (StoreUpdateFileHealth p)); [done|].
    unfold with_store. simpl. by rewrite Hrec.
Qed.

(** X2. With a working store, [AddToHealthCheck] leaves the path tracked and
    Pending and touches no other path.  A record that exists keeps its
    counters and bounds whatever its status was (Healthy and
    PermanentlyCorrupted included); a record that is Pending already is not
    written at all, so the source reference passed with the call is
    dropped. *)
Theorem add_to_health_check_makes_pending env p src w :
  storeFault env (StoreGetFileHealth p) = None →
  storeFault env (StoreUpdateFileHealth p) = None →
  result (AddToHealthCheck env p src) w = Done None
  ∧ (∃ fh', store (after (AddToHealthCheck env p src) w) !! p = Some fh'
            ∧ Status fh' = HealthStatusPending
            ∧ ∀ fh, store w !! p = Some fh → counters fh' = counters fh)
  ∧ (∀ q, q ≠ p → store (after (AddToHealthCheck env p src) w) !! q = store w !! q)
  ∧ (∀ fh, store w !! p = Some fh → Status fh = HealthStatusPending →
           after (AddToHealthCheck env p src) w = w)
  ∧ trace (after (AddToHealthCheck env p src) w) = trace w.
Proof.
  intros Hget Hupd. unfold result, after. rewrite AddToHealthCheck_unfold, Hget, Hupd.
  destruct (store w !! p) as [fh|] eqn:Hrec.
  - destruct (decide (Status fh = HealthStatusPending)) as [Hs|Hs]; simpl.
    + split; [done|]. split; [|done].
      exists fh. split; [done|]. split; [done|]. by intros ? [= <-].
    + split; [done|]. split; [|split; [|split]]; try done.
      * rewrite lookup_insert_eq. eexists. split; [done|]. split; [done|].
        by intros ? [= <-].
      * intros q Hq. by rewrite lookup_insert_ne.
      * by intros ? [= <-] ?.
  - simpl. split; [done|]. split; [|split; [|split]]; try done.
    + rewrite lookup_insert_eq. eexists. split; [done|]. by split.
    + intros q Hq. by rewrite lookup_insert_ne.
Qed.

Lemma add_to_health_check_witness :
  result (AddToHealthCheck (steadyEnv EventTypeFileHealthy None 0) "/m/y.mkv"
            (Some "/nzb/y.nzb"))
         (tracking (pendingRecord 3 None))
  = Done None.
Proof.
  apply (add_to_health_check_makes_pending (steadyEnv EventTypeFileHealthy None 0)
           "/m/y.mkv" (Some "/nzb/y.nzb") (tracking (pendingRecord 3 None)));
    reflexivity.
Defined.

(** X3. [AddToHealthCheck] is idempotent: a second call for the same path,
    with any source reference, leaves the world the first call left,
    whether the store works or fails. *)
Theorem add_to_health_check_idempotent env p src src' w :
  after (AddToHealthCheck env p src')
        (after (AddToHealthCheck env p src) w)
  = after (AddToHealthCheck env p src) w.
Proof.
  unfold after. rewrite (AddToHealthCheck_unfold env p src w).
  destruct (storeFault env (StoreGetFileHealth p)) eqn:Hget; simpl.
  { by rewrite AddToHealthCheck_unfold, Hget. }
  destruct (store w !! p) as [fh|] eqn:Hrec.
  - destruct (decide (Status fh = HealthStatusPending)) as [Hs|Hs]; simpl.
    { rewrite AddToHealthCheck_unfold, Hget, Hrec. by rewrite decide_True. }
    destruct (storeFault env (StoreUpdateFileHealth p)) eqn:Hupd; simpl.
    { rewrite AddToHealthCheck_unfold, Hget, Hrec, Hupd. by rewrite decide_False. }
    rewrite AddToHealthCheck_unfold, Hget. simpl. rewrite lookup_insert_eq.
    by rewrite decide_True.
  - destruct (storeFault env (StoreUpdateFileHealth p)) eqn:Hupd; simpl.
    { by rewrite AddToHealthCheck_unfold, Hget, Hrec, Hupd. }
    rewrite AddToHealthCheck_unfold, Hget. simpl. rewrite lookup_insert_eq.
    by rewrite decide_True.
Qed.

(** ** Starting and stopping *)

(** X4. [Start] on a running worker returns the already-running error and
    changes nothing.  On a stopped worker it succeeds whether or not the
    reset of the store works: the worker is running, its status and the
    status in the statistics are Running and the last error of the
    statistics is cleared.  When the reset works no record is left in
    Checking: those that were are Pending, with every other field as it
    was, and the others are untouched; when it fails the store is as it
    was.  The registry, the trace and the stop channel are not touched. *)
Theorem start_resets_checking resetFault hw :
  (running hw = true →
   Start resetFault hw = (Done (Some "health worker already running"), hw))
  ∧ (running hw = false →
     (Start resetFault hw).1 = Done None
     ∧ IsRunning (Start resetFault hw).2 = true
     ∧ GetStatus (Start resetFault hw).2 = WorkerStatusRunning
     ∧ StatsStatus (stats (world (Start resetFault hw).2)) = WorkerStatusRunning
     ∧ StatsLastError (stats (world (Start resetFault hw).2)) = None
     ∧ (resetFault = None →
        ∀ p, store (world (Start resetFault hw).2) !! p
             = resetChecking <$> store (world hw) !! p)
     ∧ (resetFault = None →
        ∀ p fh, store (world (Start resetFault hw).2) !! p = Some fh →
                Status fh ≠ HealthStatusChecking)
     ∧ (is_Some resetFault →
        store (world (Start resetFault hw).2) = store (world hw))
     ∧ activeChecks (world (Start resetFault hw).2) = activeChecks (world hw)
     ∧ trace (world (Start resetFault hw).2) = trace (world hw)
     ∧ stopChanClosed (world (Start resetFault hw).2) = stopChanClosed (world hw)).
Proof.
  split; intros Hrun; unfold Start; rewrite Hrun; [done|].
  unfold IsRunning, GetStatus, after, ResetFileAllChecking. simpl.
  destruct resetFault as [e|]; simpl; repeat split; try done.
  - intros _ p. apply lookup_fmap.
  - intros _ p fh. rewrite lookup_fmap.
    destruct (store (world hw) !! p) as [fh0|]; [|done].
    intros [= <-]. unfold resetChecking.
    by destruct (Status fh0) eqn:Hs; simpl; rewrite ?Hs.
Qed.

Lemma start_resets_checking_witness :
  IsRunning
    (Start None
       (NewHealthWorker
          {[ "/m/x.mkv" := Store.set_status HealthStatusChecking (pendingRecord 3 None) ]}
          0)).2
  = true.
Proof.
  apply (start_resets_checking None
           (NewHealthWorker
              {[ "/m/x.mkv" := Store.set_status HealthStatusChecking (pendingRecord 3 None) ]}
              0)).
  reflexivity.
Defined.



Lemma Start_fields resetFault hw :
  running hw = false →
  running (Start resetFault hw).2 = true
  ∧ status (Start resetFault hw).2 = WorkerStatusRunning
  ∧ stopChanClosed (world (Start resetFault hw).2) = stopChanClosed (world hw)
  ∧ cycleRunning (world (Start resetFault hw).2) = cycleRunning (world hw).
Proof.
  intros Hrun. unfold Start, after, ResetFileAllChecking. rewrite Hrun.
  by destruct resetFault.
Qed.

Lemma Stop_fields loopBusy hw :
  running hw = true →
  stopChanClosed (world hw) = false →
  loopBusy || cycleRunning (world hw) = false →
  (Stop loopBusy hw).1 = Completed (Done None)
  ∧ running (Stop loopBusy hw).2 = false
  ∧ stopChanClosed (world (Stop loopBusy hw).2) = true.
Proof.
  intros Hrun Hopen Hidle. unfold Stop. rewrite Hrun. simpl. rewrite Hopen. simpl.
  by rewrite Hidle.
Qed.

(** X6. The stop channel is made once, by [NewHealthWorker], and [Start]
    does not make a new one.  So a worker that was started, stopped (the
    loop being idle, so that [Stop] returns) and started again reports
    itself running while its loop returns on the first pass, before any
    tick, cycle or call; and stopping it again panics on the close of the
    closed channel, whatever the loop does. *)
Theorem restarted_worker_never_cycles resetFault resetFault' loopBusy loopBusy' hw :
  running hw = false →
  stopChanClosed (world hw) = false →
  loopBusy || cycleRunning (world hw) = false →
  (Stop loopBusy (Start resetFault hw).2).1 = Completed (Done None)
  ∧ IsRunning (Start resetFault' (Stop loopBusy (Start resetFault hw).2).2).2 = true
  ∧ GetStatus (Start resetFault' (Stop loopBusy (Start resetFault hw).2).2).2
    = WorkerStatusRunning
  ∧ (∀ fuel env ctx horizon,
       0 < getCheckInterval env →
       run (S fuel) env ctx horizon
         (world (Start resetFault' (Stop loopBusy (Start resetFault hw).2).2).2)
       = (Done true,
          world (Start resetFault' (Stop loopBusy (Start resetFault hw).2).2).2))
  ∧ (Stop loopBusy'
       (Start resetFault' (Stop loopBusy (Start resetFault hw).2).2).2).1
    = Completed Panicked.
Proof.
  intros Hrun Hopen Hidle.
  assert (Hclosed :
    (Stop loopBusy (Start resetFault hw).2).1 = Completed (Done None)
    ∧ stopChanClosed
        (world (Start resetFault' (Stop loopBusy (Start resetFault hw).2).2).2) = true
    ∧ running (Start resetFault' (Stop loopBusy (Start resetFault hw).2).2).2 = true
    ∧ status (Start resetFault' (Stop loopBusy (Start resetFault hw).2).2).2
      = WorkerStatusRunning).
  { destruct (Start_fields resetFault hw Hrun) as (Hr1 & _ & Hc1 & Hcy1).
    rewrite Hopen in Hc1. rewrite <- Hcy1 in Hidle.
    destruct (Stop_fields loopBusy _ Hr1 Hc1 Hidle) as (Hd2 & Hr2 & Hc2).
    destruct (Start_fields resetFault' _ Hr2) as (Hr3 & Hs3 & Hc3 & _).
    by rewrite Hc2 in Hc3. }
  destruct Hclosed as (Hd & Hc & Hr & Hs).
  set (hw3 := (Start resetFault' (Stop loopBusy (Start resetFault hw).2).2).2) in *.
  split; [exact Hd|]. split; [exact Hr|]. split; [exact Hs|]. split.
  - intros fuel env ctx horizon Hpos.
    unfold run. destruct (Z.leb_spec (getCheckInterval env) 0); [lia|].
    unfold bind at 1. unfold gets at 1. simpl.
    unfold bind, gets. rewrite Hc. by rewrite orb_true_r.
  - unfold Stop. rewrite Hr. simpl. by rewrite Hc.
Qed.

Lemma restarted_worker_never_cycles_witness :
  (Stop true (Start None (Stop false (Start None
     (NewHealthWorker {[ "/m/x.mkv" := pendingRecord 3 None ]} 0)).2).2).2).1
  = Completed Panicked.
Proof.
  apply (restarted_worker_never_cycles None None false true
           (NewHealthWorker {[ "/m/x.mkv" := pendingRecord 3 None ]} 0));
    reflexivity.
Defined.

(** ** More of the result handler and of the repair trigger *)

(** X7. In the repair phase a failed check (Corrupted or CheckFailed) is
    counted on [repair_retry_count] and recorded as [last_error], and the
    record becomes PermanentlyCorrupted exactly when
    [repair_retry_count >= max_repair_retries - 1], compared on the counter
    read before the increment; below that it stays RepairTriggered.  The
    handler makes no call to a collaborator in this phase and leaves
    [retry_count] alone. *)
Theorem repair_retries_exhausted env event w fh :
  failing event →
  store w !! EventFilePath event = Some fh →
  Status fh = HealthStatusRepairTriggered →
  - 2 ^ 63 < MaxRepairRetries fh < 2 ^ 63 →
  storeFault env (StoreGetFileHealth (EventFilePath event)) = None →
  storeFault env (StoreIncrementRepairRetryCount (EventFilePath event)) = None →
  storeFault env (StoreMarkAsCorrupted (EventFilePath event)) = None →
  result (handleHealthCheckResult env event) w = Done None
  ∧ emitted (handleHealthCheckResult env event) w = []
  ∧ ∃ fh',
      store (after (handleHealthCheckResult env event) w) !! EventFilePath event
      = Some fh'
      ∧ Status fh'
        = (if bool_decide (RepairRetryCount fh >= MaxRepairRetries fh - 1)
           then HealthStatusPermanentlyCorrupted
           else HealthStatusRepairTriggered)
      ∧ LastError fh' = Error event
      ∧ RepairRetryCount fh' = RepairRetryCount fh + 1
      ∧ RetryCount fh' = RetryCount fh.
Proof.
  intros Hf Hrec Hst Hmax Hget Hinc Hmark.
  unfold emitted, result, after.
  rewrite (handle_failure_repair_phase env event w fh) by done. cbv zeta.
  rewrite threshold_plain by done.
  destruct (decide (MaxRepairRetries fh - 1 ≤ RepairRetryCount fh)).
  - rewrite !bool_decide_eq_true_2 by lia.
    unfold bind, MarkAsCorrupted, write. rewrite Hmark. simpl.
    split; [done|]. split; [apply drop_all|].
    rewrite !lookup_alter_eq, Hrec. simpl. by eexists.
  - rewrite !bool_decide_eq_false_2 by lia. simpl.
    split; [done|]. split; [apply drop_all|].
    rewrite lookup_alter_eq, Hrec. simpl. by eexists.
Qed.

Lemma repair_retries_exhausted_witness :
  result (handleHealthCheckResult (steadyEnv EventTypeFileCorrupted None 0)
            (eventOf EventTypeCheckFailed))
         (tracking (Store.set_status HealthStatusRepairTriggered
                      (pendingRecord 3 (Some "/lib/x"))))
  = Done None.
Proof.
  apply (repair_retries_exhausted (steadyEnv EventTypeFileCorrupted None 0)
           (eventOf EventTypeCheckFailed)
           (tracking (Store.set_status HealthStatusRepairTriggered
                        (pendingRecord 3 (Some "/lib/x"))))
           (Store.set_status HealthStatusRepairTriggered
              (pendingRecord 3 (Some "/lib/x"))));
    [right; reflexivity | reflexivity | reflexivity | simpl; lia
    | reflexivity | reflexivity | reflexivity].
Defined.

(** X8. No probe outcome ever creates a record: for a path the store does not
    track, the handler leaves the store as it was, whatever the outcome and
    whichever collaborator fails.  A Healthy outcome for such a path is even
    accepted: once the metadata service took the status update, the handler
    returns no error, and that update is the only call it made. *)
Theorem outcome_creates_no_record env event w :
  store w !! EventFilePath event = None →
  store (after (handleHealthCheckResult env event) w) = store w
  ∧ (Type_ event = EventTypeFileHealthy →
     metadataErr env (EventFilePath event) = None →
     storeFault env (StoreGetFileHealth (EventFilePath event)) = None →
     handleHealthCheckResult env event w
     = (Done None, record (CallUpdateFileStatusHealthy (EventFilePath event)) w)).
Proof.
  intros Hrec. split.
  - unfold after, handleHealthCheckResult. cbv zeta.
    unfold bind, GetFileHealth, modify, ret.
    destruct (Type_ event); simpl;
      repeat first
        [ progress simpl
        | match goal with
          | |- context [storeFault ?e ?c] => destruct (storeFault e c)
          | |- context [metadataErr ?e ?p] => destruct (metadataErr e p)
          | |- context [store w !! ?p] => rewrite Hrec
          end ];
      done.
  - intros Ht Hmeta Hget. unfold handleHealthCheckResult. cbv zeta. rewrite Ht.
    unfold bind, GetFileHealth, modify, ret. rewrite Hmeta, Hget. simpl.
    by rewrite Hrec.
Qed.

Lemma outcome_creates_no_record_witness :
  store (after (handleHealthCheckResult (steadyEnv EventTypeFileHealthy None 0)
                  (eventOf EventTypeFileHealthy))
               (startWorld ∅))
  = store (startWorld ∅).
Proof.
  apply (outcome_creates_no_record (steadyEnv EventTypeFileHealthy None 0)
           (eventOf EventTypeFileHealthy) (startWorld ∅)).
  reflexivity.
Defined.

(** X9. [triggerFileRepair] reads the library path of the record without a
    nil check: it panics exactly when the lookup succeeds and finds no
    record.  The result handler and the single-file check never panic,
    whatever the store holds and whatever the collaborators answer. *)
Theorem only_a_missing_record_panics env p e w :
  (result (triggerFileRepair env p e) w = Panicked
   ↔ storeFault env (StoreGetFileHealth p) = None ∧ store w !! p = None)
  ∧ (∀ event, result (handleHealthCheckResult env event) w ≠ Panicked)
  ∧ (∀ ctx, result (performDirectCheck env ctx p) w ≠ Panicked).
Proof.
  split; [|split].
  - unfold result, triggerFileRepair, bind, modify, GetFileHealth. simpl.
    destruct (storeFault env (StoreGetFileHealth p)); simpl;
      [by split; [|intros [? ?]]|].
    destruct (store w !! p) as [fh|]; simpl; [|by split].
    destruct (LibraryPath fh) as [lib|]; simpl; [|by split; [|intros [? ?]]].
    destruct (decide (lib = "")); simpl; [by split; [|intros [? ?]]|].
    destruct (rescanErr env lib); simpl; [|by split; [|intros [? ?]]].
    unfold SetCorrupted, write.
    by destruct (storeFault env _); (split; [|intros [? ?]]).
  - intros event. destruct (handleHealthCheckResult_returns env event w) as [r ->].
    done.
  - intros ctx. destruct (performDirectCheck_returns env ctx p w) as [r ->]. done.
Qed.

(** X10. When the rescanner refuses, [triggerFileRepair] marks the record
    PermanentlyCorrupted with the rescanner's error and returns the result
    of that write: [nil] when the write worked.  So the repair-notification
    task takes the refusal for a success and does not count a repair
    retry. *)
Theorem refused_rescan_is_terminal env ctx e w fh lib err :
  store w !! FilePath fh = Some fh →
  LibraryPath fh = Some lib →
  lib ≠ "" →
  rescanErr env lib = Some err →
  storeFault env (StoreGetFileHealth (FilePath fh)) = None →
  storeFault env (StoreSetCorrupted (FilePath fh)) = None →
  result (triggerFileRepair env (FilePath fh) e) w = Done None
  ∧ emitted (triggerFileRepair env (FilePath fh) e) w
    = [CallTriggerRepair (FilePath fh); CallTriggerFileRescan lib]
  ∧ (∃ fh',
       store (after (triggerFileRepair env (FilePath fh) e) w) !! FilePath fh = Some fh'
       ∧ Status fh' = HealthStatusPermanentlyCorrupted
       ∧ LastError fh' = Some err
       ∧ counters fh' = counters fh)
  ∧ (ctxDone ctx w = false →
     processRepairNotification env ctx fh w
     = triggerFileRepair env (FilePath fh) None w).
Proof.
  intros Hrec Hlib Hne Herr Hget Hset.
  assert (E : ∀ e0, triggerFileRepair env (FilePath fh) e0 w
    = (Done None,
       with_store (alter (Store.mark_permanently_corrupted (Some err)) (FilePath fh))
         (record (CallTriggerFileRescan lib)
            (record (CallTriggerRepair (FilePath fh)) w)))).
  { intros e0. rewrite (triggerFileRepair_tracked env _ e0 w fh Hrec Hget). cbv zeta.
    rewrite Hlib. destruct (decide (lib = "")); [done|]. rewrite Herr.
    unfold SetCorrupted, write. by rewrite Hset. }
  unfold emitted, result, after. rewrite E. simpl.
  split; [done|]. split; [by rewrite <- app_assoc, drop_app_length|]. split.
  - rewrite lookup_alter_eq, Hrec. simpl. by eexists.
  - intros Hctx. unfold processRepairNotification, bind, gets. rewrite Hctx.
    by rewrite !E.
Qed.

Lemma refused_rescan_is_terminal_witness :
  result (triggerFileRepair
            (mkEnv defaultConfig (λ _, mkProbeRun 0 [] EventTypeFileCorrupted None)
               (λ _, None) (λ _, Some "movie not found in library") (λ _, None))
            "/m/x.mkv" None)
         (tracking (pendingRecord 3 (Some "/lib/x")))
  = Done None.
Proof.
  apply (refused_rescan_is_terminal
           (mkEnv defaultConfig (λ _, mkProbeRun 0 [] EventTypeFileCorrupted None)
              (λ _, None) (λ _, Some "movie not found in library") (λ _, None))
           [] None (tracking (pendingRecord 3 (Some "/lib/x")))
           (pendingRecord 3 (Some "/lib/x")) "/lib/x" "movie not found in library");
    [reflexivity | reflexivity | discriminate | reflexivity | reflexivity | reflexivity].
Defined.

(** ** What a computation keeps and how much it emits *)

Section Keeps.
Context {A B C : Type} (part : World → C).

Lemma keeps_ret (a : A) : keeps part (ret a).
Proof. by intros w. Qed.

Lemma keeps_panic : keeps part (@panic A).
Proof. by intros w. Qed.

Lemma keeps_gets (f : World → A) : keeps part (gets f).
Proof. by intros w. Qed.

Lemma keeps_bind (m : M A) (k : A → M B) :
  keeps part m → (∀ a, keeps part (k a)) → keeps part (bind m k).
Proof.
  intros Hm Hk w. specialize (Hm w). unfold after, bind in *.
  destruct (m w) as [[a|] w1]; simpl in *; [|done].
  rewrite <- Hm. apply Hk.
Qed.

Lemma keeps_deferring (d : World → World) (body : M A) :
  (∀ w, part (d w) = part w) → keeps part body → keeps part (deferring d body).
Proof.
  intros Hd Hb w. specialize (Hb w). unfold after, deferring in *.
  destruct (body w) as [r w1]; simpl in *. by rewrite Hd.
Qed.
End Keeps.

Lemma keeps_modify {C} (part : World → C) (f : World → World) :
  (∀ w, part (f w) = part w) → keeps part (modify f).
Proof. intros H w. apply H. Qed.

Lemma keeps_write {C} (part : World → C) env c (f : World → Table → Table) :
  (∀ g w, part (with_store g w) = part w) → keeps part (write env c f).
Proof.
  intros H w. unfold after, write. destruct (storeFault env c); simpl; [done|].
  apply H.
Qed.

(** Walks down a computation for [keeps]; the goals it leaves are about the
    calls it does not know and the steps that are not plainly neutral. *)
Ltac keeps_step :=
  lazymatch goal with
  | |- keeps _ (bind _ _) => apply keeps_bind; [| intros ?]
  | |- keeps _ (ret _) => apply keeps_ret
  | |- keeps _ panic => apply keeps_panic
  | |- keeps _ (gets _) => apply keeps_gets
  | |- keeps _ (deferring _ _) => apply keeps_deferring; [intros ?; reflexivity |]
  | |- keeps _ (modify _) => apply keeps_modify; intros ?; reflexivity
  | |- keeps _ (write _ _ _) => apply keeps_write; intros ? ?; reflexivity
  | |- keeps _ (match ?x with _ => _ end) => destruct x
  | |- keeps _ (let _ := _ in _) => cbv zeta
  end.

Lemma keeps_stats_GetFileHealth env p : keeps stats (GetFileHealth env p).
Proof. intros w. unfold after, GetFileHealth. by destruct (storeFault env _). Qed.

Lemma keeps_stats_triggerFileRepair env p e : keeps stats (triggerFileRepair env p e).
Proof.
  unfold triggerFileRepair, SetCorrupted.
  repeat first [keeps_step | apply keeps_stats_GetFileHealth].
Qed.

Lemma keeps_stats_handleHealthCheckResult env event :
  keeps stats (handleHealthCheckResult env event).
Proof.
  unfold handleHealthCheckResult, MarkAsHealthy, IncrementRetryCount,
    IncrementRepairRetryCount, MarkAsCorrupted.
  repeat first [keeps_step | apply keeps_stats_GetFileHealth
               | apply keeps_stats_triggerFileRepair].
Qed.

Lemma keeps_stats_operateAll env l : keeps stats (operateAll env l).
Proof.
  induction l as [|a l IH]; simpl; [apply keeps_ret|].
  apply keeps_bind; [|intros _; exact IH].
  destruct a; simpl; unfold CancelHealthCheck, UpdateFileHealth, callCancel;
    repeat keeps_step.
Qed.

Lemma keeps_stats_CheckFile env p : keeps stats (CheckFile env p).
Proof.
  unfold CheckFile. repeat first [keeps_step | apply keeps_stats_operateAll].
Qed.

Section Emits.
Context {A B : Type} (kind : Call → bool).

Lemma emitsAtMost_weaken (n n' : nat) (m : M A) :
  (n ≤ n')%nat → emitsAtMost kind n m → emitsAtMost kind n' m.
Proof. intros Hle H w. destruct (H w) as (l & Hl & Hc). exists l. split; [done|lia]. Qed.

Lemma emitsAtMost_ret (a : A) : emitsAtMost kind 0 (ret a).
Proof. intros w. exists []. simpl. by rewrite app_nil_r. Qed.

Lemma emitsAtMost_panic : emitsAtMost kind 0 (@panic A).
Proof. intros w. exists []. simpl. by rewrite app_nil_r. Qed.

Lemma emitsAtMost_gets (f : World → A) : emitsAtMost kind 0 (gets f).
Proof. intros w. exists []. simpl. by rewrite app_nil_r. Qed.

Lemma emitsAtMost_bind (n k : nat) (m : M A) (f : A → M B) :
  emitsAtMost kind n m → (∀ a, emitsAtMost kind k (f a)) →
  emitsAtMost kind (n + k) (bind m f).
Proof.
  intros Hm Hf w. destruct (Hm w) as (l1 & Hl1 & Hc1). unfold after, bind in *.
  destruct (m w) as [[a|] w1]; simpl in *.
  - destruct (Hf a w1) as (l2 & Hl2 & Hc2). exists (l1 ++ l2).
    unfold after in Hl2. rewrite Hl2, Hl1, app_assoc. split; [done|].
    unfold count in *. rewrite List.filter_app, length_app. lia.
  - exists l1. split; [done|lia].
Qed.

Lemma emitsAtMost_deferring (n : nat) (d : World → World) (body : M A) :
  (∀ w, trace (d w) = trace w) → emitsAtMost kind n body →
  emitsAtMost kind n (deferring d body).
Proof.
  intros Hd Hb w. destruct (Hb w) as (l & Hl & Hc). exists l.
  unfold after, deferring in *. destruct (body w) as [r w1]; simpl in *.
  by rewrite Hd.
Qed.
End Emits.

Lemma emitsAtMost_modify kind (f : World → World) :
  (∀ w, trace (f w) = trace w) → emitsAtMost kind 0 (modify f).
Proof. intros H w. exists []. unfold after. simpl. by rewrite H, app_nil_r. Qed.

Lemma emitsAtMost_record kind c :
  emitsAtMost kind (if kind c then 1 else 0) (modify (record c)).
Proof.
  intros w. exists [c]. split; [done|]. unfold count. simpl. by destruct (kind c).
Qed.

Lemma emitsAtMost_write kind env c (f : World → Table → Table) :
  emitsAtMost kind 0 (write env c f).
Proof.
  intros w. exists []. unfold after, write.
  destruct (storeFault env c); simpl; by rewrite app_nil_r.
Qed.

(** Walks down a computation that emits nothing of the kind. *)
Ltac quiet_step :=
  lazymatch goal with
  | |- emitsAtMost _ 0 (bind _ _) =>
      apply (emitsAtMost_bind _ 0 0); [| intros ?]
  | |- emitsAtMost _ 0 (ret _) => apply emitsAtMost_ret
  | |- emitsAtMost _ 0 panic => apply emitsAtMost_panic
  | |- emitsAtMost _ 0 (gets _) => apply emitsAtMost_gets
  | |- emitsAtMost _ 0 (deferring _ _) =>
      apply emitsAtMost_deferring; [intros ?; reflexivity |]
  | |- emitsAtMost ?k 0 (modify (record ?c)) => apply (emitsAtMost_record k c)
  | |- emitsAtMost _ 0 (modify _) => apply emitsAtMost_modify; intros ?; reflexivity
  | |- emitsAtMost _ 0 (write _ _ _) => apply emitsAtMost_write
  | |- emitsAtMost _ 0 (match ?x with _ => _ end) => destruct x
  | |- emitsAtMost _ 0 (let _ := _ in _) => cbv zeta
  end.

Lemma quiet_GetFileHealth kind env p : emitsAtMost kind 0 (GetFileHealth env p).
Proof.
  intros w. exists []. unfold after, GetFileHealth.
  destruct (storeFault env _); simpl; by rewrite app_nil_r.
Qed.

Lemma quiet_operateAll kind env l : emitsAtMost kind 0 (operateAll env l).
Proof.
  intros w. exists []. by rewrite operateAll_trace, app_nil_r.
Qed.

Lemma quiet_triggerFileRepair_notify env p e :
  emitsAtMost isNotify 0 (triggerFileRepair env p e).
Proof.
  unfold triggerFileRepair, SetCorrupted.
  repeat first [quiet_step | apply quiet_GetFileHealth].
Qed.

Lemma quiet_handleHealthCheckResult_notify env event :
  emitsAtMost isNotify 0 (handleHealthCheckResult env event).
Proof.
  unfold handleHealthCheckResult, MarkAsHealthy, IncrementRetryCount,
    IncrementRepairRetryCount, MarkAsCorrupted.
  repeat first [quiet_step | apply quiet_GetFileHealth
               | apply quiet_triggerFileRepair_notify].
Qed.

(** ** The accounting of a single check *)

(** X11.  [performDirectCheck] accounts for a check exactly when it returns
    no error: then the statistics are those of before with the check
    counted once under the probe's outcome, and the trace shows the probe
    first and the one notification last.  When it returns an error (a
    cancelled context, a result the handler could not store) the statistics
    are untouched and nobody is notified.  Either way the path is no longer
    registered and the check's own cancel function has been called. *)
Theorem check_is_accounted_with_its_result env ctx p w :
  let m := performDirectCheck env ctx p in
  let o := outcome (probe env p) in
  (result m w = Done None →
     stats (after m w) = Stats.fileChecked o (stats w) ∧
     ∃ l, emitted m w = CallCheckFile p :: l ++ [CallNotifyRcloneVFS p o] ∧
          count isNotify l = 0%nat)
  ∧ (result m w ≠ Done None →
     stats (after m w) = stats w ∧ count isNotify (emitted m w) = 0%nat)
  ∧ activeChecks (after m w) !! p = None
  ∧ nextCancel w ∈ cancelled (after m w).
Proof.
  cbv zeta. unfold emitted, result, after.
  rewrite performDirectCheck_unfold. cbv zeta. cbn [fst snd].
  destruct (ctxDone _ (checkInFlight p w)).
  { simpl. rewrite drop_all.
    split_and!; try done; [apply lookup_delete_eq | set_solver]. }
  pose proof (keeps_stats_CheckFile env p (checkInFlight p w)) as Hs.
  pose proof (CheckFile_trace env p (checkInFlight p w)) as Ht.
  fold (probeReturned env p w) in Hs, Ht. simpl in Hs, Ht.
  destruct (ctxDone _ (probeReturned env p w)).
  { simpl. rewrite Ht, drop_app_length, Hs.
    split_and!; try done; [apply lookup_delete_eq | set_solver]. }
  pose proof (keeps_stats_handleHealthCheckResult env
                {| Type_ := outcome (probe env p); EventFilePath := p;
                   Error := detail (probe env p) |} (probeReturned env p w)) as Hs'.
  destruct (quiet_handleHealthCheckResult_notify env
                {| Type_ := outcome (probe env p); EventFilePath := p;
                   Error := detail (probe env p) |} (probeReturned env p w))
    as (l & Hl & Hc).
  unfold after in Hs', Hl.
  destruct (handleHealthCheckResult env _ (probeReturned env p w)) as [[[e|]|] w3];
    simpl in *;
    rewrite Hl, Ht, <- ?app_assoc, drop_app_length, Hs', Hs;
    (split_and!; [| |apply lookup_delete_eq | set_solver]); try done.
  - intros _. split; [done|]. unfold count in *. simpl. lia.
  - intros _. split; [done|]. exists l. split; [done|lia].
  - intros _. split; [done|]. unfold count in *. simpl. lia.
Qed.

(** ** The work of one cycle *)

Ltac quiet_with tac := repeat first [quiet_step | tac].

(** Walks down a computation that emits at most one call of the kind: of
    the two sides of a bind one is quiet. *)
Ltac emits_one tac :=
  repeat first
    [ quiet_step
    | tac
    | lazymatch goal with
      | |- emitsAtMost ?k 1 (bind _ _) =>
          first [ apply (emitsAtMost_bind k 0 1); [solve [quiet_with tac] | intros ?]
                | apply (emitsAtMost_bind k 1 0); [| intros ?; solve [quiet_with tac]] ]
      | |- emitsAtMost _ 1 (deferring _ _) =>
          apply emitsAtMost_deferring; [intros ?; reflexivity |]
      | |- emitsAtMost ?k 1 (modify (record ?c)) => apply (emitsAtMost_record k c)
      | |- emitsAtMost _ 1 (match ?x with _ => _ end) => destruct x
      | |- emitsAtMost _ 1 (let _ := _ in _) => cbv zeta
      | |- emitsAtMost ?k 1 _ =>
          apply (emitsAtMost_weaken k 0 1); [lia | solve [quiet_with tac]]
      end ].

Lemma quiet_SetFileChecking kind env p : emitsAtMost kind 0 (SetFileChecking env p).
Proof.
  intros w. exists []. unfold after, SetFileChecking. rewrite app_nil_r.
  destruct (storeFault env _); [done|].
  destruct (store w !! p) as [fh|]; [|done]. by destruct (Status fh).
Qed.

Lemma emits_CheckFile_probe env p : emitsAtMost isCheckFile 1 (CheckFile env p).
Proof. intros w. exists [CallCheckFile p]. split; [apply CheckFile_trace | done]. Qed.

Lemma quiet_CheckFile_rescan env p : emitsAtMost isRescan 0 (CheckFile env p).
Proof. intros w. exists [CallCheckFile p]. split; [apply CheckFile_trace | done]. Qed.

Lemma quiet_triggerFileRepair_probe env p e :
  emitsAtMost isCheckFile 0 (triggerFileRepair env p e).
Proof.
  unfold triggerFileRepair, SetCorrupted.
  quiet_with ltac:(apply quiet_GetFileHealth).
Qed.

Lemma quiet_handleHealthCheckResult_probe env event :
  emitsAtMost isCheckFile 0 (handleHealthCheckResult env event).
Proof.
  unfold handleHealthCheckResult, MarkAsHealthy, IncrementRetryCount,
    IncrementRepairRetryCount, MarkAsCorrupted.
  quiet_with ltac:(first [apply quiet_GetFileHealth
                         | apply quiet_triggerFileRepair_probe]).
Qed.

Lemma emits_triggerFileRepair_rescan env p e :
  emitsAtMost isRescan 1 (triggerFileRepair env p e).
Proof.
  unfold triggerFileRepair, SetCorrupted.
  emits_one ltac:(apply quiet_GetFileHealth).
Qed.

Lemma emits_handleHealthCheckResult_rescan env event :
  emitsAtMost isRescan 1 (handleHealthCheckResult env event).
Proof.
  unfold handleHealthCheckResult, MarkAsHealthy, IncrementRetryCount,
    IncrementRepairRetryCount, MarkAsCorrupted.
  emits_one ltac:(first [apply quiet_GetFileHealth
                        | apply emits_triggerFileRepair_rescan]).
Qed.

Lemma emits_performDirectCheck_probe env ctx p :
  emitsAtMost isCheckFile 1 (performDirectCheck env ctx p).
Proof.
  unfold performDirectCheck, updateStats.
  emits_one ltac:(first [apply emits_CheckFile_probe
                        | apply quiet_handleHealthCheckResult_probe]).
Qed.

Lemma emits_performDirectCheck_rescan env ctx p :
  emitsAtMost isRescan 1 (performDirectCheck env ctx p).
Proof.
  unfold performDirectCheck, updateStats.
  emits_one ltac:(first [apply quiet_CheckFile_rescan
                        | apply emits_handleHealthCheckResult_rescan]).
Qed.

Lemma emits_checkTask_probe env ctx fh :
  emitsAtMost isCheckFile 1 (checkTask env ctx fh).
Proof.
  unfold checkTask, updateStats.
  emits_one ltac:(first [apply quiet_SetFileChecking
                        | apply emits_performDirectCheck_probe]).
Qed.

Lemma emits_checkTask_rescan env ctx fh :
  emitsAtMost isRescan 1 (checkTask env ctx fh).
Proof.
  unfold checkTask, updateStats.
  emits_one ltac:(first [apply quiet_SetFileChecking
                        | apply emits_performDirectCheck_rescan]).
Qed.

Lemma quiet_repairTask_probe env ctx fh :
  emitsAtMost isCheckFile 0 (repairTask env ctx fh).
Proof.
  unfold repairTask, processRepairNotification, updateStats,
    IncrementRepairRetryCount.
  quiet_with ltac:(apply quiet_triggerFileRepair_probe).
Qed.

Lemma emits_repairTask_rescan env ctx fh :
  emitsAtMost isRescan 1 (repairTask env ctx fh).
Proof.
  unfold repairTask, processRepairNotification, updateStats,
    IncrementRepairRetryCount.
  emits_one ltac:(apply emits_triggerFileRepair_rescan).
Qed.

(** [Wait] leaves the world the tasks leave one after the other, whether
    one of them panicked or not. *)
Lemma waitGroup_after_cons (task : M unit) rest w :
  after (waitGroup (task :: rest)) w = after (waitGroup rest) (after task w).
Proof. unfold after. simpl. by destruct (task w) as [[[]|] w1]. Qed.

Lemma emitsAtMost_waitGroup kind n (tasks : list (M unit)) :
  Forall (emitsAtMost kind n) tasks →
  emitsAtMost kind (length tasks * n) (waitGroup tasks).
Proof.
  induction 1 as [|task rest Ht _ IH]; [apply emitsAtMost_ret|].
  intros w. rewrite waitGroup_after_cons.
  destruct (Ht w) as (l1 & Hl1 & Hc1).
  destruct (IH (after task w)) as (l2 & Hl2 & Hc2).
  exists (l1 ++ l2). rewrite Hl2, Hl1, app_assoc. split; [done|].
  unfold count in *. rewrite List.filter_app, length_app. simpl. lia.
Qed.

Lemma waitGroup_after_app (l1 l2 : list (M unit)) : ∀ w,
  after (waitGroup (l1 ++ l2)) w = after (waitGroup l2) (after (waitGroup l1) w).
Proof.
  induction l1 as [|task rest IH]; intros w; [done|].
  by rewrite <- app_comm_cons, !waitGroup_after_cons, IH.
Qed.

Lemma emitsAtMost_waitGroup_app kind n1 n2 (l1 l2 : list (M unit)) :
  emitsAtMost kind n1 (waitGroup l1) → emitsAtMost kind n2 (waitGroup l2) →
  emitsAtMost kind (n1 + n2) (waitGroup (l1 ++ l2)).
Proof.
  intros H1 H2 w. rewrite waitGroup_after_app.
  destruct (H1 w) as (k1 & Hk1 & Hc1).
  destruct (H2 (after (waitGroup l1) w)) as (k2 & Hk2 & Hc2).
  exists (k1 ++ k2). rewrite Hk2, Hk1, app_assoc. split; [done|].
  unfold count in *. rewrite List.filter_app, length_app. lia.
Qed.

Lemma emits_tasks kind a b env ctx (unhealthyFiles repairFiles : list FileHealth) :
  (∀ fh, emitsAtMost kind a (checkTask env ctx fh)) →
  (∀ fh, emitsAtMost kind b (repairTask env ctx fh)) →
  emitsAtMost kind (length unhealthyFiles * a + length repairFiles * b)
    (waitGroup (map (checkTask env ctx) unhealthyFiles
                  ++ map (repairTask env ctx) repairFiles)).
Proof.
  intros Ha Hb. apply emitsAtMost_waitGroup_app.
  - rewrite <- (length_map (checkTask env ctx)). apply emitsAtMost_waitGroup.
    apply Forall_forall. intros t Ht.
    apply list_elem_of_In, in_map_iff in Ht. destruct Ht as (fh & <- & _). apply Ha.
  - rewrite <- (length_map (repairTask env ctx)). apply emitsAtMost_waitGroup.
    apply Forall_forall. intros t Ht.
    apply list_elem_of_In, in_map_iff in Ht. destruct Ht as (fh & <- & _). apply Hb.
Qed.

Lemma getMaxConcurrentJobs_pos env : 0 < getMaxConcurrentJobs env.
Proof.
  unfold getMaxConcurrentJobs. destruct (MaxConcurrentJobs (cfg env)) as [n|]; [|lia].
  destruct (0 <? n) eqn:E; [|lia]. by apply Z.ltb_lt.
Qed.

(** What a cycle adds to the trace: the two batch queries, then what its
    tasks add. *)
Lemma cycle_trace env ctx w :
  ∃ l, emitted (runHealthCheckCycle env ctx) w
       = CallGetUnhealthyFiles (getMaxConcurrentJobs env) :: l
     ∧ (l = [] ∨
        ∃ l', l = CallGetFilesForRepairNotification (getMaxConcurrentJobs env) :: l'
          ∧ ∀ kind a b,
              (∀ fh, emitsAtMost kind a (checkTask env ctx fh)) →
              (∀ fh, emitsAtMost kind b (repairTask env ctx fh)) →
              (count kind l' ≤
                 length (Store.fetch_due_for_check (clock w)
                           (getMaxConcurrentJobs env) (store w)) * a
                 + length (Store.fetch_due_for_repair (clock w)
                             (getMaxConcurrentJobs env) (store w)) * b)%nat).
Proof.
  unfold emitted, after. rewrite runHealthCheckCycle_unfold. cbv zeta.
  destruct (storeFault env StoreGetUnhealthyFiles).
  { exists []. simpl. rewrite drop_app_length. split; [done|by left]. }
  destruct (storeFault env StoreGetFilesForRepairNotification).
  { eexists. simpl. rewrite <- app_assoc, drop_app_length. simpl.
    split; [done|right]. exists []. split; [done|]. intros. unfold count. simpl. lia. }
  destruct (_ =? _)%nat.
  { eexists. simpl. rewrite <- app_assoc, drop_app_length. simpl.
    split; [done|right]. exists []. split; [done|]. intros. unfold count. simpl. lia. }
  set (tasks := map _ _ ++ map _ _).
  set (w2 := record _ (record _ _)).
  assert (Hw2 : trace w2 = trace w
                  ++ [CallGetUnhealthyFiles (getMaxConcurrentJobs env);
                      CallGetFilesForRepairNotification (getMaxConcurrentJobs env)]).
  { subst w2. simpl. by rewrite <- app_assoc. }
  assert (Htr : ∃ l', trace (after (waitGroup tasks) w2) = trace w2 ++ l'
                ∧ ∀ kind a b,
              (∀ fh, emitsAtMost kind a (checkTask env ctx fh)) →
              (∀ fh, emitsAtMost kind b (repairTask env ctx fh)) →
              (count kind l' ≤
                 length (Store.fetch_due_for_check (clock w)
                           (getMaxConcurrentJobs env) (store w)) * a
                 + length (Store.fetch_due_for_repair (clock w)
                             (getMaxConcurrentJobs env) (store w)) * b)%nat).
  { destruct (emits_tasks isCheckFile 1 0 env ctx
                (Store.fetch_due_for_check (clock w) (getMaxConcurrentJobs env) (store w))
                (Store.fetch_due_for_repair (clock w) (getMaxConcurrentJobs env) (store w))
                (emits_checkTask_probe env ctx) (quiet_repairTask_probe env ctx) w2)
      as (l' & Hl' & _).
    exists l'. split; [exact Hl'|]. intros kind a b Ha Hb.
    destruct (emits_tasks kind a b env ctx
                (Store.fetch_due_for_check (clock w) (getMaxConcurrentJobs env) (store w))
                (Store.fetch_due_for_repair (clock w) (getMaxConcurrentJobs env) (store w))
                Ha Hb w2) as (l'' & Hl'' & Hc).
    rewrite Hl' in Hl''. apply app_inv_head in Hl''. by subst l''. }
  destruct Htr as (l' & Hl' & Hc). unfold after in Hl'.
  destruct (waitGroup tasks w2) as [[[]|] w3]; simpl in *;
    rewrite Hl', Hw2, <- app_assoc, drop_app_length; simpl;
    (eexists; split; [done|right]; exists l'; by split).
Qed.

(** X12.  The work of one cycle is bounded by the batch size.  The batch
    size [getMaxConcurrentJobs] is at least 1; a cycle runs the probe at
    most that many times, once per row of the check batch, and asks for at
    most one rescan per row of either batch, so at most twice that many.
    This holds whatever the probes, the operator and the collaborators do,
    and whether the cycle ends with an error, a panic or neither. *)
Theorem cycle_work_is_bounded env ctx w :
  let batch := Z.to_nat (getMaxConcurrentJobs env) in
  let calls := emitted (runHealthCheckCycle env ctx) w in
  (1 ≤ batch)%nat
  ∧ (count isCheckFile calls ≤ batch)%nat
  ∧ (count isRescan calls ≤ 2 * batch)%nat.
Proof.
  cbv zeta. pose proof (getMaxConcurrentJobs_pos env) as Hpos.
  split; [lia|].
  assert (Hc : (length (Store.fetch_due_for_check (clock w)
                          (getMaxConcurrentJobs env) (store w))
                ≤ Z.to_nat (getMaxConcurrentJobs env))%nat).
  { unfold Store.fetch_due_for_check. rewrite length_take. lia. }
  assert (Hr : (length (Store.fetch_due_for_repair (clock w)
                          (getMaxConcurrentJobs env) (store w))
                ≤ Z.to_nat (getMaxConcurrentJobs env))%nat).
  { unfold Store.fetch_due_for_repair. rewrite length_take. lia. }
  destruct (cycle_trace env ctx w) as (l & -> & [-> | (l' & -> & Hl')]).
  { unfold count. simpl. lia. }
  pose proof (Hl' isCheckFile 1%nat 0%nat
                (emits_checkTask_probe env ctx) (quiet_repairTask_probe env ctx)) as H1.
  pose proof (Hl' isRescan 1%nat 1%nat
                (emits_checkTask_rescan env ctx) (emits_repairTask_rescan env ctx)) as H2.
  unfold count in *. simpl. lia.
Qed.

(** ** The statistics a cycle leaves *)

(** X13.  A cycle that returns no error closes its statistics from the
    time it started, not from the time it ended: [LastRunTime] is the start
    time and [NextRunTime] the start time plus the check interval, however
    long the probes took; the progress fields are cleared.  A cycle that
    returns an error (a batch query failed) leaves [LastRunTime] and
    [NextRunTime] as they were and [CurrentRunStartTime] set to its start
    time, although no cycle is running any more. *)
Theorem cycle_statistics_date_from_its_start env ctx w :
  let m := runHealthCheckCycle env ctx in
  let s := stats (after m w) in
  (result m w = Done None →
     LastRunTime s = Some (clock w)
     ∧ NextRunTime s = Some (clock w + getCheckInterval env)
     ∧ CurrentRunStartTime s = None
     ∧ CurrentRunFilesChecked s = 0)
  ∧ (∀ e, result m w = Done (Some e) →
     LastRunTime s = LastRunTime (stats w)
     ∧ NextRunTime s = NextRunTime (stats w)
     ∧ CurrentRunStartTime s = Some (clock w)
     ∧ IsCycleRunning (after m w) = false).
Proof.
  cbv zeta. unfold result, after. rewrite runHealthCheckCycle_unfold. cbv zeta.
  destruct (storeFault env StoreGetUnhealthyFiles); [by split|].
  destruct (storeFault env StoreGetFilesForRepairNotification); [by split|].
  destruct (_ =? _)%nat; [by split|].
  by destruct (waitGroup _ _) as [[[]|] w3]; split.
Qed.

(** ** The configured interval and batch size *)

(** X14.  The period of the loop.  A configured interval that is not
    positive gives 5 seconds; one of up to 9223372036 seconds gives that
    many seconds, so a period of at least a second.  Beyond that the
    product no longer fits an int64 and wraps.  Whenever the period that
    comes out is not positive, the loop panics as it creates its ticker,
    before it looks at the context or the stop channel, and the world is
    left as it was; otherwise it does not panic there.  The period is not
    positive exactly when the wrapped product is not: in the first band
    above the int64 range, for one, and for the largest int64. *)
Theorem check_interval_edges env :
  let seconds := CheckIntervalSeconds (cfg env) in
  (seconds <= 0 → getCheckInterval env = 5 * Second)
  ∧ (0 < seconds <= 9223372036 →
     getCheckInterval env = seconds * Second ∧ Second <= getCheckInterval env)
  ∧ (0 < seconds → getCheckInterval env = wrap64 (seconds * Second))
  ∧ (getCheckInterval env <= 0 →
     ∀ fuel ctx horizon w, run fuel env ctx horizon w = (Panicked, w))
  ∧ (0 < getCheckInterval env →
     ∀ fuel ctx horizon w,
       run fuel env ctx horizon w
       = runLoop fuel env ctx (getCheckInterval env) horizon
           (clock w + getCheckInterval env) w)
  ∧ (getCheckInterval env <= 0 ↔ 0 < seconds ∧ wrap64 (seconds * Second) <= 0)
  ∧ (2 ^ 63 <= seconds * Second < 2 ^ 64 → getCheckInterval env < 0)
  ∧ (seconds = 2 ^ 63 - 1 → getCheckInterval env = - Second).
Proof.
  cbv zeta.
  assert (Hpos : 0 < CheckIntervalSeconds (cfg env) →
                 getCheckInterval env
                 = wrap64 (CheckIntervalSeconds (cfg env) * Second)).
  { intros H. unfold getCheckInterval. apply Z.leb_gt in H. by rewrite H. }
  assert (Hneg : CheckIntervalSeconds (cfg env) <= 0 →
                 getCheckInterval env = 5 * Second).
  { intros H. unfold getCheckInterval. apply Z.leb_le in H. by rewrite H. }
  split_and!.
  - exact Hneg.
  - intros [H1 H2]. rewrite Hpos by done.
    rewrite wrap64_id; [unfold Second; lia|]. unfold int64_range, Second. lia.
  - exact Hpos.
  - intros Hle fuel ctx horizon w. unfold run.
    apply Z.leb_le in Hle. by rewrite Hle.
  - intros Hlt fuel ctx horizon w. unfold run.
    apply Z.leb_gt in Hlt. by rewrite Hlt.
  - split.
    + intros Hle. destruct (Z.le_gt_cases (CheckIntervalSeconds (cfg env)) 0) as [H|H].
      * rewrite Hneg in Hle by done. unfold Second in Hle. lia.
      * split; [lia|]. rewrite <- Hpos by lia. done.
    + intros [H1 H2]. by rewrite Hpos.
  - intros [H1 H2].
    assert (H0 : 0 < CheckIntervalSeconds (cfg env)) by (unfold Second in *; lia).
    rewrite Hpos by done. unfold wrap64.
    replace (CheckIntervalSeconds (cfg env) * Second + 2 ^ 63)
      with (CheckIntervalSeconds (cfg env) * Second - 2 ^ 63 + 1 * 2 ^ 64) by lia.
    rewrite Z.mod_add by lia. rewrite Z.mod_small by lia. lia.
  - intros Hs. rewrite Hpos by lia. rewrite Hs. reflexivity.
Qed.

Lemma check_interval_edges_witness :
  getCheckInterval (withCheckInterval 0 (steadyEnv EventTypeFileHealthy None 0))
    = 5 * Second
  ∧ getCheckInterval (withCheckInterval 60 (steadyEnv EventTypeFileHealthy None 0))
    = 60 * Second
  ∧ result (run 3 (withCheckInterval 9223372037 (steadyEnv EventTypeFileHealthy None 0))
              [] Hour) (startWorld ∅) = Panicked
  ∧ result (run 3 (withCheckInterval (2 ^ 63 - 1)
                     (steadyEnv EventTypeFileHealthy None 0))
              [] Hour) (startWorld ∅) = Panicked.
Proof.
  split_and!.
  - apply (check_interval_edges
             (withCheckInterval 0 (steadyEnv EventTypeFileHealthy None 0))). simpl. lia.
  - apply (check_interval_edges
             (withCheckInterval 60 (steadyEnv EventTypeFileHealthy None 0))). simpl. lia.
  - destruct (check_interval_edges
                (withCheckInterval 9223372037 (steadyEnv EventTypeFileHealthy None 0)))
      as (_ & _ & _ & Hpanic & _ & _ & Hband & _).
    unfold result. rewrite Hpanic; [reflexivity|].
    apply Z.lt_le_incl, Hband. simpl. unfold Second. lia.
  - destruct (check_interval_edges
                (withCheckInterval (2 ^ 63 - 1) (steadyEnv EventTypeFileHealthy None 0)))
      as (_ & _ & _ & Hpanic & _ & _ & _ & Hmax).
    unfold result. rewrite Hpanic; [reflexivity|].
    rewrite Hmax; [unfold Second; lia | reflexivity].
Defined.

(** ** The check phase never counts a repair retry *)








(** ** The background check *)

(** The goroutine of the background check, step by step. *)
Lemma backgroundCheck_unfold env p w :
  backgroundCheck env p w
  = let c := nextCancel w in
    match performDirectCheck env [c] p (with_nextCancel (S c) w) with
    | (Done None, w1) => (Done tt, callCancel c w1)
    | (Done (Some e), w1) =>
        let sourceNzb :=
          match storeFault env (StoreGetFileHealth p) with
          | Some _ => None
          | None => match store w1 !! p with
                    | Some fileHealth => SourceNzbPath fileHealth
                    | None => None
                    end
          end in
        (Done tt,
         callCancel c
           (after (UpdateFileHealth env p HealthStatusPending (Some e) sourceNzb
                     None false) w1))
    | (Panicked, w1) => (Panicked, callCancel c w1)
    end.
Proof.
  cbv zeta. unfold backgroundCheck. unfold bind at 1. unfold gets at 1.
  unfold bind at 1. unfold modify at 1. unfold deferring. unfold bind at 1.
  destruct (performDirectCheck env [nextCancel w] p _) as [[[e|]|] w1]; try reflexivity.
  unfold bind at 1. unfold GetFileHealth, after.
  destruct (storeFault env (StoreGetFileHealth p)).
  - unfold bind, UpdateFileHealth, write.
    by destruct (storeFault env (StoreUpdateFileHealth p)).
  - unfold bind, UpdateFileHealth, write.
    by destruct (store w1 !! p) as [fh|];
      destruct (storeFault env (StoreUpdateFileHealth p)).
Qed.

(** X16.  [PerformBackgroundCheck] refuses when the worker is not running
    and changes nothing.  When it is running it returns nil and the worker
    stays running, whatever the check does: the check never panics.  A
    check that returned no error leaves the store as the check left it.  A
    check that returned an error [e] (it was cancelled, or its result could
    not be stored) is reported in the record: when the store answers, the
    record of the path afterwards is Pending with [last_error = e]; it keeps
    the source path, the library path and the four counters of the record
    the check left, and is created when the check left none. *)
Theorem background_check_reports_in_the_record env p hw :
  let c := nextCancel (world hw) in
  let m := performDirectCheck env [c] p in
  let w0 := with_nextCancel (S c) (world hw) in
  let r := PerformBackgroundCheck env p hw in
  (IsRunning hw = false → r = (Done (Some "health worker is not running"), hw))
  ∧ (IsRunning hw = true →
     r.1 = Done None
     ∧ IsRunning r.2 = true
     ∧ GetStatus r.2 = GetStatus hw
     ∧ (result m w0 = Done None → store (world r.2) = store (after m w0))
     ∧ (∀ e, result m w0 = Done (Some e) →
          storeFault env (StoreGetFileHealth p) = None →
          storeFault env (StoreUpdateFileHealth p) = None →
          ∃ fh', store (world r.2) !! p = Some fh'
                 ∧ Status fh' = HealthStatusPending
                 ∧ LastError fh' = Some e
                 ∧ (∀ fh, store (after m w0) !! p = Some fh →
                      SourceNzbPath fh' = SourceNzbPath fh
                      ∧ LibraryPath fh' = LibraryPath fh
                      ∧ counters fh' = counters fh)
                 ∧ (store (after m w0) !! p = None →
                      fh' = Store.fresh (cfg env) (clock (after m w0)) p
                              HealthStatusPending (Some e) None None))).
Proof.
  cbv zeta. unfold PerformBackgroundCheck, IsRunning, GetStatus.
  split; [by intros ->|]. intros Hrun. rewrite Hrun. simpl.
  rewrite backgroundCheck_unfold. cbv zeta.
  destruct (performDirectCheck_returns env [nextCancel (world hw)] p
              (with_nextCancel (S (nextCancel (world hw))) (world hw))) as [r Hr].
  unfold result, after in *.
  destruct (performDirectCheck env [nextCancel (world hw)] p _) as [o w1].
  simpl in Hr. subst o. destruct r as [e|]; simpl.
  - split_and!; try done. intros e' [= <-] Hget Hupd.
    rewrite Hget. unfold UpdateFileHealth, write. rewrite Hupd. simpl.
    destruct (store w1 !! p) as [fh|] eqn:Hrec; rewrite lookup_insert_eq.
    + eexists. split_and!; try done. by intros fh' [= <-].
    + eexists. split_and!; try done.
  - split_and!; try done.
Qed.

Lemma background_check_witness :
  let fh := pendingRecord 3 (Some "/lib/x.mkv") in
  let env := withOperatorCancelling (steadyEnv EventTypeFileCorrupted None Minute) in
  ∃ fh', store (world (PerformBackgroundCheck env "/m/x.mkv"
                         (runningOver (tracking fh))).2) !! "/m/x.mkv" = Some fh'
         ∧ Status fh' = HealthStatusPending
         ∧ LastError fh' = Some ctxErr.
Proof.
  cbv zeta.
  destruct (background_check_reports_in_the_record
              (withOperatorCancelling (steadyEnv EventTypeFileCorrupted None Minute))
              "/m/x.mkv"
              (runningOver (tracking (pendingRecord 3 (Some "/lib/x.mkv")))))
    as [_ H].
  destruct (H eq_refl) as (_ & _ & _ & _ & H5).
  destruct (H5 ctxErr) as (fh' & H1 & H2 & H3 & _);
    [by vm_compute | reflexivity | reflexivity |].
  exists fh'. by split_and!.
Defined.

(** X17.  A background check of a path that is not tracked, whose probe
    reports a failure while nobody interferes, registers the path: the
    result handler refuses with `record not found' and writes nothing, and
    the background check then stores that refusal as the [last_error] of a
    new Pending record, created when the probe returned. *)
Theorem background_check_registers_untracked_path env p hw :
  IsRunning hw = true →
  store (world hw) !! p = None →
  cancelsInOrder (world hw) →
  during (probe env p) = [] →
  outcome (probe env p) ≠ EventTypeFileHealthy →
  storeFault env (StoreGetFileHealth p) = None →
  storeFault env (StoreUpdateFileHealth p) = None →
  store (world (PerformBackgroundCheck env p hw).2) !! p
  = Some (Store.fresh (cfg env) (clock (world hw) + took (probe env p)) p
            HealthStatusPending
            (Some (wrapErr "failed to handle health check result"
                     ("file health record not found for file: " +:+ p)))
            None None).
Proof.
  intros Hrun Hrec Hord Hduring Hout Hget Hupd.
  unfold PerformBackgroundCheck. rewrite Hrun. simpl.
  rewrite backgroundCheck_unfold. cbv zeta.
  set (c := nextCancel (world hw)).
  set (w0 := with_nextCancel (S c) (world hw)).
  assert (Hc : ∀ c', (c ≤ c')%nat → bool_decide (c' ∈ cancelled (world hw)) = false).
  { intros c' Hle. apply bool_decide_eq_false_2. intros Hin. apply Hord in Hin.
    subst c. lia. }
  assert (Hpr : probeReturned env p w0
                = with_clock (clock (world hw) + took (probe env p))
                    (record (CallCheckFile p) (checkInFlight p w0))).
  { unfold probeReturned, after. rewrite CheckFile_unfold, Hduring. reflexivity. }
  assert (Hh : handleHealthCheckResult env
                 {| Type_ := outcome (probe env p); EventFilePath := p;
                    Error := detail (probe env p) |} (probeReturned env p w0)
               = (Done (Some ("file health record not found for file: " +:+ p)),
                  probeReturned env p w0)).
  { unfold handleHealthCheckResult. cbv zeta. cbn [Type_ EventFilePath].
    assert (Hg : GetFileHealth env p (probeReturned env p w0)
                 = (Done (None, None), probeReturned env p w0)).
    { unfold GetFileHealth. rewrite Hget, Hpr. simpl. by rewrite Hrec. }
    destruct (outcome (probe env p)); [done| |]; unfold bind; by rewrite Hg. }
  rewrite performDirectCheck_unfold. cbv zeta. cbn [fst snd].
  assert (Hd1 : ctxDone [nextCancel w0; c] (checkInFlight p w0) = false).
  { unfold ctxDone. simpl. rewrite !Hc; [done|lia|subst c; lia]. }
  assert (Hd2 : ctxDone [nextCancel w0; c] (probeReturned env p w0) = false).
  { rewrite Hpr. unfold ctxDone. simpl. rewrite !Hc; [done|lia|subst c; lia]. }
  rewrite Hd1, Hd2, Hh. cbn [fst snd]. rewrite Hget.
  unfold after, UpdateFileHealth, write. rewrite Hupd. simpl.
  rewrite Hpr. simpl. rewrite Hrec. by rewrite lookup_insert_eq.
Qed.

Lemma background_check_registers_untracked_path_witness :
  store (world (PerformBackgroundCheck
                  (steadyEnv EventTypeCheckFailed None Minute) "/m/y.mkv"
                  (runningOver (startWorld ∅))).2) !! "/m/y.mkv"
  = Some (Store.fresh defaultConfig Minute "/m/y.mkv" HealthStatusPending
            (Some (wrapErr "failed to handle health check result"
                     "file health record not found for file: /m/y.mkv"))
            None None).
Proof.
  apply (background_check_registers_untracked_path
           (steadyEnv EventTypeCheckFailed None Minute) "/m/y.mkv"
           (runningOver (startWorld ∅))); try reflexivity.
  - intros c Hc. simpl in Hc. set_solver.
  - discriminate.
Defined.

(** ** A rescan that is accepted *)

(** The repair task of a record whose rescan is accepted: two calls, one
    more file processed, and nothing else. *)
Lemma repairTask_accepted env ctx fh w :
  storeFault env (StoreGetFileHealth (FilePath fh)) = None →
  ctxDone ctx w = false →
  store w !! FilePath fh = Some fh →
  rescanAccepts env fh →
  ∃ lib,
    repairTask env ctx fh w
    = (Done tt,
       with_stats Stats.fileProcessed
         (record (CallTriggerFileRescan lib)
            (record (CallTriggerRepair (FilePath fh)) w))).
Proof.
  intros Hget Hctx Hrec (lib & Hlib & Hne & Hok). exists lib.
  unfold repairTask, processRepairNotification. unfold bind at 1 2. unfold gets at 1.
  rewrite Hctx. unfold bind at 1.
  rewrite (triggerFileRepair_tracked env _ None w fh Hrec Hget). cbv zeta.
  rewrite Hlib. destruct (decide (lib = "")); [done|]. by rewrite Hok.
Qed.

Lemma repair_tasks_accepted env ctx (l : list FileHealth) : ∀ w,
  (∀ p, storeFault env (StoreGetFileHealth p) = None) →
  ctxDone ctx w = false →
  (∀ fh, fh ∈ l → store w !! FilePath fh = Some fh ∧ rescanAccepts env fh) →
  ∃ w', waitGroup (map (repairTask env ctx) l) w = (Done tt, w')
        ∧ store w' = store w ∧ clock w' = clock w ∧ cancelled w' = cancelled w
        ∧ ∃ k, trace w' = trace w ++ k ∧ count isRescan k = length l.
Proof.
  induction l as [|fh l IH]; intros w Hget Hctx Hl.
  { exists w. split_and!; try done. exists []. by rewrite app_nil_r. }
  destruct (Hl fh) as [Hrec Hacc]; [by left|].
  destruct (repairTask_accepted env ctx fh w (Hget _) Hctx Hrec Hacc) as [lib E].
  simpl. rewrite E.
  set (w1 := with_stats _ _).
  destruct (IH w1 Hget) as (w' & Ew & Hs & Hc & Hcan & k & Hk & Hn).
  { exact Hctx. }
  { intros fh' Hin. apply Hl. by right. }
  exists w'. split; [exact Ew|]. rewrite Hs, Hc, Hcan. split_and!; try done.
  exists ([CallTriggerRepair (FilePath fh); CallTriggerFileRescan lib] ++ k).
  split.
  - rewrite Hk. subst w1. simpl. by rewrite <- !app_assoc.
  - unfold count in *. simpl. by rewrite Hn.
Qed.

(** One cycle in which nothing is due for a check and every rescan is
    accepted. *)
Lemma cycle_of_accepted_rescans env ctx w :
  (∀ p, storeFault env (StoreGetFileHealth p) = None) →
  storeFault env StoreGetUnhealthyFiles = None →
  storeFault env StoreGetFilesForRepairNotification = None →
  ctxDone ctx w = false →
  keyed (store w) →
  Store.fetch_due_for_check (clock w) (getMaxConcurrentJobs env) (store w) = [] →
  (∀ fh, fh ∈ Store.fetch_due_for_repair (clock w) (getMaxConcurrentJobs env) (store w) →
         rescanAccepts env fh) →
  ∃ w', runHealthCheckCycle env ctx w = (Done None, w')
        ∧ store w' = store w ∧ clock w' = clock w ∧ cancelled w' = cancelled w
        ∧ ∃ k, trace w' = trace w ++ k
               ∧ count isRescan k
                 = length (Store.fetch_due_for_repair (clock w)
                             (getMaxConcurrentJobs env) (store w)).
Proof.
  intros Hget Hf1 Hf2 Hctx Hkey Hcheck Hacc.
  rewrite runHealthCheckCycle_unfold. cbv zeta. rewrite Hf1, Hf2, Hcheck.
  cbn [length map app Nat.add].
  set (rf := Store.fetch_due_for_repair _ _ _) in *.
  set (w2 := record _ (record _ _)).
  destruct (repair_tasks_accepted env ctx rf w2 Hget)
    as (w3 & Ew & Hs & Hc & Hcan & k & Hk & Hn).
  { exact Hctx. }
  { intros fh Hin. split; [|by apply Hacc].
    destruct (fetch_due_for_repair_stored _ _ _ _ Hin) as [key Hkeyed].
    subst w2. simpl. by rewrite (Hkey _ _ Hkeyed). }
  destruct (length rf =? 0)%nat eqn:Hz.
  - apply Nat.eqb_eq in Hz. eexists. split; [done|]. simpl. split_and!; try done.
    eexists. rewrite <- app_assoc. split; [done|]. by rewrite Hz.
  - rewrite Ew. eexists. split; [done|]. simpl. rewrite Hs, Hc, Hcan.
    split_and!; try done.
    exists ([CallGetUnhealthyFiles (getMaxConcurrentJobs env);
             CallGetFilesForRepairNotification (getMaxConcurrentJobs env)] ++ k).
    split.
    + rewrite Hk. subst w2. simpl. by rewrite <- !app_assoc.
    + unfold count in *. simpl. by rewrite Hn.
Qed.

Lemma cycles_of_accepted_rescans env ctx n : ∀ w,
  (∀ p, storeFault env (StoreGetFileHealth p) = None) →
  storeFault env StoreGetUnhealthyFiles = None →
  storeFault env StoreGetFilesForRepairNotification = None →
  ctxDone ctx w = false →
  keyed (store w) →
  Store.fetch_due_for_check (clock w) (getMaxConcurrentJobs env) (store w) = [] →
  (∀ fh, fh ∈ Store.fetch_due_for_repair (clock w) (getMaxConcurrentJobs env) (store w) →
         rescanAccepts env fh) →
  ∃ w', cycles n env ctx w = (Done tt, w')
        ∧ store w' = store w ∧ clock w' = clock w ∧ cancelled w' = cancelled w
        ∧ ∃ k, trace w' = trace w ++ k
               ∧ count isRescan k
                 = (n * length (Store.fetch_due_for_repair (clock w)
                                  (getMaxConcurrentJobs env) (store w)))%nat.
Proof.
  induction n as [|n IH]; intros w Hget Hf1 Hf2 Hctx Hkey Hcheck Hacc.
  { exists w. split_and!; try done. exists []. by rewrite app_nil_r. }
  destruct (cycle_of_accepted_rescans env ctx w Hget Hf1 Hf2 Hctx Hkey Hcheck Hacc)
    as (w1 & E1 & Hs1 & Hc1 & Hcan1 & k1 & Hk1 & Hn1).
  destruct (IH w1 Hget Hf1 Hf2) as (w' & E & Hs & Hc & Hcan & k & Hk & Hn).
  { unfold ctxDone in *. by rewrite Hcan1. }
  { by rewrite Hs1. }
  { by rewrite Hs1, Hc1. }
  { rewrite Hs1, Hc1. exact Hacc. }
  exists w'. simpl. unfold bind. rewrite E1, E.
  rewrite Hs, Hc, Hcan, Hs1, Hc1, Hcan1. split_and!; try done.
  exists (k1 ++ k). split.
  - by rewrite Hk, Hk1, app_assoc.
  - unfold count in *. rewrite List.filter_app, length_app, Hn1, Hn, Hs1, Hc1. lia.
Qed.

(** X18.  A rescan that is accepted is asked for again on every cycle.
    When nothing is due for a check and the rescanner accepts every file
    that is due for a repair notification, a cycle changes nothing in the
    store: the files are as due as they were.  So [n] cycles at the same
    time return, leave the store as it was and ask for [n] rescans of
    every such file. *)
Theorem accepted_rescan_is_asked_again env ctx n w :
  (∀ p, storeFault env (StoreGetFileHealth p) = None) →
  storeFault env StoreGetUnhealthyFiles = None →
  storeFault env StoreGetFilesForRepairNotification = None →
  ctxDone ctx w = false →
  keyed (store w) →
  Store.fetch_due_for_check (clock w) (getMaxConcurrentJobs env) (store w) = [] →
  (∀ fh, fh ∈ Store.fetch_due_for_repair (clock w) (getMaxConcurrentJobs env) (store w) →
         rescanAccepts env fh) →
  result (cycles n env ctx) w = Done tt
  ∧ store (after (cycles n env ctx) w) = store w
  ∧ count isRescan (emitted (cycles n env ctx) w)
    = (n * length (Store.fetch_due_for_repair (clock w)
                     (getMaxConcurrentJobs env) (store w)))%nat.
Proof.
  intros Hget Hf1 Hf2 Hctx Hkey Hcheck Hacc.
  destruct (cycles_of_accepted_rescans env ctx n w Hget Hf1 Hf2 Hctx Hkey Hcheck Hacc)
    as (w' & E & Hs & _ & _ & k & Hk & Hn).
  unfold emitted, result, after. rewrite E. simpl.
  split_and!; try done. by rewrite Hk, drop_app_length.
Qed.

Lemma accepted_rescan_is_asked_again_witness :
  result (cycles 5 (steadyEnv EventTypeFileCorrupted None 0) []) (tracking awaitingRepair)
    = Done tt
  ∧ store (after (cycles 5 (steadyEnv EventTypeFileCorrupted None 0) [])
             (tracking awaitingRepair))
    = store (tracking awaitingRepair)
  ∧ count isRescan
      (emitted (cycles 5 (steadyEnv EventTypeFileCorrupted None 0) [])
         (tracking awaitingRepair)) = 5%nat.
Proof.
  apply (accepted_rescan_is_asked_again
           (steadyEnv EventTypeFileCorrupted None 0) [] 5 (tracking awaitingRepair));
    try reflexivity.
  - intros k fh Hk. unfold tracking, startWorld in Hk. cbn [store] in Hk.
    apply lookup_singleton_Some in Hk. destruct Hk as [<- <-]. reflexivity.
  - intros fh Hin. vm_compute in Hin. apply list_elem_of_singleton in Hin. subst fh.
    exists "/lib/x.mkv". by split_and!.
Defined.

(** ** The registry of checks in flight *)

Lemma keeps_registersNothing {A} (m : M A) :
  keeps activeChecks m → registersNothing m.
Proof. intros H w q c. by rewrite H. Qed.

Lemma registersNothing_bind {A B} (m : M A) (k : A → M B) :
  registersNothing m → (∀ a, registersNothing (k a)) → registersNothing (bind m k).
Proof.
  intros Hm Hk w q c. specialize (Hm w q c). unfold after, bind in *.
  destruct (m w) as [[a|] w1]; simpl in *; [|done].
  intros H. apply Hm. by apply (Hk a w1).
Qed.

Lemma keeps_activeChecks_GetFileHealth env p : keeps activeChecks (GetFileHealth env p).
Proof. intros w. unfold after, GetFileHealth. by destruct (storeFault env _). Qed.

Lemma keeps_activeChecks_SetFileChecking env p :
  keeps activeChecks (SetFileChecking env p).
Proof.
  intros w. unfold after, SetFileChecking. destruct (storeFault env _); [done|].
  destruct (store w !! p) as [fh|]; [|done]. by destruct (Status fh).
Qed.

Lemma keeps_activeChecks_triggerFileRepair env p e :
  keeps activeChecks (triggerFileRepair env p e).
Proof.
  unfold triggerFileRepair, SetCorrupted.
  repeat first [keeps_step | apply keeps_activeChecks_GetFileHealth].
Qed.

Lemma keeps_activeChecks_handleHealthCheckResult env event :
  keeps activeChecks (handleHealthCheckResult env event).
Proof.
  unfold handleHealthCheckResult, MarkAsHealthy, IncrementRetryCount,
    IncrementRepairRetryCount, MarkAsCorrupted.
  repeat first [keeps_step | apply keeps_activeChecks_GetFileHealth
               | apply keeps_activeChecks_triggerFileRepair].
Qed.

Lemma keeps_activeChecks_repairTask env ctx fh :
  keeps activeChecks (repairTask env ctx fh).
Proof.
  unfold repairTask, processRepairNotification, updateStats,
    IncrementRepairRetryCount.
  repeat first [keeps_step | apply keeps_activeChecks_triggerFileRepair].
Qed.

Lemma registersNothing_operateAll env l : registersNothing (operateAll env l).
Proof.
  induction l as [|a l IH]; simpl; [by intros w q c|].
  apply registersNothing_bind; [|intros _; exact IH].
  destruct a as [p|c0]; simpl; [|by intros w q c].
  intros w q c. unfold after, CancelHealthCheck, UpdateFileHealth, write.
  unfold bind at 1 2. unfold gets at 1.
  destruct (activeChecks w !! p); [|done].
  unfold bind, modify, ret. simpl.
  destruct (storeFault env _); simpl; intros H;
    apply lookup_delete_Some in H; by destruct H.
Qed.

(** When [performDirectCheck] returns, the registry holds nothing it did
    not hold before, and nothing for the path of the check. *)
Lemma registersNothing_performDirectCheck env ctx p :
  registersNothing (performDirectCheck env ctx p).
Proof.
  intros w q c. unfold after. rewrite performDirectCheck_unfold. cbv zeta. cbn [fst snd].
  assert (Hreg : ∀ x, (∀ q c, activeChecks x !! q = Some c →
                              activeChecks (checkInFlight p w) !! q = Some c) →
            activeChecks (callCancel (nextCancel w) (with_activeChecks (delete p) x)) !! q
              = Some c →
            activeChecks w !! q = Some c).
  { intros x Hx H. simpl in H. apply lookup_delete_Some in H. destruct H as [Hne H].
    apply Hx in H. simpl in H. by rewrite lookup_insert_ne in H. }
  assert (Hprobe : ∀ q c, activeChecks (probeReturned env p w) !! q = Some c →
                          activeChecks (checkInFlight p w) !! q = Some c).
  { intros q' c'. unfold probeReturned, after. rewrite CheckFile_unfold. simpl.
    intros H. by apply (registersNothing_operateAll env _ _ q' c') in H. }
  destruct (ctxDone _ (checkInFlight p w)); [by apply Hreg|].
  destruct (ctxDone _ (probeReturned env p w)); [by apply Hreg|].
  pose proof (keeps_activeChecks_handleHealthCheckResult env
                {| Type_ := outcome (probe env p); EventFilePath := p;
                   Error := detail (probe env p) |} (probeReturned env p w)) as Hh.
  unfold after in Hh.
  destruct (handleHealthCheckResult env _ (probeReturned env p w)) as [[[e|]|] w3];
    simpl in Hh; apply Hreg; simpl; rewrite Hh; exact Hprobe.
Qed.

Lemma registersNothing_checkTask env ctx fh : registersNothing (checkTask env ctx fh).
Proof.
  unfold checkTask.
  apply registersNothing_bind;
    [apply keeps_registersNothing, keeps_activeChecks_SetFileChecking|].
  intros [e|]; [by intros w q c|].
  apply registersNothing_bind; [apply registersNothing_performDirectCheck|].
  intros _. by intros w q c.
Qed.

Lemma registersNothing_waitGroup (tasks : list (M unit)) :
  Forall registersNothing tasks → registersNothing (waitGroup tasks).
Proof.
  induction 1 as [|task rest Ht _ IH]; [by intros w q c|].
  intros w q c. rewrite waitGroup_after_cons. intros H.
  by apply Ht, IH.
Qed.

(** X19.  No check outlives the cycle that started it.  When a cycle is
    over, however it ends, the registry of checks in flight holds only
    entries it held before the cycle; a cycle started with an empty
    registry leaves no path with an active check.  The same holds for a
    single [performDirectCheck], which moreover leaves its own path
    unregistered. *)
Theorem no_check_outlives_its_cycle env ctx w :
  (∀ q c, activeChecks (after (runHealthCheckCycle env ctx) w) !! q = Some c →
          activeChecks w !! q = Some c)
  ∧ (activeChecks w = ∅ →
     ∀ q, IsCheckActive q (after (runHealthCheckCycle env ctx) w) = false)
  ∧ (∀ p q c, activeChecks (after (performDirectCheck env ctx p) w) !! q = Some c →
              q ≠ p ∧ activeChecks w !! q = Some c).
Proof.
  assert (Hcycle : ∀ q c,
            activeChecks (after (runHealthCheckCycle env ctx) w) !! q = Some c →
            activeChecks w !! q = Some c).
  { intros q c. unfold after. rewrite runHealthCheckCycle_unfold. cbv zeta.
    destruct (storeFault env StoreGetUnhealthyFiles); [done|].
    destruct (storeFault env StoreGetFilesForRepairNotification); [done|].
    destruct (_ =? _)%nat; [done|].
    set (tasks := map _ _ ++ map _ _).
    set (w2 := record _ (record _ _)).
    assert (Ht : registersNothing (waitGroup tasks)).
    { apply registersNothing_waitGroup, Forall_app. split; apply Forall_forall;
        intros t Hin; apply list_elem_of_In, in_map_iff in Hin;
        destruct Hin as (fh & <- & _).
      - apply registersNothing_checkTask.
      - apply keeps_registersNothing, keeps_activeChecks_repairTask. }
    specialize (Ht w2 q c). unfold after in Ht.
    by destruct (waitGroup tasks w2) as [[[]|] w3]. }
  split_and!.
  - exact Hcycle.
  - intros Hempty q. unfold IsCheckActive. apply bool_decide_eq_false_2.
    intros [c Hc]. apply Hcycle in Hc. by rewrite Hempty in Hc.
  - intros p q c H. split.
    + intros ->. revert H. unfold after. rewrite performDirectCheck_unfold.
      cbv zeta. cbn [fst snd]. simpl. by rewrite lookup_delete_eq.
    + by apply (registersNothing_performDirectCheck env ctx p w q c).
Qed.
